(** * Rich-text editing core: styled buffer, line layout, edit controller

    Shallow embedding of [TextModel], [SelectionModel], [TextLayout] and the
    history part of [TextControl] (src/main.js) together with
    [PaintCanvas.cutText] (src/paint.js), and the properties of the
    specification proved, or refuted, against them.

    Conventions of the embedding:
    - a JavaScript string is the list of its UTF-16 code units ([list N]);
    - offsets, indices, the version counter and pixel widths are integers
      ([Z]); array positions are converted with [Z.to_nat] only after the
      range checks the source performs;
    - a style field holds [undefined], a boolean or a string ([jsval]);
    - a call returns a value of type [res]: its result, a [TypeError], or
      [NoFuel] where a loop that the source bounds by nothing but its own
      progress was cut off by the [fuel] argument of the embedding. *)

From Stdlib Require Import ZArith NArith Lia String Ascii.
From stdpp Require Import base option list.

Local Open Scope Z_scope.

(** ** JavaScript values and primitives used by the source *)

Module Js.

(** A string literal of the source, as code units. *)
Definition js (s : string) : list N :=
  List.map N_of_ascii (list_ascii_of_string s).
Arguments js s%_string.

Definition len {A} (l : list A) : Z := Z.of_nat (length l).

(** [Math.max(0, Math.min(i, n))]. *)
Definition clamp (i n : Z) : Z := Z.max 0 (Z.min i n).

(** Relative index of [slice] and [splice]: negative counts from the end. *)
Definition rel_index (i n : Z) : Z :=
  if i <? 0 then Z.max (n + i) 0 else Z.min i n.

(** [s.slice(a, b)] *)
Definition slice {A} (s : list A) (a b : Z) : list A :=
  let from := rel_index a (len s) in
  let to := rel_index b (len s) in
  take (Z.to_nat (to - from)) (drop (Z.to_nat from) s).

(** [s.slice(a)] *)
Definition slice_from {A} (s : list A) (a : Z) : list A :=
  drop (Z.to_nat (rel_index a (len s))) s.

(** [s.charAt(i)]: a string of one code unit, or the empty string. *)
Definition charAt {A} (s : list A) (i : Z) : list A :=
  if i <? 0 then [] else
    match s !! Z.to_nat i with Some c => [c] | None => [] end.

(** [a[i]], [undefined] outside the array. *)
Definition nthZ {A} (l : list A) (i : Z) : option A :=
  if i <? 0 then None else l !! Z.to_nat i.

(** [a.splice(start, deleteCount, ...items)]: the array afterwards. *)
Definition splice {A} (l : list A) (start count : Z) (items : list A)
  : list A :=
  let s := rel_index start (len l) in
  let c := Z.max 0 (Z.min count (len l - s)) in
  take (Z.to_nat s) l ++ items ++ drop (Z.to_nat (s + c)) l.

(** Values a style field can hold. *)
Inductive jsval :=
  | VUndef
  | VBool (b : bool)
  | VStr (s : list N).

#[export] Instance jsval_eq_dec : EqDecision jsval.
Proof. solve_decision. Defined.

(** [a === b] *)
Definition strict_eq (a b : jsval) : bool := bool_decide (a = b).

(** Truthiness, as tested by [!v], [!!v], [a && b] and [a || b]. *)
Definition truthy (v : jsval) : bool :=
  match v with
  | VUndef => false
  | VBool b => b
  | VStr s => negb (bool_decide (s = []))
  end.

Definition newline : N := 10%N.

(** The class [\s] of regular expressions: WhiteSpace and LineTerminator. *)
Definition is_space (c : N) : bool :=
  ((9 <=? c) && (c <=? 13) || (c =? 32) || (c =? 160) || (c =? 5760)
   || (8192 <=? c) && (c <=? 8202) || (c =? 8232) || (c =? 8233)
   || (c =? 8239) || (c =? 8287) || (c =? 12288) || (c =? 65279))%N.

(** [s.split("\n")]: never empty, one entry more than there are newlines. *)
Fixpoint split_nl (s : list N) : list (list N) :=
  match s with
  | [] => [[]]
  | c :: s' =>
      if (c =? newline)%N then [] :: split_nl s'
      else match split_nl s' with
           | p :: ps => (c :: p) :: ps
           | [] => [[c]]
           end
  end.

(** [parts.join(sep)] *)
Fixpoint join_with {A} (sep : list A) (parts : list (list A)) : list A :=
  match parts with
  | [] => []
  | [x] => x
  | x :: rest => x ++ sep ++ join_with sep rest
  end.

End Js.
Import Js.

Abbreviation jsstring := (list N) (only parsing).

(** ** Outcome of a call

    A call of the source returns, raises a [TypeError] (a property read on
    [undefined]), or, where a loop is bounded by fuel, runs out of it. *)

Inductive res (A : Type) :=
| Ok (a : A)
| TypeError
| NoFuel.
Arguments Ok {A} a.
Arguments TypeError {A}.
Arguments NoFuel {A}.

#[export] Instance res_ret : MRet res := fun A a => Ok a.
#[export] Instance res_bind : MBind res := fun A B f x =>
  match x with
  | Ok a => f a
  | TypeError => TypeError
  | NoFuel => NoFuel
  end.

(** [o.f] where [o] may be [undefined]. *)
Definition defined {A} (o : option A) : res A :=
  match o with Some a => Ok a | None => TypeError end.

(** ** TextModel: the styled buffer *)

(** A run [{ text, bold, italic, underline, color }]. *)
Record Run := mkRun {
  r_text : jsstring;
  bold : jsval;
  italic : jsval;
  underline : jsval;
  color : jsval
}.

(** [{ ...r, text: t }] *)
Definition with_text (r : Run) (t : jsstring) : Run :=
  mkRun t (bold r) (italic r) (underline r) (color r).

Record TextModel := mkModel {
  runs : list Run;
  text : jsstring;
  _version : Z
}.

(** The style argument of [insertAt]: an object whose fields may be absent. *)
Record Style := mkStyle {
  s_bold : jsval;
  s_italic : jsval;
  s_underline : jsval;
  s_color : jsval
}.

(** The property names [applyStyle] is documented to take. *)
Inductive Prop_ := PBold | PItalic | PUnderline | PColor.

Definition default_color : jsval := VStr (js "#111").

Definition plain_run (t : jsstring) : Run :=
  mkRun t (VBool false) (VBool false) (VBool false) default_color.

(** [this.runs.map(r=>r.text).join("")] *)
Definition join_runs (rs : list Run) : jsstring := concat (map r_text rs).

(** [new TextModel(text)]; [None] is the omitted argument. *)
Definition new_TextModel (t : option jsstring) : TextModel :=
  let s := default [] t in
  mkModel [plain_run s] s 0.

Definition _rebuildText (m : TextModel) : TextModel :=
  mkModel (runs m) (join_runs (runs m)) (_version m + 1).

(** [setText(t)]; [None] is [null] or [undefined]. *)
Definition setText (t : option jsstring) (m : TextModel) : TextModel :=
  let s := default [] t in
  _rebuildText (mkModel [plain_run s] (text m) (_version m)).

(** The loop of [_locate]: [i] is the index of the head of [rs], [acc] the
    length of the runs before it. *)
Fixpoint locate_loop (rs : list Run) (i acc index : Z) : option (Z * Z) :=
  match rs with
  | [] => None
  | r :: rs' =>
      let n := len (r_text r) in
      if index <=? acc + n then Some (i, index - acc)
      else locate_loop rs' (i + 1) (acc + n) index
  end.

(** [_locate(index)] returns [(ri, off)]. *)
Definition _locate (m : TextModel) (index : Z) : Z * Z :=
  match locate_loop (runs m) 0 0 index with
  | Some p => p
  | None =>
      (len (runs m) - 1,
       match nthZ (runs m) (len (runs m) - 1) with
       | Some r => len (r_text r)
       | None => 0
       end)
  end.

(** [_splitAt(index)]: the buffer afterwards and the returned run index. *)
Definition _splitAt (index : Z) (m : TextModel) : TextModel * Z :=
  let index := clamp index (len (text m)) in
  let '(ri, off) := _locate m index in
  match nthZ (runs m) ri with
  | None => (m, 0)
  | Some run =>
      if off =? 0 then (m, ri)
      else if off =? len (r_text run) then (m, ri + 1)
      else
        let left := with_text run (slice (r_text run) 0 off) in
        let right := with_text run (slice_from (r_text run) off) in
        (mkModel (splice (runs m) ri 1 [left; right]) (text m) (_version m),
         ri + 1)
  end.

Definition same_style (a b : Run) : bool :=
  strict_eq (bold a) (bold b) && strict_eq (italic a) (italic b)
  && strict_eq (underline a) (underline b) && strict_eq (color a) (color b).

(** One iteration of the loop of [_mergeAdjacent] on the array [out]. *)
Definition merge_step (out : list Run) (r : Run) : list Run :=
  match last out with
  | Some l =>
      if same_style l r
      then removelast out ++ [with_text l (r_text l ++ r_text r)]
      else out ++ [r]
  | None => out ++ [r]
  end.

Definition merge_runs (rs : list Run) : list Run := fold_left merge_step rs [].

Definition _mergeAdjacent (m : TextModel) : TextModel :=
  mkModel (merge_runs (runs m)) (text m) (_version m).

(** The run built by [insertAt] from [s] and the optional [style]. *)
Definition styled_run (s : jsstring) (style : option Style) : Run :=
  let field (f : Style -> jsval) :=
    match style with Some st => f st | None => VUndef end in
  mkRun s
    (VBool (truthy (field s_bold)))
    (VBool (truthy (field s_italic)))
    (VBool (truthy (field s_underline)))
    (if truthy (field s_color) then field s_color else default_color).

Definition insertAt (index : Z) (s : jsstring) (style : option Style)
  (m : TextModel) : TextModel :=
  if bool_decide (s = []) then m else
  let index := clamp index (len (text m)) in
  let '(m1, at_) := _splitAt index m in
  let m2 := mkModel (splice (runs m1) at_ 0 [styled_run s style])
              (text m1) (_version m1) in
  _rebuildText (_mergeAdjacent m2).

Definition deleteRange (start end_ : Z) (m : TextModel) : TextModel :=
  if start =? end_ then m else
  let '(start, end_) :=
    if start >? end_ then (end_, start) else (start, end_) in
  let start := clamp start (len (text m)) in
  let end_ := clamp end_ (len (text m)) in
  if end_ <=? start then m else
  let '(m1, a) := _splitAt start m in
  let '(m2, b) := _splitAt end_ m1 in
  let m3 := mkModel (splice (runs m2) a (b - a) []) (text m2) (_version m2) in
  _rebuildText (_mergeAdjacent m3).

(** [r[prop]] and [r[prop] = v] *)
Definition get_prop (p : Prop_) (r : Run) : jsval :=
  match p with
  | PBold => bold r | PItalic => italic r
  | PUnderline => underline r | PColor => color r
  end.

Definition set_prop (p : Prop_) (v : jsval) (r : Run) : Run :=
  match p with
  | PBold => mkRun (r_text r) v (italic r) (underline r) (color r)
  | PItalic => mkRun (r_text r) (bold r) v (underline r) (color r)
  | PUnderline => mkRun (r_text r) (bold r) (italic r) v (color r)
  | PColor => mkRun (r_text r) (bold r) (italic r) (underline r) v
  end.

(** The loop [for(let i=a;i<b;i++)] of [applyStyle], [n] iterations left.
    Reading a property of [this.runs[i]] when there is no such run raises a
    [TypeError]. *)
Fixpoint apply_loop (n : nat) (i : Z) (p : Prop_) (toggle : bool)
  (value : jsval) (rs : list Run) : res (list Run) :=
  match n with
  | O => Ok rs
  | S n' =>
      r ← defined (nthZ rs i);
      let v := if toggle then VBool (negb (truthy (get_prop p r))) else value in
      apply_loop n' (i + 1) p toggle value (<[Z.to_nat i := set_prop p v r]> rs)
  end.

(** A parameter declared [name=true]: an argument that is [undefined], or
    left out, is replaced by [true]. *)
Definition default_true (v : jsval) : jsval :=
  match v with
  | VUndef => VBool true
  | _ => v
  end.

(** [applyStyle(start, end, prop, toggle=true, value=true)]. [value] is the
    argument as passed, its default applied on entry; [toggle] is read by
    [if(toggle)] only and stands for the truthiness of the argument after
    its default (an argument left out counts as [true]). *)
Definition applyStyle (start end_ : Z) (p : Prop_) (toggle : bool)
  (value : jsval) (m : TextModel) : res TextModel :=
  let value := default_true value in
  if start =? end_ then Ok m else
  let '(start, end_) :=
    if start >? end_ then (end_, start) else (start, end_) in
  let start := clamp start (len (text m)) in
  let end_ := clamp end_ (len (text m)) in
  let '(m1, a) := _splitAt start m in
  let '(m2, b) := _splitAt end_ m1 in
  rs ← apply_loop (Z.to_nat (b - a)) a p toggle value (runs m2);
  Ok (_rebuildText (_mergeAdjacent (mkModel rs (text m2) (_version m2)))).

(** [getRunsInRange(start, end)]: the buffer afterwards and the returned
    array of copies. *)
Definition getRunsInRange (start end_ : Z) (m : TextModel)
  : TextModel * list Run :=
  let start := clamp start (len (text m)) in
  let end_ := clamp end_ (len (text m)) in
  let '(m1, a) := _splitAt start m in
  let '(m2, b) := _splitAt end_ m1 in
  (m2, slice (runs m2) a b).

(** ** SelectionModel *)

Record SelectionModel := mkSel { anchor : Z; head : Z }.

Definition sel_start (s : SelectionModel) : Z := Z.min (anchor s) (head s).
Definition sel_end (s : SelectionModel) : Z := Z.max (anchor s) (head s).
Definition sel_empty (s : SelectionModel) : bool := anchor s =? head s.
Definition collapseTo (pos : Z) (_ : SelectionModel) : SelectionModel :=
  mkSel pos pos.
Definition setRange (a b : Z) (_ : SelectionModel) : SelectionModel :=
  mkSel a b.

(** ** The rendering surface, as far as the layout uses it *)

(** The 2D context keeps a current font and a stack of saved states. *)
Record Paint := mkPaint { p_font : jsstring; p_saved : list jsstring }.

Definition paint_save (p : Paint) : Paint :=
  mkPaint (p_font p) (p_font p :: p_saved p).
Definition paint_restore (p : Paint) : Paint :=
  match p_saved p with
  | f :: st => mkPaint f st
  | [] => p
  end.
Definition paint_set_font (f : jsstring) (p : Paint) : Paint :=
  mkPaint f (p_saved p).

(** ** TextLayout and TextControl: records *)

Record Line := mkLine { l_text : jsstring; l_start : Z; l_end : Z }.

Record Cache := mkCache { c_version : Z; c_width : Z; c_lines : list Line }.

Record TextLayout := mkLayout {
  _cache : option Cache;
  lineHeight : Z;
  l_font : jsstring;
  paddingLeft : Z;
  paddingTop : Z
}.

Inductive WrapMode := WordMode | CharMode.

(** The options of the control the layout and the editing read. *)
Record Options := mkOptions {
  wrap : bool;
  wordWrap : WrapMode;
  hyphenate : bool;
  hyphenChar : jsstring;
  styleAwareLayout : bool;
  keepCaretVisible : bool
}.

(** Position and size of the control, its border, and the origin of the
    interior of its form. *)
Record Geometry := mkGeometry {
  g_x : Z;
  g_width : Z;
  g_height : Z;
  border_left : Z;
  border_right : Z;
  border_top : Z;
  border_bottom : Z;
  inside_x : Z
}.

(** A history entry [{ text, sel: { a, h } }]. *)
Record Snapshot := mkSnap { snap_text : jsstring; snap_a : Z; snap_h : Z }.

Record TextControl := mkControl {
  textModel : TextModel;
  selection : SelectionModel;
  textLayout : TextLayout;
  _history : list Snapshot;
  _redo : list Snapshot;
  _historyLimit : Z;
  currentStyle : Style;
  _preferredX : option Z;
  _showCaret : bool;
  _blinkTimer : Z;
  _scrollY : Z;
  _dirty : bool;
  options : Options;
  geometry : Geometry;
  paint : Paint
}.

Definition set_textModel (m : TextModel) (c : TextControl) : TextControl :=
  mkControl m (selection c) (textLayout c) (_history c) (_redo c)
    (_historyLimit c) (currentStyle c) (_preferredX c) (_showCaret c)
    (_blinkTimer c) (_scrollY c) (_dirty c) (options c) (geometry c) (paint c).
Definition set_selection (s : SelectionModel) (c : TextControl) : TextControl :=
  mkControl (textModel c) s (textLayout c) (_history c) (_redo c)
    (_historyLimit c) (currentStyle c) (_preferredX c) (_showCaret c)
    (_blinkTimer c) (_scrollY c) (_dirty c) (options c) (geometry c) (paint c).
Definition set_cache (k : option Cache) (c : TextControl) : TextControl :=
  let l := textLayout c in
  mkControl (textModel c) (selection c)
    (mkLayout k (lineHeight l) (l_font l) (paddingLeft l) (paddingTop l))
    (_history c) (_redo c)
    (_historyLimit c) (currentStyle c) (_preferredX c) (_showCaret c)
    (_blinkTimer c) (_scrollY c) (_dirty c) (options c) (geometry c) (paint c).
Definition set_stacks (h r : list Snapshot) (c : TextControl) : TextControl :=
  mkControl (textModel c) (selection c) (textLayout c) h r
    (_historyLimit c) (currentStyle c) (_preferredX c) (_showCaret c)
    (_blinkTimer c) (_scrollY c) (_dirty c) (options c) (geometry c) (paint c).
Definition set_preferredX (x : option Z) (c : TextControl) : TextControl :=
  mkControl (textModel c) (selection c) (textLayout c) (_history c) (_redo c)
    (_historyLimit c) (currentStyle c) x (_showCaret c)
    (_blinkTimer c) (_scrollY c) (_dirty c) (options c) (geometry c) (paint c).
Definition set_blink (show : bool) (t : Z) (c : TextControl) : TextControl :=
  mkControl (textModel c) (selection c) (textLayout c) (_history c) (_redo c)
    (_historyLimit c) (currentStyle c) (_preferredX c) show
    t (_scrollY c) (_dirty c) (options c) (geometry c) (paint c).
Definition set_scrollY (y : Z) (c : TextControl) : TextControl :=
  mkControl (textModel c) (selection c) (textLayout c) (_history c) (_redo c)
    (_historyLimit c) (currentStyle c) (_preferredX c) (_showCaret c)
    (_blinkTimer c) y (_dirty c) (options c) (geometry c) (paint c).
Definition set_dirty (d : bool) (c : TextControl) : TextControl :=
  mkControl (textModel c) (selection c) (textLayout c) (_history c) (_redo c)
    (_historyLimit c) (currentStyle c) (_preferredX c) (_showCaret c)
    (_blinkTimer c) (_scrollY c) d (options c) (geometry c) (paint c).
Definition set_paint (p : Paint) (c : TextControl) : TextControl :=
  mkControl (textModel c) (selection c) (textLayout c) (_history c) (_redo c)
    (_historyLimit c) (currentStyle c) (_preferredX c) (_showCaret c)
    (_blinkTimer c) (_scrollY c) (_dirty c) (options c) (geometry c) p.

(** ** PaintCanvas.cutText and TextLayout.ensure *)

Section Layout.

(** The measurement collaborator: [measure font text] is the [width] of
    [context.measureText(text)] under the current font [font]. *)
Variable measure : jsstring -> jsstring -> Z.

Definition measureText (p : Paint) (t : jsstring) : Z := measure (p_font p) t.

(** The binary search [while(lo < hi)] shared by [cutText] and the
    style-aware path; [fits mid] is the test [w <= width] at [mid]. Every
    iteration brings [lo] and [hi] closer, so [hi - lo] units of fuel are
    as good as any larger amount. *)
Fixpoint bsearch (fits : Z -> bool) (fuel : nat) (lo hi : Z) : Z :=
  match fuel with
  | O => lo
  | S fuel' =>
      if lo <? hi then
        let mid := (lo + hi + 1) / 2 in
        if fits mid then bsearch fits fuel' mid hi
        else bsearch fits fuel' lo (mid - 1)
      else lo
  end.

(** [cutText(text, width)] returns [[head, tail]]. *)
Definition cutText (p : Paint) (t : jsstring) (width : Z)
  : jsstring * jsstring :=
  if len t =? 0 then ([], [])
  else if negb (width >? 0) then ([], t)
  else if measureText p t <=? width then (t, [])
  else
    let lo := bsearch (fun mid => measureText p (slice t 0 mid) <=? width)
                (length t) 0 (len t) in
    (slice t 0 lo, slice_from t lo).

(** The loop [for(i = s.length-1; i >= 0; i--)] looking for a character
    matching [\s]: its index, or [-1]. [n] is [i + 1]. *)
Fixpoint scan_space (s : jsstring) (n : nat) : Z :=
  match n with
  | O => -1
  | S i =>
      match s !! i with
      | Some ch => if is_space ch then Z.of_nat i else scan_space s i
      | None => scan_space s i
      end
  end.

Definition last_space (s : jsstring) : Z := scan_space s (length s).

Section Ensure.

Variable c : TextControl.
(** [W], the available width. *)
Variable W : Z.

Let model := textModel c.
Let opts := options c.
Let hy : jsstring :=
  if bool_decide (hyphenChar opts = []) then js "-" else hyphenChar opts.
Let word := match wordWrap opts with WordMode => true | CharMode => false end.

(** [lines.push({ text: t, start, end: start + t.length })] *)
Definition push (lines : list Line) (t : jsstring) (start : Z) : list Line :=
  lines ++ [mkLine t start (start + len t)].

(** [while(f.length > 1 && measureText(f + hy).width > W) f = f.slice(0,-1)];
    [n] bounds the iterations, and the length of [f] is enough. *)
Fixpoint shrink (p : Paint) (n : nat) (f : jsstring) : jsstring :=
  match n with
  | O => f
  | S n' =>
      if (len f >? 1) && (measureText p (f ++ hy) >? W)
      then shrink p n' (slice f 0 (-1))
      else f
  end.

(** The loop [while(rest.length > 0)] of the plain path (lines 482-523);
    [NoFuel] when [fuel] iterations did not exhaust the rest. *)
Fixpoint plain_loop (p : Paint) (fuel : nat) (rest : jsstring) (offset : Z)
  (lines : list Line) : res (list Line * Z) :=
  match fuel with
  | O => NoFuel
  | S fuel' =>
      if len rest >? 0 then
        let first := fst (cutText p rest W) in
        let cut (first : jsstring) :=
          plain_loop p fuel' (slice_from rest (len first))
            (offset + len first) (push lines first offset) in
        if len first =? 0 then cut (charAt rest 0)
        else if word && (len first <? len rest) then
          let splitAt := last_space first in
          if splitAt >? 0 then
            let wordLine := slice first 0 (splitAt + 1) in
            let carry := slice_from first (splitAt + 1) in
            plain_loop p fuel' (carry ++ slice_from rest (len first))
              (offset + len wordLine) (push lines wordLine offset)
          else if hyphenate opts && (len first >? 1) then
            let f := shrink p (length first) first in
            let hyLine := f ++ hy in
            plain_loop p fuel' (slice_from rest (len f))
              (offset + len hyLine) (push lines hyLine offset)
          else cut first
        else cut first
      else Ok (lines, offset)
  end.

(** [fontParts.join(" ")] for the run found by [_locate]. *)
Definition run_font (run : option Run) : jsstring :=
  let part (f : Run -> jsval) (name : jsstring) :=
    match run with
    | Some r => if truthy (f r) then [name] else []
    | None => []
    end in
  join_with (js " ")
    (part italic (js "italic") ++ part bold (js "bold")
     ++ [l_font (textLayout c)]).

(** State of the style-aware path while a line is filled. *)
Record Fill := mkFill {
  f_rest : jsstring;
  f_restAbs : Z;
  f_lineText : jsstring;
  f_remaining : Z;
  f_paint : Paint
}.

(** [while(rest.length > 0 && remaining > 0)] (lines 408-443); [n] bounds
    the iterations, and the length of the rest is enough, since an iteration
    that does not leave the loop takes at least one character. *)
Fixpoint fill_loop (n : nat) (s : Fill) : Fill :=
  match n with
  | O => s
  | S n' =>
      if (len (f_rest s) >? 0) && (f_remaining s >? 0) then
        let '(ri, off) := _locate model (f_restAbs s) in
        let run := nthZ (runs model) ri in
        let runRemain :=
          match run with
          | Some r =>
              if bool_decide (r_text r = []) then len (f_rest s)
              else len (r_text r) - off
          | None => len (f_rest s)
          end in
        let chunkLen := Z.min runRemain (len (f_rest s)) in
        let chunk := slice (f_rest s) 0 chunkLen in
        let p := paint_set_font (run_font run) (f_paint s) in
        let lo :=
          bsearch (fun mid =>
                     measureText p (slice chunk 0 mid) <=? f_remaining s)
            (length chunk) 0 (len chunk) in
        let take_ :=
          if lo =? 0 then
            if (len (f_lineText s) =? 0) && (len chunk >? 0) then 1 else lo
          else lo in
        if take_ >? 0 then
          let takenText := slice chunk 0 take_ in
          fill_loop n'
            (mkFill (slice_from (f_rest s) take_) (f_restAbs s + take_)
               (f_lineText s ++ takenText)
               (f_remaining s - measureText p takenText) p)
        else
          mkFill (f_rest s) (f_restAbs s) (f_lineText s) (f_remaining s) p
      else s
  end.

(** The hyphenation loop of the style-aware path (lines 462-467):
    [(trial, rest, restAbs)]; [n] bounds the iterations, and the length of
    [trial] is enough. *)
Fixpoint shrink_carry (p : Paint) (n : nat) (trial rest : jsstring)
  (restAbs : Z) : jsstring * jsstring * Z :=
  match n with
  | O => (trial, rest, restAbs)
  | S n' =>
      if (len trial >? 1) && (measureText p (trial ++ hy) >? W) then
        let back := charAt trial (len trial - 1) in
        shrink_carry p n' (slice trial 0 (-1)) (back ++ rest) (restAbs - 1)
      else (trial, rest, restAbs)
  end.

(** The word-wrap step of the style-aware path (lines 445-470), from the
    state left by the fill loop: [(lineText, rest, restAbs)]. *)
Definition back_off (s : Fill) : jsstring * jsstring * Z :=
  let lineText := f_lineText s in
  if word && (len (f_rest s) >? 0) && (len lineText >? 0) then
    let splitAt := last_space lineText in
    if (splitAt >=? 0) && (splitAt <? len lineText - 1) then
      let carry := slice_from lineText (splitAt + 1) in
      (slice lineText 0 (splitAt + 1), carry ++ f_rest s,
       f_restAbs s - len carry)
    else if hyphenate opts then
      let '(trial, rest, restAbs) :=
        shrink_carry (f_paint s) (length lineText) lineText (f_rest s)
          (f_restAbs s) in
      (trial ++ hy, rest, restAbs)
    else (lineText, f_rest s, f_restAbs s)
  else (lineText, f_rest s, f_restAbs s).

(** The loop [while(rest.length > 0)] of the style-aware path
    (lines 394-473); [NoFuel] when [fuel] iterations did not exhaust the
    rest. *)
Fixpoint aware_loop (fuel : nat) (p : Paint) (rest : jsstring)
  (restAbs offset : Z) (lines : list Line) : res (list Line * Z * Paint) :=
  match fuel with
  | O => NoFuel
  | S fuel' =>
      if len rest >? 0 then
        if negb (wrap opts) then
          aware_loop fuel' p (slice_from rest (len rest))
            (restAbs + len rest) (offset + len rest)
            (push lines rest restAbs)
        else
          let lineStartAbs := restAbs in
          let s := fill_loop (length rest) (mkFill rest restAbs [] W p) in
          let '(lineText, rest', restAbs') := back_off s in
          aware_loop fuel' (f_paint s) rest' restAbs'
            (lineStartAbs + len lineText) (push lines lineText lineStartAbs)
      else Ok (lines, offset, p)
  end.

(** [lines[lines.length-1].end += 1] *)
Definition bump_last (lines : list Line) : res (list Line) :=
  L ← defined (last lines);
  Ok (removelast lines ++ [mkLine (l_text L) (l_start L) (l_end L + 1)]).

(** One paragraph (the body of the loop over [paragraphs], lines 383-526). *)
Definition paragraph (fuel : nat) (p : Paint) (rest : jsstring) (offset : Z)
  (lines : list Line) : res (list Line * Z * Paint) :=
  if len rest =? 0 then Ok (lines ++ [mkLine [] offset offset], offset, p)
  else if styleAwareLayout opts then
    aware_loop fuel p rest offset offset lines
  else if negb (wrap opts) then
    Ok (push lines rest offset, offset + len rest, p)
  else
    '(lines', offset') ← plain_loop p fuel rest offset lines;
    Ok (lines', offset', p).

(** The loop over [paragraphs]; [ps] are the paragraphs from [p] on. *)
Fixpoint paragraphs_loop (fuel : nat) (p : Paint) (ps : list jsstring)
  (offset : Z) (lines : list Line) : res (list Line * Paint) :=
  match ps with
  | [] => Ok (lines, p)
  | rest :: ps' =>
      '(lines1, offset1, p1) ← paragraph fuel p rest offset lines;
      match ps' with
      | [] => Ok (lines1, p1)
      | _ :: _ =>
          lines2 ← bump_last lines1;
          paragraphs_loop fuel p1 ps' (offset1 + 1) lines2
      end
  end.

End Ensure.

Definition innerWidth (c : TextControl) : Z :=
  g_width (geometry c) - border_left (geometry c) - border_right (geometry c)
  - paddingLeft (textLayout c) * 2.

(** The recomputation of [ensure] (lines 376-537). *)
Definition relayout (fuel : nat) (c : TextControl)
  : res (TextControl * Cache) :=
  let model := textModel c in
  let W := Z.max 0 (innerWidth c) in
  let p := paint_set_font (l_font (textLayout c)) (paint_save (paint c)) in
  '(lines, p') ← paragraphs_loop c W fuel p (split_nl (text model)) 0 [];
  let k := mkCache (_version model) W lines in
  Ok (set_cache (Some k) (set_paint (paint_restore p') c), k).

(** [ensure()]: the control afterwards and the returned cache object. *)
Definition ensure (fuel : nat) (c : TextControl) : res (TextControl * Cache) :=
  let model := textModel c in
  let W := Z.max 0 (innerWidth c) in
  match _cache (textLayout c) with
  | Some k =>
      if (c_version k =? _version model) && (c_width k =? W) then Ok (c, k)
      else relayout fuel c
  | None => relayout fuel c
  end.

(** ** TextLayout: from an offset to its line and its x position *)

(** The loop of [lineIndexOf] over [c.lines], [i] the index of the head of
    [ls] and [n] the number of lines. *)
Fixpoint line_index_loop (t : jsstring) (index : Z) (ls : list Line)
  (i n : Z) : Z :=
  match ls with
  | [] => n - 1
  | L :: ls' =>
      if index <? l_start L then i
      else if index <? l_end L then i
      else if index =? l_end L then
        let isNL := bool_decide (nthZ t (l_end L - 1) = Some newline) in
        if isNL && (i + 1 <? n) then i + 1 else i
      else line_index_loop t index ls' (i + 1) n
  end.

Definition lineIndexOf (fuel : nat) (index : Z) (c : TextControl)
  : res (TextControl * Z) :=
  '(c1, k) ← ensure fuel c;
  if len (c_lines k) =? 0 then Ok (c1, 0)
  else Ok (c1, line_index_loop (text (textModel c1)) index (c_lines k) 0
                 (len (c_lines k))).

Definition xForIndex (fuel : nat) (index : Z) (c : TextControl)
  : res (TextControl * Z) :=
  '(c1, k) ← ensure fuel c;
  let c2 :=
    set_paint (paint_set_font (l_font (textLayout c1))
                 (paint_save (paint c1))) c1 in
  let left := inside_x (geometry c2) + g_x (geometry c2)
              + border_left (geometry c2) + paddingLeft (textLayout c2) in
  '(c3, li) ← lineIndexOf fuel index c2;
  L ← defined (nthZ (c_lines k) li);
  let t := text (textModel c3) in
  let endNoNL :=
    if bool_decide (nthZ t (l_end L - 1) = Some newline)
    then l_end L - 1 else l_end L in
  let idxClamped := Z.min index endNoNL in
  let pre := slice t (l_start L) idxClamped in
  let w := measureText (paint c3) pre in
  Ok (set_paint (paint_restore (paint c3)) c3, left + w).

(** ** TextControl: typing and history *)

Definition innerHeight (c : TextControl) : Z :=
  g_height (geometry c) - border_top (geometry c)
  - border_bottom (geometry c) - paddingTop (textLayout c) * 2.

Definition ensureCaretVisible (fuel : nat) (c : TextControl)
  : res TextControl :=
  '(c1, k) ← ensure fuel c;
  let lines := c_lines k in
  if len lines =? 0 then Ok c1 else
  '(c2, li) ← lineIndexOf fuel (head (selection c1)) c1;
  let lineTop := li * lineHeight (textLayout c2) in
  let lineBottom := lineTop + lineHeight (textLayout c2) in
  let viewTop := _scrollY c2 in
  let viewBottom := _scrollY c2 + Z.max 0 (innerHeight c2) in
  let c3 :=
    if lineTop <? viewTop then set_scrollY lineTop c2
    else if lineBottom >? viewBottom
         then set_scrollY (lineBottom - Z.max 0 (innerHeight c2)) c2
         else c2 in
  let contentH := len lines * lineHeight (textLayout c3) in
  let maxY := Z.max 0 (contentH - Z.max 0 (innerHeight c3)) in
  Ok (set_scrollY (Z.max 0 (Z.min (_scrollY c3) maxY)) c3).

(** [resetCaretBlink()]; [now] is the value of [Date.now()]. *)
Definition resetCaretBlink (now : Z) (c : TextControl) : TextControl :=
  set_blink true now c.

Definition invalidate (c : TextControl) : TextControl := set_dirty true c.

Definition snapshot (c : TextControl) : Snapshot :=
  mkSnap (text (textModel c)) (anchor (selection c)) (head (selection c)).

Definition restore (state : Snapshot) (c : TextControl) : TextControl :=
  let c1 := set_textModel (setText (Some (snap_text state)) (textModel c)) c in
  invalidate (set_selection (mkSel (snap_a state) (snap_h state)) c1).

(** The stacks are arrays: [push] and [pop] work at the end, [shift]
    removes the first entry. *)
Definition pushHistory (c : TextControl) : TextControl :=
  let s := snapshot c in
  let h := _history c ++ [s] in
  let h' := if len h >? _historyLimit c then drop 1 h else h in
  set_stacks h' [] c.

Definition undo (c : TextControl) : TextControl :=
  match last (_history c) with
  | None => c
  | Some prev =>
      let current := snapshot c in
      restore prev
        (set_stacks (removelast (_history c)) (_redo c ++ [current]) c)
  end.

Definition redo (c : TextControl) : TextControl :=
  match last (_redo c) with
  | None => c
  | Some next =>
      let current := snapshot c in
      restore next
        (set_stacks (_history c ++ [current]) (removelast (_redo c)) c)
  end.

(** [typeText(s)]; [now] is the value [Date.now()] has in
    [resetCaretBlink]. *)
Definition typeText (fuel : nat) (now : Z) (s : jsstring) (c : TextControl)
  : res TextControl :=
  let c1 := pushHistory c in
  let c2 :=
    if negb (sel_empty (selection c1)) then
      let m := deleteRange (sel_start (selection c1)) (sel_end (selection c1))
                 (textModel c1) in
      set_selection (collapseTo (sel_start (selection c1)) (selection c1))
        (set_textModel m c1)
    else c1 in
  let c3 :=
    set_textModel
      (insertAt (sel_start (selection c2)) s (Some (currentStyle c2))
         (textModel c2)) c2 in
  let c4 :=
    set_selection
      (collapseTo (sel_start (selection c3) + len s) (selection c3)) c3 in
  '(c5, x) ← xForIndex fuel (head (selection c4)) c4;
  let c6 := resetCaretBlink now (set_preferredX (Some x) c5) in
  c7 ← (if keepCaretVisible (options c6) then ensureCaretVisible fuel c6
        else Ok c6);
  Ok (invalidate c7).

End Layout.

(** ** Sequences of buffer mutations, and the predicates of the specification *)

Inductive Op :=
| OpSetText (t : option jsstring)
| OpInsertAt (index : Z) (s : jsstring) (style : option Style)
| OpDeleteRange (a b : Z)
| OpApplyStyle (a b : Z) (p : Prop_) (toggle : bool) (value : jsval).

Definition exec (op : Op) (m : TextModel) : res TextModel :=
  match op with
  | OpSetText t => Ok (setText t m)
  | OpInsertAt index s style => Ok (insertAt index s style m)
  | OpDeleteRange a b => Ok (deleteRange a b m)
  | OpApplyStyle a b p toggle value => applyStyle a b p toggle value m
  end.

Fixpoint run_ops (ops : list Op) (m : TextModel) : res TextModel :=
  match ops with
  | [] => Ok m
  | op :: ops' => m' ← exec op m; run_ops ops' m'
  end.

(** The text is the cache of the runs: the invariant of the buffer. *)
Definition text_cached (m : TextModel) : Prop := text m = join_runs (runs m).

(** At least one of bold, italic, underline, color differs. *)
Definition style_differs (a b : Run) : Prop :=
  bold a <> bold b \/ italic a <> italic b
  \/ underline a <> underline b \/ color a <> color b.

(** No two adjacent runs have identical style. *)
Definition adjacent_distinct (rs : list Run) : Prop :=
  forall i a b, rs !! i = Some a -> rs !! S i = Some b -> style_differs a b.

(** The buffer was left by the common tail of the mutators:
    [_mergeAdjacent()] then [_rebuildText()]. *)
Definition rebuilt (m' : TextModel) : Prop :=
  exists x, m' = _rebuildText (_mergeAdjacent x).

(** Sample buffers. *)
Definition buffer_abc : TextModel := new_TextModel (Some (js "abc")).

(** ** Reading a line table back *)

(** The stretch of the flattened text a line stands for: its text, and the
    newline when the end offset of the line accounts for one. *)
Definition line_source (L : Line) : jsstring :=
  if l_end L =? l_start L + len (l_text L) + 1
  then l_text L ++ [newline] else l_text L.

(** Concatenation of the line texts, newlines reinserted. *)
Definition reconstruct (lines : list Line) : jsstring :=
  concat (map line_source lines).

(** [text.slice(L.start, L.end)] is what the line stands for. *)
Definition indexes (t : jsstring) (L : Line) : Prop :=
  slice t (l_start L) (l_end L) = line_source L.

(** The lines cover [t] from offset [off] on, one after the other. *)
Fixpoint covers (lines : list Line) (t : jsstring) (off : Z) : Prop :=
  match lines with
  | [] => t = []
  | L :: lines' =>
      l_start L = off /\ l_end L = off + len (line_source L)
      /\ exists t', t = line_source L ++ t' /\ covers lines' t' (l_end L)
  end.

(** No configuration of these inserts a hyphen. *)
Definition no_hyphen (o : Options) : Prop :=
  wrap o = false \/ wordWrap o = CharMode \/ hyphenate o = false.

(** ** A sample control *)

(** A measurement collaborator for a fixed-pitch font: every code unit is
    [pitch] pixels wide, whatever the font. *)
Definition fixed_pitch (pitch : Z) (font t : jsstring) : Z := pitch * len t.

Definition sample_layout : TextLayout :=
  mkLayout None 16 (js "13px sans-serif") 4 4.

(** The options set by the constructor of [TextControl]. *)
Definition default_options : Options :=
  mkOptions true WordMode false (js "-") false true.

Definition default_style : Style :=
  mkStyle (VBool false) (VBool false) (VBool false) default_color.

(** A control [inner] pixels wide inside its border and padding, holding the
    text [t], caret at 0, as the constructor and [initialize] leave it. *)
Definition sample_control (inner : Z) (o : Options) (t : jsstring)
  : TextControl :=
  mkControl (new_TextModel (Some t)) (mkSel 0 0) sample_layout [] [] 200
    default_style None true 0 0 true o
    (mkGeometry 0 (inner + 20) 120 6 6 6 6 0)
    (mkPaint (js "10px sans-serif") []).

(** A line whose end offset accounts for its text and nothing else. *)
Definition exact (L : Line) : Prop := l_end L = l_start L + len (l_text L).

(** The lines of a paragraph: they cover it and every end offset is exact. *)
Definition para_lines (new : list Line) (para : jsstring) (off : Z) : Prop :=
  covers new para off /\ Forall exact new.

(** Word wrap with hyphenation switched on. *)
Definition hyphen_options : Options :=
  mkOptions true WordMode true (js "-") false true.

(** The cache of the control answers the present version and width. *)
Definition cache_hit (c : TextControl) (k : Cache) : Prop :=
  c_version k = _version (textModel c)
  /\ c_width k = Z.max 0 (innerWidth c).

(** ** The part of the control that editing and history are about *)

Definition edit_state (c : TextControl)
  : TextModel * SelectionModel * list Snapshot * list Snapshot * Z * Style
    * Options :=
  (textModel c, selection c, _history c, _redo c, _historyLimit c,
   currentStyle c, options c).

(** The buffer [typeText(s)] leaves: the selection, if any, deleted, then
    [s] inserted where the selection started. *)
Definition typed_model (s : jsstring) (c : TextControl) : TextModel :=
  let m :=
    if sel_empty (selection c) then textModel c
    else deleteRange (sel_start (selection c)) (sel_end (selection c))
           (textModel c) in
  insertAt (sel_start (selection c)) s (Some (currentStyle c)) m.

(** The control of scenario C: 47 pixels of inner width, "ab cdefgh". *)
Definition scenario_C_control : TextControl :=
  sample_control 47 default_options (js "ab cdefgh").

(** The sample control with "abc" in the buffer, caret at 0. *)
Definition control_abc : TextControl :=
  sample_control 40 default_options (js "abc").

(** The sample control with "abc" in the buffer and "ab" selected. *)
Definition control_ab_selected : TextControl :=
  set_selection (mkSel 0 2) control_abc.

(** The cached line table, if there is one, has a line. *)
Definition cache_ok (c : TextControl) : Prop :=
  match _cache (textLayout c) with
  | Some k => c_lines k <> []
  | None => True
  end.

(** A control on the plain layout path whose buffer text is the cache of its
    runs and whose line table, if cached, has a line: the states the
    constructor and the methods modelled here produce. *)
Definition editor_ok (c : TextControl) : Prop :=
  styleAwareLayout (options c) = false
  /\ text_cached (textModel c)
  /\ cache_ok c.

(** Word wrap on the style-aware path. *)
Definition aware_options : Options :=
  mkOptions true WordMode false (js "-") true true.

(** A style-aware control with no room inside its border and padding,
    holding "a", nothing laid out yet; and the same control on the plain
    path. *)
Definition zero_width_aware_control : TextControl :=
  sample_control 0 aware_options (js "a").

Definition zero_width_plain_control : TextControl :=
  sample_control 0 default_options (js "a").

(** ** The buffer read character by character *)

(** The characters of a run, each one a run of its own with the style of
    the run it comes from. *)
Definition run_chars (r : Run) : list Run :=
  map (fun ch => with_text r [ch]) (r_text r).

(** The styled characters of a run sequence, in order. *)
Definition chars (rs : list Run) : list Run := concat (map run_chars rs).

(** What one iteration of the loop of [applyStyle] does to a run. *)
Definition restyle (p : Prop_) (toggle : bool) (value : jsval) (r : Run)
  : Run :=
  set_prop p (if toggle then VBool (negb (truthy (get_prop p r))) else value) r.

(** ** Lines against the available width *)

(** A line no wider than [W] under [font], or one the layout had to emit all
    the same: a single code unit at most, or a single code unit followed by
    the hyphen. *)
Definition line_fits (measure : jsstring -> jsstring -> Z)
  (font hy : jsstring) (W : Z) (L : Line) : Prop :=
  measure font (l_text L) <= W
  \/ len (l_text L) <= 1
  \/ exists ch, l_text L = ch :: hy.

(** The hyphen the layout appends: [hyphenChar || '-']. *)
Definition hyphen_of (o : Options) : jsstring :=
  if bool_decide (hyphenChar o = []) then js "-" else hyphenChar o.

(** ** Line tables as the layout leaves them *)

(** The lines cover the text from offset 0 on, no line text holds a
    newline, and the end offset of the last line accounts for no newline. *)
Definition well_formed_lines (lines : list Line) (t : jsstring) : Prop :=
  covers lines t 0
  /\ Forall (fun L => newline ∉ l_text L) lines
  /\ exists L, last lines = Some L /\ exact L.

(** A cached line table that answers the present version and width is well
    formed: so it is when no table is cached, when the cached one is out of
    date, and after [ensure()] in a configuration that inserts no hyphen. *)
Definition layout_wf (c : TextControl) : Prop :=
  forall k, _cache (textLayout c) = Some k -> cache_hit c k ->
            well_formed_lines (c_lines k) (text (textModel c)).

(** ** TextLayout.indexForX, caret movements, keyboard editing *)

(** [sel.head = pos] *)
Definition set_head (pos : Z) (s : SelectionModel) : SelectionModel :=
  mkSel (anchor s) pos.

Definition set_currentStyle (s : Style) (c : TextControl) : TextControl :=
  mkControl (textModel c) (selection c) (textLayout c) (_history c) (_redo c)
    (_historyLimit c) s (_preferredX c) (_showCaret c)
    (_blinkTimer c) (_scrollY c) (_dirty c) (options c) (geometry c) (paint c).

(** [style[prop]] and [style[prop] = v] on the typing style. *)
Definition style_prop (p : Prop_) (s : Style) : jsval :=
  match p with
  | PBold => s_bold s | PItalic => s_italic s
  | PUnderline => s_underline s | PColor => s_color s
  end.

Definition set_style_prop (p : Prop_) (v : jsval) (s : Style) : Style :=
  match p with
  | PBold => mkStyle v (s_italic s) (s_underline s) (s_color s)
  | PItalic => mkStyle (s_bold s) v (s_underline s) (s_color s)
  | PUnderline => mkStyle (s_bold s) (s_italic s) v (s_color s)
  | PColor => mkStyle (s_bold s) (s_italic s) (s_underline s) v
  end.

Section Navigation.

Variable measure : jsstring -> jsstring -> Z.

(** The loop of [indexForX] (lines 585-589): [i] is the counter and [n] the
    number of iterations before [i <= endNoNL - L.start] fails; when the
    loop ends without a [break], [idx] still is [L.start]. *)
Fixpoint index_for_x_loop (p : Paint) (t : jsstring)
  (start endNoNL left x : Z) (n : nat) (i : Z) : Z :=
  match n with
  | O => start
  | S n' =>
      let w := measureText measure p (slice t start (start + i)) in
      if left + w >=? x then start + i
      else if i =? endNoNL - start then endNoNL
      else index_for_x_loop p t start endNoNL left x n' (i + 1)
  end.

(** [indexForX(lineIdx, x)]: the control afterwards and the offset. *)
Definition indexForX (fuel : nat) (lineIdx x : Z) (c : TextControl)
  : res (TextControl * Z) :=
  '(c1, k) ← ensure measure fuel c;
  let c2 :=
    set_paint (paint_set_font (l_font (textLayout c1))
                 (paint_save (paint c1))) c1 in
  let left := inside_x (geometry c2) + g_x (geometry c2)
              + border_left (geometry c2) + paddingLeft (textLayout c2) in
  let li := Z.max 0 (Z.min lineIdx (len (c_lines k) - 1)) in
  L ← defined (nthZ (c_lines k) li);
  let t := text (textModel c2) in
  let endNoNL :=
    if bool_decide (nthZ t (l_end L - 1) = Some newline)
    then l_end L - 1 else l_end L in
  let idx :=
    index_for_x_loop (paint c2) t (l_start L) endNoNL left x
      (Z.to_nat (endNoNL - l_start L + 1)) 0 in
  Ok (set_paint (paint_restore (paint c2)) c2, idx).

(** [moveCaretHoriz(dir, extend)]; [now] is the value of [Date.now()]. *)
Definition moveCaretHoriz (fuel : nat) (now : Z) (dir : Z) (extend : bool)
  (c : TextControl) : res TextControl :=
  let m := textModel c in
  let sel := selection c in
  let pos := if extend then head sel else sel_end sel in
  let pos := pos + dir in
  let pos := Z.max 0 (Z.min (len (text m)) pos) in
  let c1 :=
    set_selection (if extend then set_head pos sel else collapseTo pos sel)
      c in
  '(c2, x) ← xForIndex measure fuel (head (selection c1)) c1;
  let c3 := resetCaretBlink now (set_preferredX (Some x) c2) in
  c4 ← (if keepCaretVisible (options c3)
        then ensureCaretVisible measure fuel c3 else Ok c3);
  Ok (invalidate c4).

(** [moveCaretVertical(dir, extend)] *)
Definition moveCaretVertical (fuel : nat) (now : Z) (dir : Z)
  (extend : bool) (c : TextControl) : res TextControl :=
  let head0 := head (selection c) in
  '(c1, currentLine) ← lineIndexOf measure fuel head0 c;
  '(c2, k) ← ensure measure fuel c1;
  let targetLine :=
    Z.max 0 (Z.min (currentLine + dir) (len (c_lines k) - 1)) in
  '(c3, px) ← match _preferredX c2 with
              | Some x => Ok (c2, x)
              | None =>
                  '(c', x) ← xForIndex measure fuel head0 c2;
                  Ok (set_preferredX (Some x) c', x)
              end;
  '(c4, idx) ← indexForX fuel targetLine px c3;
  let sel := selection c4 in
  let c5 :=
    set_selection (if extend then set_head idx sel else collapseTo idx sel)
      c4 in
  '(c6, x) ← xForIndex measure fuel (head (selection c5)) c5;
  let c7 := resetCaretBlink now (set_preferredX (Some x) c6) in
  c8 ← (if keepCaretVisible (options c7)
        then ensureCaretVisible measure fuel c7 else Ok c7);
  Ok (invalidate c8).

(** The loop of [moveLineBoundary] (line 1067): the index of the first line
    with [start <= head <= end], or the initial 0. *)
Fixpoint line_of_head (head_ : Z) (ls : list Line) (i : Z) : Z :=
  match ls with
  | [] => 0
  | L :: ls' =>
      if (head_ >=? l_start L) && (head_ <=? l_end L) then i
      else line_of_head head_ ls' (i + 1)
  end.

(** [moveLineBoundary(toStart, extend)] *)
Definition moveLineBoundary (fuel : nat) (now : Z) (toStart extend : bool)
  (c : TextControl) : res TextControl :=
  '(c1, layout) ← ensure measure fuel c;
  let head_ := head (selection c1) in
  let lineIdx := line_of_head head_ (c_lines layout) 0 in
  L ← defined (nthZ (c_lines layout) lineIdx);
  let endNoNL :=
    if bool_decide (nthZ (text (textModel c1)) (l_end L - 1) = Some newline)
    then l_end L - 1 else l_end L in
  let pos := if toStart then l_start L else endNoNL in
  let sel := selection c1 in
  let c2 :=
    set_selection (if extend then set_head pos sel else collapseTo pos sel)
      c1 in
  '(c3, x) ← xForIndex measure fuel (head (selection c2)) c2;
  let c4 := resetCaretBlink now (set_preferredX (Some x) c3) in
  c5 ← (if keepCaretVisible (options c4)
        then ensureCaretVisible measure fuel c4 else Ok c4);
  Ok (invalidate c5).

(** [moveDocumentBoundary(toStart, extend)] *)
Definition moveDocumentBoundary (fuel : nat) (now : Z)
  (toStart extend : bool) (c : TextControl) : res TextControl :=
  let pos := if toStart then 0 else len (text (textModel c)) in
  let sel := selection c in
  let c1 :=
    set_selection (if extend then set_head pos sel else collapseTo pos sel)
      c in
  c2 ← (if toStart then Ok (set_scrollY 0 c1)
        else
          '(c', k) ← ensure measure fuel c1;
          let contentH := len (c_lines k) * lineHeight (textLayout c') in
          let maxY := Z.max 0 (contentH - Z.max 0 (innerHeight c')) in
          Ok (set_scrollY (Z.max 0 maxY) c'));
  '(c3, x) ← xForIndex measure fuel (head (selection c2)) c2;
  let c4 := resetCaretBlink now (set_preferredX (Some x) c3) in
  c5 ← (if keepCaretVisible (options c4)
        then ensureCaretVisible measure fuel c4 else Ok c4);
  Ok (invalidate c5).

(** [toggleStyle(prop)] *)
Definition toggleStyle (fuel : nat) (p : Prop_) (c : TextControl)
  : res TextControl :=
  let sel := selection c in
  if negb (sel_empty sel) then
    let c1 := pushHistory c in
    m ← applyStyle (sel_start sel) (sel_end sel) p true (VBool true)
          (textModel c1);
    let c2 := set_textModel m c1 in
    c3 ← (if keepCaretVisible (options c2)
          then ensureCaretVisible measure fuel c2 else Ok c2);
    Ok (invalidate c3)
  else
    Ok (set_currentStyle
          (set_style_prop p
             (VBool (negb (truthy (style_prop p (currentStyle c)))))
             (currentStyle c)) c).

End Navigation.

Section CaretMoved.

Variable measure : jsstring -> jsstring -> Z.

(** The four statements every caret movement and [typeText] end with:
    [_preferredX = xForIndex(head); resetCaretBlink();
     if(keepCaretVisible) ensureCaretVisible(); invalidate()]. *)
Definition caret_moved (fuel : nat) (now : Z) (c1 : TextControl)
  : res TextControl :=
  '(c2, x) ← xForIndex measure fuel (head (selection c1)) c1;
  let c3 := resetCaretBlink now (set_preferredX (Some x) c2) in
  c4 ← (if keepCaretVisible (options c3)
        then ensureCaretVisible measure fuel c3 else Ok c3);
  Ok (invalidate c4).

End CaretMoved.

(** [TextKeyboard.onKeyDown], case ['Backspace'] (lines 872-876). *)
Definition onKeyDown_Backspace (c : TextControl) : TextControl :=
  let c1 := pushHistory c in
  let sel := selection c1 in
  let m := textModel c1 in
  let c2 :=
    if negb (sel_empty sel) then
      set_selection (collapseTo (sel_start sel) sel)
        (set_textModel (deleteRange (sel_start sel) (sel_end sel) m) c1)
    else if sel_start sel >? 0 then
      set_selection (collapseTo (sel_start sel - 1) sel)
        (set_textModel (deleteRange (sel_start sel - 1) (sel_start sel) m) c1)
    else c1 in
  invalidate c2.

(** [TextKeyboard.onKeyDown], case ['Delete'] (lines 877-881). *)
Definition onKeyDown_Delete (c : TextControl) : TextControl :=
  let c1 := pushHistory c in
  let sel := selection c1 in
  let m := textModel c1 in
  let c2 :=
    if negb (sel_empty sel) then
      set_selection (collapseTo (sel_start sel) sel)
        (set_textModel (deleteRange (sel_start sel) (sel_end sel) m) c1)
    else if sel_start sel <? len (text m) then
      set_textModel (deleteRange (sel_start sel) (sel_start sel + 1) m) c1
    else c1 in
  invalidate c2.

(** [TextKeyboard.onKeyDown], Ctrl+A (line 849): select everything. *)
Definition onKeyDown_selectAll (c : TextControl) : TextControl :=
  invalidate
    (set_selection (setRange 0 (len (text (textModel c))) (selection c)) c).

(** ** getWordRangeAt *)

(** The punctuation class of the pattern of [isSep], which also takes the
    class [\s]; 34 is the double quote. *)
Definition separators : list N := js "-_,.;:!?()[]{}'`" ++ [34%N].

(** [isSep(text[i])]: a missing character makes the string "undefined",
    which holds no separator. *)
Definition isSep (ch : option N) : bool :=
  match ch with
  | Some c => is_space c || bool_decide (c ∈ separators)
  | None => false
  end.

(** [while(start > 0 && !isSep(text[start-1])) start--]; [n] bounds the
    iterations, and [start] is enough. *)
Fixpoint word_left (t : jsstring) (n : nat) (start : Z) : Z :=
  match n with
  | O => start
  | S n' =>
      if (start >? 0) && negb (isSep (nthZ t (start - 1)))
      then word_left t n' (start - 1) else start
  end.

(** [while(end < n && !isSep(text[end])) end++]; [n] bounds the iterations,
    and the distance to the end of the text is enough. *)
Fixpoint word_right (t : jsstring) (n : nat) (end_ : Z) : Z :=
  match n with
  | O => end_
  | S n' =>
      if (end_ <? len t) && negb (isSep (nthZ t end_))
      then word_right t n' (end_ + 1) else end_
  end.

(** [getWordRangeAt(index)] returns [{ start, end }]. *)
Definition getWordRangeAt (index : Z) (c : TextControl) : Z * Z :=
  let t := text (textModel c) in
  let n := len t in
  let index := Z.max 0 (Z.min index n) in
  if n =? 0 then (0, 0) else
  let i0 :=
    if (index >? 0) && (index <? n) && isSep (nthZ t index)
       && negb (isSep (nthZ t (index - 1)))
    then index - 1 else index in
  (word_left t (Z.to_nat i0) i0, word_right t (Z.to_nat (n - i0)) i0).

(** ** The history under sequences of commands *)

Inductive HistoryOp := HPush | HUndo | HRedo.

Definition exec_history (op : HistoryOp) (c : TextControl) : TextControl :=
  match op with
  | HPush => pushHistory c
  | HUndo => undo c
  | HRedo => redo c
  end.

Definition run_history (ops : list HistoryOp) (c : TextControl)
  : TextControl :=
  fold_left (fun c op => exec_history op c) ops c.

(** Undo and redo stack together hold no more than the limit allows. *)
Definition history_bounded (c : TextControl) : Prop :=
  len (_history c) + len (_redo c) <= Z.max 0 (_historyLimit c).

(** ** A sample control with two lines *)

(** The sample control holding "ab", a newline and "cd", 47 pixels wide
    inside, before any layout. *)
Definition two_lines_control : TextControl :=
  sample_control 47 default_options (js "ab" ++ [newline] ++ js "cd").

(** Its line table under a fixed pitch of 10 pixels. *)
Definition two_lines_cache : Cache :=
  mkCache 0 47 [mkLine (js "ab") 0 3; mkLine (js "cd") 3 5].

(** The same control after [ensure()]. *)
Definition two_lines_laid_out : TextControl :=
  set_cache (Some two_lines_cache) two_lines_control.
(** * Properties of the styled buffer *)

(** ** Arithmetic of the primitives *)

Lemma len_nonneg {A} (l : list A) : 0 <= len l.
Proof. unfold len. lia. Qed.

Lemma len_app {A} (l k : list A) : len (l ++ k) = len l + len k.
Proof. unfold len. rewrite length_app. lia. Qed.

Lemma len_nil_inv {A} (l : list A) : len l = 0 -> l = [].
Proof. unfold len. destruct l; simpl; [done | lia]. Qed.

Lemma clamp_range i n : 0 <= n -> 0 <= clamp i n <= n.
Proof. unfold clamp. lia. Qed.

Lemma clamp_id i n : 0 <= i <= n -> clamp i n = i.
Proof. unfold clamp. lia. Qed.

Lemma clamp_idem i n : 0 <= n -> clamp (clamp i n) n = clamp i n.
Proof. intros. apply clamp_id, clamp_range. done. Qed.

Lemma rel_index_id i n : 0 <= i <= n -> rel_index i n = i.
Proof.
  intros H. unfold rel_index.
  destruct (Z.ltb_spec i 0); lia.
Qed.

Lemma slice_take_drop {A} (s : list A) a b :
  0 <= a <= len s -> 0 <= b <= len s ->
  slice s a b = take (Z.to_nat (b - a)) (drop (Z.to_nat a) s).
Proof. intros Ha Hb. unfold slice. by rewrite !rel_index_id. Qed.

Lemma slice_from_drop {A} (s : list A) a :
  0 <= a <= len s -> slice_from s a = drop (Z.to_nat a) s.
Proof. intros Ha. unfold slice_from. by rewrite rel_index_id. Qed.

Lemma slice_0_take {A} (s : list A) k :
  0 <= k <= len s -> slice s 0 k = take (Z.to_nat k) s.
Proof.
  intros Hk. pose proof (len_nonneg s).
  rewrite slice_take_drop by lia. by rewrite Z.sub_0_r.
Qed.

Lemma len_slice_0 {A} (s : list A) k :
  0 <= k <= len s -> len (slice s 0 k) = k.
Proof.
  intros Hk. rewrite slice_0_take by done.
  unfold len in *. rewrite length_take. lia.
Qed.

(** [s.slice(0, k) + s.slice(k)] is [s], whatever [k]. *)
Lemma slice_0_slice_from {A} (s : list A) k :
  slice s 0 k ++ slice_from s k = s.
Proof.
  unfold slice, slice_from.
  rewrite (rel_index_id 0) by (pose proof (len_nonneg s); lia).
  rewrite Z.sub_0_r. simpl. apply take_drop.
Qed.

Lemma splice_take_drop {A} (l : list A) i c items :
  0 <= i <= len l -> 0 <= c -> i + c <= len l ->
  splice l i c items
  = take (Z.to_nat i) l ++ items ++ drop (Z.to_nat (i + c)) l.
Proof.
  intros Hi Hc Hic. unfold splice. rewrite rel_index_id by done.
  by replace (Z.max 0 (Z.min c (len l - i))) with c by lia.
Qed.

Lemma nthZ_Some {A} (l : list A) i x :
  nthZ l i = Some x -> 0 <= i < len l /\ l !! Z.to_nat i = Some x.
Proof.
  unfold nthZ, len. destruct (Z.ltb_spec i 0); [done |].
  intros Hx. split; [| done]. apply lookup_lt_Some in Hx. lia.
Qed.

Lemma nthZ_lt {A} (l : list A) i :
  0 <= i < len l -> exists x, nthZ l i = Some x.
Proof.
  unfold nthZ, len. intros Hi. destruct (Z.ltb_spec i 0); [lia |].
  apply lookup_lt_is_Some. lia.
Qed.

(** ** The flattened text of a run sequence *)

Lemma join_runs_app rs1 rs2 :
  join_runs (rs1 ++ rs2) = join_runs rs1 ++ join_runs rs2.
Proof. unfold join_runs. by rewrite map_app, concat_app. Qed.

Lemma join_runs_cons r rs : join_runs (r :: rs) = r_text r ++ join_runs rs.
Proof. done. Qed.

Lemma join_runs_nil_inv rs :
  join_runs rs = [] -> Forall (fun r => r_text r = []) rs.
Proof.
  induction rs as [| r rs IH]; [constructor |].
  rewrite join_runs_cons. intros H. apply app_eq_nil in H as [H1 H2].
  constructor; auto.
Qed.

Lemma rebuildText_cached m : text_cached (_rebuildText m).
Proof. done. Qed.

Lemma new_TextModel_cached t : text_cached (new_TextModel t).
Proof.
  unfold text_cached, new_TextModel, join_runs. simpl. by rewrite app_nil_r.
Qed.

(** ** _locate *)

Lemma locate_loop_Some rs i acc index ri off :
  locate_loop rs i acc index = Some (ri, off) ->
  exists pre r post,
    rs = pre ++ r :: post /\ ri = i + len pre
    /\ off = index - (acc + len (join_runs pre))
    /\ index <= acc + len (join_runs pre) + len (r_text r)
    /\ (pre <> [] -> acc + len (join_runs pre) < index).
Proof.
  revert i acc. induction rs as [| r rs IH]; intros i acc; simpl; [done |].
  destruct (Z.leb_spec index (acc + len (r_text r))) as [Hle | Hgt].
  - intros [= <- <-]. exists [], r, rs.
    assert (len (@nil Run) = 0) by done.
    assert (len (join_runs []) = 0) by done.
    split_and!; try done; lia.
  - intros H. apply IH in H as (pre & r' & post & -> & -> & -> & Hi & Hpre).
    exists (r :: pre), r', post. rewrite join_runs_cons, len_app.
    assert (len (r :: pre) = 1 + len pre) by (unfold len; simpl; lia).
    split_and!; try done; try lia.
    intros _. destruct pre as [| x pre].
    + assert (len (join_runs []) = 0) by done. lia.
    + specialize (Hpre ltac:(done)). pose proof (len_nonneg (r_text r)). lia.
Qed.

Lemma locate_loop_None rs i acc index :
  locate_loop rs i acc index = None ->
  rs = [] \/ acc + len (join_runs rs) < index.
Proof.
  revert i acc. induction rs as [| r rs IH]; intros i acc; simpl; [auto |].
  destruct (Z.leb_spec index (acc + len (r_text r))); [done |].
  intros Hl. apply IH in Hl. rewrite join_runs_cons, len_app. right.
  destruct Hl as [-> | Hl]; [| lia].
  assert (len (join_runs []) = 0) by done. lia.
Qed.

Lemma locate_cached m idx :
  text_cached m -> 0 <= idx <= len (text m) ->
  (runs m = [] /\ idx = 0)
  \/ exists p r q,
      runs m = p ++ r :: q /\ _locate m idx = (len p, idx - len (join_runs p))
      /\ idx <= len (join_runs p) + len (r_text r)
      /\ (p = [] \/ len (join_runs p) < idx).
Proof.
  intros Hc Hidx. unfold _locate.
  destruct (locate_loop (runs m) 0 0 idx) as [[ri off] |] eqn:Hl.
  - right. apply locate_loop_Some in Hl
      as (p & r & q & Hr & -> & -> & Hle & Hp).
    exists p, r, q. split_and!; [done | f_equal; lia | lia |].
    destruct p; [by left | right]. specialize (Hp ltac:(done)). lia.
  - left. apply locate_loop_None in Hl as [Hl | Hl].
    + split; [done |]. rewrite Hc, Hl in Hidx.
      assert (len (join_runs []) = 0) by done. lia.
    + rewrite Hc in Hidx. lia.
Qed.

Lemma nthZ_middle {A} (p : list A) r q : nthZ (p ++ r :: q) (len p) = Some r.
Proof.
  unfold nthZ, len. destruct (Z.ltb_spec (Z.of_nat (length p)) 0); [lia |].
  rewrite Nat2Z.id. by rewrite list_lookup_middle.
Qed.

Lemma splice_middle {A} (p : list A) r q items :
  splice (p ++ r :: q) (len p) 1 items = p ++ items ++ q.
Proof.
  assert (Hl : len (p ++ r :: q) = len p + 1 + len q).
  { unfold len. rewrite length_app. simpl. lia. }
  pose proof (len_nonneg p). pose proof (len_nonneg q).
  rewrite splice_take_drop by lia.
  unfold len. rewrite Nat2Z.id.
  replace (Z.to_nat (Z.of_nat (length p) + 1)) with (length p + 1)%nat by lia.
  rewrite take_app_length.
  replace (p ++ r :: q) with ((p ++ [r]) ++ q) at 1 by by rewrite <- app_assoc.
  rewrite drop_app_length'; [done |]. rewrite length_app. simpl. lia.
Qed.

(** What [_splitAt] does to a buffer whose text is the cache of its runs:
    text and version stay, the runs are cut into the part before the offset
    and the part from it on, and the returned index is the length of the
    first part. A prefix of the runs that ends before the offset remains a
    prefix, and no empty run is created. *)
Lemma splitAt_spec index m m' at_ :
  text_cached m -> _splitAt index m = (m', at_) ->
  text m' = text m /\ _version m' = _version m
  /\ join_runs (runs m') = join_runs (runs m)
  /\ (Forall (fun r => r_text r <> []) (runs m) ->
      Forall (fun r => r_text r <> []) (runs m'))
  /\ exists pre post,
      runs m' = pre ++ post /\ at_ = len pre
      /\ len (join_runs pre) = clamp index (len (text m))
      /\ forall p, p `prefix_of` runs m ->
                   len (join_runs p) < clamp index (len (text m)) ->
                   p `prefix_of` pre.
Proof.
  intros Hc. unfold _splitAt.
  pose proof (clamp_range index _ (len_nonneg (text m))) as Hidx.
  set (idx := clamp index (len (text m))) in *.
  destruct (locate_cached m idx Hc Hidx)
    as [[Hnil H0] | (p & r & q & Hr & Hloc & Hle & Hp)].
  - unfold _locate. rewrite Hnil. simpl. intros [= <- <-].
    split_and!; rewrite ?Hnil; try done. exists (@nil Run), (@nil Run).
    split_and!; try done.
  - rewrite Hloc, Hr, nthZ_middle.
    assert (Hone : len (join_runs [r]) = len (r_text r)).
    { unfold join_runs. simpl. by rewrite app_nil_r. }
    assert (Hprefix : forall p0, p0 `prefix_of` p ++ r :: q ->
              len (join_runs p0) < idx -> p0 `prefix_of` p ++ [r]).
    { intros p0 Hp0 Hlt.
      destruct (prefix_weak_total p0 (p ++ [r]) (p ++ r :: q)) as [? | Hx];
        [done | by exists q; rewrite <- app_assoc | done |].
      destruct Hx as [k ->]. rewrite !join_runs_app, !len_app in Hlt.
      pose proof (len_nonneg (join_runs k)). lia. }
    destruct (Z.eqb_spec (idx - len (join_runs p)) 0) as [Hoff | Hoff].
    { intros [= <- <-]. split_and!; rewrite ?Hr; try done.
      exists p, (r :: q). split_and!; try done; [lia |].
      intros p0 Hp0 Hlt. destruct Hp as [-> | Hp]; [| lia].
      assert (len (join_runs []) = 0) by done.
      pose proof (len_nonneg (join_runs p0)). lia. }
    destruct (Z.eqb_spec (idx - len (join_runs p)) (len (r_text r)))
      as [Hfull | Hpart].
    { intros [= <- <-]. split_and!; rewrite ?Hr; try done.
      exists (p ++ [r]), q. rewrite <- app_assoc. split_and!; try done.
      - rewrite len_app. done.
      - rewrite join_runs_app, len_app.
        assert (len (join_runs [r]) = len (r_text r)).
        { unfold join_runs. simpl. by rewrite app_nil_r. }
        lia. }
    intros [= <- <-]. simpl. rewrite splice_middle. simpl.
    set (off := idx - len (join_runs p)) in *.
    assert (Hoff_range : 0 < off < len (r_text r)).
    { destruct Hp as [-> | Hp]; [| lia].
      assert (len (join_runs []) = 0) by done. lia. }
    assert (Hleft : len (slice (r_text r) 0 off) = off).
    { apply len_slice_0. lia. }
    split_and!; try done.
    + rewrite !join_runs_app, !join_runs_cons. simpl.
      f_equal. by rewrite app_assoc, slice_0_slice_from.
    + rewrite !Forall_app, !Forall_cons. intros (Hfp & _ & Hfq).
      split_and!; try done; simpl.
      * intros E. rewrite E in Hleft.
        change (len (@nil N)) with 0 in Hleft. lia.
      * rewrite slice_from_drop by lia. intros E.
        apply (f_equal length) in E. rewrite length_drop in E.
        unfold len in *. simpl in E. lia.
    + exists (p ++ [with_text r (slice (r_text r) 0 off)]),
        (with_text r (slice_from (r_text r) off) :: q).
      rewrite <- app_assoc. split_and!; try done.
      * by rewrite len_app.
      * rewrite join_runs_app, len_app. unfold join_runs at 2. simpl.
        rewrite app_nil_r. lia.
      * intros p0 Hp0 Hlt.
        destruct (prefix_weak_total p0 p (p ++ r :: q)) as [Hx | Hx];
          [done | by exists (r :: q) | by apply prefix_app_r |].
        destruct (prefix_weak_total p0 (p ++ [r]) (p ++ r :: q)) as [Hy | Hy];
          [done | by exists q; rewrite <- app_assoc | |].
        -- destruct Hx as [k1 ->]. destruct Hy as [k2 Hy].
           rewrite <- app_assoc in Hy. apply app_inv_head in Hy.
           destruct k1 as [| x k1].
           ++ rewrite app_nil_r. by apply prefix_app_r.
           ++ injection Hy as <- Hk. symmetry in Hk.
              apply app_eq_nil in Hk as [-> _].
              rewrite join_runs_app, len_app in Hlt.
              assert (len (join_runs [r]) = len (r_text r)).
              { unfold join_runs. simpl. by rewrite app_nil_r. }
              lia.
        -- destruct Hy as [k ->]. rewrite !join_runs_app, !len_app in Hlt.
           assert (len (join_runs [r]) = len (r_text r)).
           { unfold join_runs. simpl. by rewrite app_nil_r. }
           pose proof (len_nonneg (join_runs k)). lia.
Qed.

(** ** _mergeAdjacent *)

Lemma same_style_false a b : same_style a b = false <-> style_differs a b.
Proof.
  unfold same_style, style_differs, strict_eq.
  rewrite !andb_false_iff, !bool_decide_eq_false. tauto.
Qed.

Lemma adjacent_distinct_snoc out r :
  adjacent_distinct (out ++ [r]) <->
  adjacent_distinct out /\ (forall l, last out = Some l -> style_differs l r).
Proof.
  unfold adjacent_distinct. split.
  - intros H. split.
    + intros i a b Ha Hb. apply (H i); by apply lookup_app_l_Some.
    + intros l Hl. rewrite last_lookup in Hl.
      assert (length out <> 0)%nat.
      { intros E. rewrite E in Hl. by destruct out. }
      apply (H (pred (length out))).
      * by apply lookup_app_l_Some.
      * replace (S (pred (length out))) with (length out) by lia.
        by apply list_lookup_middle.
  - intros [Hout Hlast] i a b Ha Hb.
    assert (Hi : (S i < length out + 1)%nat).
    { apply lookup_lt_Some in Hb. rewrite length_app in Hb. simpl in Hb. lia. }
    destruct (decide (S i < length out)%nat) as [Hlt | Hge].
    + rewrite lookup_app_l in Ha, Hb by lia. by apply (Hout i).
    + assert (S i = length out) as Hi' by lia.
      rewrite lookup_app_l in Ha by lia.
      rewrite Hi', list_lookup_middle in Hb by done. injection Hb as <-.
      apply Hlast. rewrite last_lookup, <- Hi'. done.
Qed.

Lemma adjacent_distinct_nil : adjacent_distinct [].
Proof. intros i a b H. done. Qed.

Lemma adjacent_distinct_singleton r : adjacent_distinct [r].
Proof. intros i a b _ H. by destruct i. Qed.

Lemma merge_step_distinct out r :
  adjacent_distinct out -> adjacent_distinct (merge_step out r).
Proof.
  intros Hout. unfold merge_step.
  destruct (last out) as [l |] eqn:Hl.
  - destruct (same_style l r) eqn:Hs.
    + apply last_Some in Hl as [out' ->]. rewrite removelast_last.
      apply adjacent_distinct_snoc in Hout as [Hout' Hlast].
      apply adjacent_distinct_snoc. split; [done |].
      intros x Hx. apply Hlast in Hx. exact Hx.
    + apply adjacent_distinct_snoc. split; [done |].
      intros x Hx. rewrite Hl in Hx. injection Hx as <-.
      by apply same_style_false.
  - apply last_None in Hl as ->. apply adjacent_distinct_singleton.
Qed.

Lemma merge_step_join out r :
  join_runs (merge_step out r) = join_runs out ++ r_text r.
Proof.
  assert (Hone : forall x, join_runs [x] = r_text x).
  { intros x. unfold join_runs. simpl. by rewrite app_nil_r. }
  unfold merge_step. destruct (last out) as [l |] eqn:Hl.
  - destruct (same_style l r).
    + apply last_Some in Hl as [out' ->]. rewrite removelast_last.
      rewrite !join_runs_app, !Hone. simpl. by rewrite app_assoc.
    + by rewrite join_runs_app, Hone.
  - by rewrite join_runs_app, Hone.
Qed.

Lemma merge_step_nonempty out r :
  Forall (fun x => r_text x <> []) out -> r_text r <> [] ->
  Forall (fun x => r_text x <> []) (merge_step out r).
Proof.
  intros Hout Hr. unfold merge_step. destruct (last out) as [l |] eqn:Hl.
  - destruct (same_style l r).
    + apply last_Some in Hl as [out' ->]. rewrite removelast_last.
      apply Forall_app in Hout as [Hout' _].
      apply Forall_app. split; [done |]. constructor; [| done]. simpl.
      intros E. apply app_eq_nil in E as [_ E]. done.
    + apply Forall_app. split; [done |]. by constructor.
  - apply Forall_app. split; [done |]. by constructor.
Qed.

Lemma fold_merge_distinct rs out :
  adjacent_distinct out -> adjacent_distinct (fold_left merge_step rs out).
Proof.
  revert out. induction rs as [| r rs IH]; intros out Hout; simpl; [done |].
  by apply IH, merge_step_distinct.
Qed.

Lemma fold_merge_join rs out :
  join_runs (fold_left merge_step rs out) = join_runs out ++ join_runs rs.
Proof.
  revert out. induction rs as [| r rs IH]; intros out; simpl.
  - unfold join_runs at 3. simpl. by rewrite app_nil_r.
  - by rewrite IH, merge_step_join, join_runs_cons, app_assoc.
Qed.

Lemma fold_merge_nonempty rs out :
  Forall (fun x => r_text x <> []) out -> Forall (fun x => r_text x <> []) rs ->
  Forall (fun x => r_text x <> []) (fold_left merge_step rs out).
Proof.
  revert out. induction rs as [| r rs IH]; intros out Hout Hrs; simpl; [done |].
  apply Forall_cons in Hrs as [Hr Hrs].
  apply IH; [by apply merge_step_nonempty | done].
Qed.

Lemma merge_runs_distinct rs : adjacent_distinct (merge_runs rs).
Proof. apply fold_merge_distinct, adjacent_distinct_nil. Qed.

Lemma merge_runs_join rs : join_runs (merge_runs rs) = join_runs rs.
Proof. unfold merge_runs. by rewrite fold_merge_join. Qed.

Lemma merge_runs_nonempty rs :
  Forall (fun x => r_text x <> []) rs ->
  Forall (fun x => r_text x <> []) (merge_runs rs).
Proof. intros. by apply fold_merge_nonempty. Qed.

(** ** insertAt, deleteRange, applyStyle *)

Lemma splice_segment {A} (p mid q items : list A) :
  splice (p ++ mid ++ q) (len p) (len mid) items = p ++ items ++ q.
Proof.
  assert (Hl : len (p ++ mid ++ q) = len p + len mid + len q).
  { rewrite !len_app. lia. }
  pose proof (len_nonneg p). pose proof (len_nonneg mid).
  pose proof (len_nonneg q).
  rewrite splice_take_drop by lia.
  rewrite take_app_length' by (unfold len; lia).
  rewrite (app_assoc p mid q), drop_app_length'; [done |].
  unfold len. rewrite length_app. lia.
Qed.

Lemma app_take_drop {A} (l a b : list A) n :
  l = a ++ b -> len a = n -> a = take (Z.to_nat n) l /\ b = drop (Z.to_nat n) l.
Proof.
  intros -> <-. unfold len. rewrite Nat2Z.id.
  by rewrite take_app_length, drop_app_length.
Qed.

Lemma splitAt_cached index m m' at_ :
  text_cached m -> _splitAt index m = (m', at_) -> text_cached m'.
Proof.
  intros Hc Hs. destruct (splitAt_spec _ _ _ _ Hc Hs) as (Ht & _ & Hj & _).
  unfold text_cached. by rewrite Ht, Hj.
Qed.

(** [insertAt] puts [s] at the clamped offset. *)
Lemma insertAt_text index s style m :
  text_cached m ->
  let i := Z.to_nat (clamp index (len (text m))) in
  text (insertAt index s style m) = take i (text m) ++ s ++ drop i (text m).
Proof.
  intros Hc i. unfold insertAt. case_bool_decide as Hs.
  - subst s. simpl. by rewrite take_drop.
  - destruct (_splitAt (clamp index (len (text m))) m) as [m1 at_] eqn:Hsp.
    destruct (splitAt_spec _ _ _ _ Hc Hsp)
      as (Ht & Hv & Hj & _ & pre & post & Hr & -> & Hlen & _).
    rewrite clamp_idem in Hlen by apply len_nonneg.
    simpl. rewrite merge_runs_join, Hr.
    pose proof (splice_segment pre [] post [styled_run s style]) as Hsplice.
    simpl in Hsplice. change (len (@nil Run)) with 0 in Hsplice.
    rewrite Hsplice, join_runs_app, join_runs_cons.
    change (r_text (styled_run s style)) with s.
    assert (Htext : text m = join_runs pre ++ join_runs post).
    { by rewrite Hc, <- Hj, Hr, join_runs_app. }
    destruct (app_take_drop _ _ _ _ Htext Hlen) as [-> ->]. done.
Qed.

(** The run sequence and text [deleteRange] leaves. *)
Lemma deleteRange_spec a b m :
  text_cached m ->
  let lo := Z.to_nat (clamp (Z.min a b) (len (text m))) in
  let hi := Z.to_nat (clamp (Z.max a b) (len (text m))) in
  text (deleteRange a b m) = take lo (text m) ++ drop hi (text m)
  /\ (Forall (fun r => r_text r <> []) (runs m) ->
      Forall (fun r => r_text r <> []) (runs (deleteRange a b m))).
Proof.
  intros Hc lo hi. unfold deleteRange.
  pose proof (len_nonneg (text m)) as Hn.
  destruct (Z.eqb_spec a b) as [-> | Hab].
  { subst lo hi. rewrite Z.min_id, Z.max_id, take_drop. done. }
  assert (Hswap :
    (if a >? b then (b, a) else (a, b)) = (Z.min a b, Z.max a b)).
  { destruct (Z.gtb_spec a b); f_equal; lia. }
  rewrite Hswap. clear Hswap.
  set (s := clamp (Z.min a b) (len (text m))) in *.
  set (e := clamp (Z.max a b) (len (text m))) in *.
  assert (Hs : 0 <= s <= len (text m)) by by apply clamp_range.
  assert (He : 0 <= e <= len (text m)) by by apply clamp_range.
  destruct (Z.leb_spec e s) as [Hes | Hse].
  { assert (s <= e).
    { unfold s, e, clamp. apply Z.max_le_compat_l, Z.min_le_compat_r. lia. }
    assert (e = s) as -> by lia.
    subst lo hi. by rewrite take_drop. }
  destruct (_splitAt s m) as [m1 ia] eqn:Hsp1.
  destruct (_splitAt e m1) as [m2 ib] eqn:Hsp2.
  destruct (splitAt_spec _ _ _ _ Hc Hsp1)
    as (Ht1 & Hv1 & Hj1 & Hne1 & pre1 & post1 & Hr1 & -> & Hlen1 & _).
  pose proof (splitAt_cached _ _ _ _ Hc Hsp1) as Hc1.
  destruct (splitAt_spec _ _ _ _ Hc1 Hsp2)
    as (Ht2 & Hv2 & Hj2 & Hne2 & pre2 & post2 & Hr2 & -> & Hlen2 & Hpre).
  rewrite Ht1 in Hlen2. rewrite clamp_id in Hlen1, Hlen2 by lia.
  destruct (Hpre pre1) as [mid ->].
  { rewrite Hr1. by apply prefix_app_r. }
  { rewrite Ht1, (clamp_id e) by lia. lia. }
  assert (Hsplice :
    splice (runs m2) (len pre1) (len (pre1 ++ mid) - len pre1) []
    = pre1 ++ post2).
  { rewrite Hr2, <- app_assoc, len_app.
    replace (len pre1 + len mid - len pre1) with (len mid) by lia.
    apply splice_segment. }
  simpl. rewrite Hsplice. subst lo hi. split.
  - rewrite merge_runs_join, join_runs_app.
    assert (Htext : text m = join_runs (pre1 ++ mid) ++ join_runs post2).
    { by rewrite Hc, <- Hj1, <- Hj2, Hr2, join_runs_app. }
    destruct (app_take_drop _ _ _ _ Htext Hlen2) as [_ <-].
    assert (Htext1 : text m = join_runs pre1 ++ join_runs post1).
    { by rewrite Hc, <- Hj1, Hr1, join_runs_app. }
    destruct (app_take_drop _ _ _ _ Htext1 Hlen1) as [<- _]. done.
  - intros Hne. apply merge_runs_nonempty.
    specialize (Hne2 (Hne1 Hne)). rewrite Hr2 in Hne2.
    rewrite !Forall_app in Hne2. rewrite Forall_app. tauto.
Qed.

Lemma deleteRange_cached a b m :
  text_cached m -> text_cached (deleteRange a b m).
Proof.
  intros Hc. unfold deleteRange.
  destruct (a =? b); [done |].
  destruct (if a >? b then (b, a) else (a, b)) as [s e].
  destruct (_ <=? _); [done |].
  destruct (_splitAt _ m) as [m1 ia]. destruct (_splitAt _ m1) as [m2 ib].
  apply rebuildText_cached.
Qed.

Lemma insertAt_cached i s style m :
  text_cached m -> text_cached (insertAt i s style m).
Proof.
  intros Hc. unfold insertAt. case_bool_decide; [done |].
  destruct (_splitAt _ m) as [m1 at_]. apply rebuildText_cached.
Qed.

Lemma set_prop_text p v r : r_text (set_prop p v r) = r_text r.
Proof. by destruct p. Qed.

(** The loop of [applyStyle] stays inside the array and keeps every text. *)
Lemma apply_loop_ok n i p toggle value rs :
  0 <= i -> (n <> O -> i + Z.of_nat n <= len rs) ->
  exists rs', apply_loop n i p toggle value rs = Ok rs'
              /\ map r_text rs' = map r_text rs.
Proof.
  revert i rs. induction n as [| n IH]; intros i rs Hi Hn; simpl.
  - by exists rs.
  - specialize (Hn ltac:(done)).
    destruct (nthZ_lt rs i) as [r Hr]; [lia |]. rewrite Hr. simpl.
    apply nthZ_Some in Hr as [_ Hr].
    set (v := if toggle then _ else _).
    destruct (IH (i + 1) (<[Z.to_nat i := set_prop p v r]> rs))
      as (rs' & -> & Hm).
    + lia.
    + unfold len in *. rewrite length_insert. lia.
    + exists rs'. split; [done |]. rewrite Hm, list_fmap_insert, set_prop_text.
      apply list_insert_id. by rewrite list_lookup_fmap, Hr.
Qed.

(** [applyStyle] raises no error, keeps the flattened text, and either
    returns before touching the buffer or ends by merging and rebuilding. *)
Lemma applyStyle_spec a b p toggle value m :
  text_cached m ->
  exists m', applyStyle a b p toggle value m = Ok m'
             /\ text m' = text m
             /\ (m' = m \/ exists rs, m' = _rebuildText (_mergeAdjacent rs)).
Proof.
  intros Hc. unfold applyStyle. cbv zeta.
  destruct (a =? b); [exists m; auto |].
  destruct (if a >? b then (b, a) else (a, b)) as [s e].
  destruct (_splitAt _ m) as [m1 ia] eqn:Hsp1.
  destruct (_splitAt _ m1) as [m2 ib] eqn:Hsp2.
  destruct (splitAt_spec _ _ _ _ Hc Hsp1)
    as (Ht1 & Hv1 & Hj1 & _ & pre1 & post1 & Hr1 & -> & _).
  pose proof (splitAt_cached _ _ _ _ Hc Hsp1) as Hc1.
  destruct (splitAt_spec _ _ _ _ Hc1 Hsp2)
    as (Ht2 & Hv2 & Hj2 & _ & pre2 & post2 & Hr2 & -> & _).
  destruct (apply_loop_ok (Z.to_nat (len pre2 - len pre1)) (len pre1)
              p toggle (default_true value) (runs m2)) as (rs & -> & Hm).
  { apply len_nonneg. }
  { rewrite Hr2, len_app.
    pose proof (len_nonneg pre1). pose proof (len_nonneg post2). lia. }
  simpl. eexists. split; [done |]. split; [| right; eauto].
  simpl. rewrite merge_runs_join. unfold join_runs. rewrite Hm.
  fold (join_runs (runs m2)). by rewrite Hj2, Hj1.
Qed.

(** ** Every mutator either leaves the buffer as it is or ends by merging
    the runs and rebuilding the text *)

Lemma rebuilt_cached m' : rebuilt m' -> text_cached m'.
Proof. intros [x ->]. apply rebuildText_cached. Qed.

Lemma rebuilt_distinct m' : rebuilt m' -> adjacent_distinct (runs m').
Proof. intros [x ->]. apply merge_runs_distinct. Qed.

Lemma insertAt_cases index s style m :
  insertAt index s style m = m \/ rebuilt (insertAt index s style m).
Proof.
  unfold insertAt, rebuilt. case_bool_decide; [by left | right].
  destruct (_splitAt _ m) as [m1 at_]. eauto.
Qed.

Lemma deleteRange_cases a b m :
  deleteRange a b m = m \/ rebuilt (deleteRange a b m).
Proof.
  unfold deleteRange, rebuilt. destruct (a =? b); [by left |].
  destruct (if a >? b then (b, a) else (a, b)) as [s e].
  destruct (_ <=? _); [by left | right].
  destruct (_splitAt _ m) as [m1 ia]. destruct (_splitAt _ m1) as [m2 ib].
  eauto.
Qed.

Lemma setText_distinct t m : adjacent_distinct (runs (setText t m)).
Proof. apply adjacent_distinct_singleton. Qed.

Lemma exec_ok op m :
  text_cached m ->
  exists m', exec op m = Ok m'
             /\ text_cached m'
             /\ (m' <> m -> adjacent_distinct (runs m'))
             /\ (adjacent_distinct (runs m) -> adjacent_distinct (runs m')).
Proof.
  intros Hc.
  destruct op as [t | index s style | a b | a b p toggle value]; simpl.
  - eexists. split; [done |]. split_and!.
    + apply rebuildText_cached.
    + intros _. apply setText_distinct.
    + intros _. apply setText_distinct.
  - eexists. split; [done |].
    destruct (insertAt_cases index s style m) as [-> | Hr].
    + by split_and!.
    + split_and!; auto using rebuilt_cached, rebuilt_distinct.
  - eexists. split; [done |].
    destruct (deleteRange_cases a b m) as [-> | Hr].
    + by split_and!.
    + split_and!; auto using rebuilt_cached, rebuilt_distinct.
  - destruct (applyStyle_spec a b p toggle value m Hc)
      as (m' & -> & _ & [-> | Hr]).
    + exists m. by split_and!.
    + exists m'. split_and!; auto using rebuilt_cached, rebuilt_distinct.
Qed.

Lemma run_ops_ok ops m :
  text_cached m -> adjacent_distinct (runs m) ->
  exists m', run_ops ops m = Ok m' /\ text_cached m'
             /\ adjacent_distinct (runs m').
Proof.
  revert m. induction ops as [| op ops IH]; intros m Hc Hd; simpl.
  - by exists m.
  - destruct (exec_ok op m Hc) as (m1 & -> & Hc1 & _ & Hd1). simpl.
    apply IH; auto.
Qed.

Lemma new_TextModel_distinct t : adjacent_distinct (runs (new_TextModel t)).
Proof. apply adjacent_distinct_singleton. Qed.

Lemma run_ops_cached ops m :
  text_cached m -> exists m', run_ops ops m = Ok m' /\ text_cached m'.
Proof.
  revert m. induction ops as [| op ops IH]; intros m Hc; simpl.
  - by exists m.
  - destruct (exec_ok op m Hc) as (m1 & -> & Hc1 & _). simpl. by apply IH.
Qed.

(** C1. For every sequence of [setText], [insertAt], [deleteRange] and
    [applyStyle] calls on a buffer whose text is the concatenation of the
    texts of its runs (as the constructor leaves it), the sequence runs
    without error and afterwards the concatenation of the texts of the runs,
    in order, is again the flattened text of the buffer. Every prefix of a
    sequence is a sequence, so this holds after each operation. *)
Theorem runs_concat_is_text (m : TextModel) (ops : list Op) :
  text m = concat (map r_text (runs m)) ->
  exists m', run_ops ops m = Ok m'
             /\ text m' = concat (map r_text (runs m')).
Proof. apply run_ops_cached. Qed.

Lemma runs_concat_is_text_witness :
  exists m',
    run_ops [OpInsertAt 1 (js "xy") None; OpApplyStyle 0 2 PBold true VUndef;
             OpDeleteRange 4 1; OpSetText None]
      (new_TextModel (Some (js "abc"))) = Ok m'
    /\ text m' = concat (map r_text (runs m')).
Proof.
  apply (runs_concat_is_text (new_TextModel (Some (js "abc")))). reflexivity.
Defined.

(** C2. A call of [setText], [insertAt], [deleteRange] or [applyStyle] on a
    buffer whose text is the cache of its runs returns without error, and if
    it changed the buffer at all, then afterwards no two adjacent runs have
    identical style: for every pair of consecutive runs at least one of bold,
    italic, underline, color differs. A call that changes nothing keeps the
    property if it held before. *)
Theorem mutation_merges_adjacent_runs (m : TextModel) (op : Op) :
  text_cached m ->
  exists m', exec op m = Ok m'
             /\ (m' <> m -> adjacent_distinct (runs m'))
             /\ (adjacent_distinct (runs m) -> adjacent_distinct (runs m')).
Proof.
  intros Hc. destruct (exec_ok op m Hc) as (m' & He & _ & H1 & H2).
  by exists m'.
Qed.

Lemma mutation_merges_adjacent_runs_witness :
  exists m',
    exec (OpInsertAt 1 (js "x") None)
      (fst (getRunsInRange 1 2 (new_TextModel (Some (js "abc"))))) = Ok m'
    /\ (m' <> fst (getRunsInRange 1 2 (new_TextModel (Some (js "abc")))) ->
        adjacent_distinct (runs m'))
    /\ (adjacent_distinct
          (runs (fst (getRunsInRange 1 2 (new_TextModel (Some (js "abc")))))) ->
        adjacent_distinct (runs m')).
Proof.
  apply (mutation_merges_adjacent_runs
           (fst (getRunsInRange 1 2 (new_TextModel (Some (js "abc")))))
           (OpInsertAt 1 (js "x") None)).
  reflexivity.
Defined.

(** After any sequence of mutations of a fresh buffer, no two adjacent runs
    have identical style. *)
Lemma run_ops_adjacent_distinct (t : option jsstring) (ops : list Op) :
  exists m, run_ops ops (new_TextModel t) = Ok m /\ adjacent_distinct (runs m).
Proof.
  destruct (run_ops_ok ops (new_TextModel t)) as (m & Hm & _ & Hd).
  - apply new_TextModel_cached.
  - apply new_TextModel_distinct.
  - by exists m.
Qed.

(** ** getRunsInRange *)

(** What [getRunsInRange] does keep: the text, the version, and the
    concatenation of the runs. *)
Lemma getRunsInRange_frame a b m :
  text_cached m ->
  let m' := fst (getRunsInRange a b m) in
  text m' = text m /\ _version m' = _version m
  /\ join_runs (runs m') = join_runs (runs m).
Proof.
  intros Hc. unfold getRunsInRange.
  destruct (_splitAt _ m) as [m1 ia] eqn:Hsp1.
  destruct (_splitAt _ m1) as [m2 ib] eqn:Hsp2. simpl.
  destruct (splitAt_spec _ _ _ _ Hc Hsp1) as (Ht1 & Hv1 & Hj1 & _).
  pose proof (splitAt_cached _ _ _ _ Hc Hsp1) as Hc1.
  destruct (splitAt_spec _ _ _ _ Hc1 Hsp2) as (Ht2 & Hv2 & Hj2 & _).
  split_and!; congruence.
Qed.

(** C3. On the buffer made from "abc", whose single run is "abc",
    [getRunsInRange(1, 2)] returns a copy of the run "b" and leaves the text
    and the version as they were, but the buffer now holds three runs, "a",
    "b" and "c", of one and the same style: the run sequence is not left
    unchanged. *)
Theorem getRunsInRange_splits_buffer_runs :
  let m := buffer_abc in
  let m' := fst (getRunsInRange 1 2 m) in
  runs m = [plain_run (js "abc")]
  /\ snd (getRunsInRange 1 2 m) = [plain_run (js "b")]
  /\ runs m' = [plain_run (js "a"); plain_run (js "b"); plain_run (js "c")]
  /\ runs m' <> runs m
  /\ text m' = text m /\ _version m' = _version m.
Proof. by split_and!. Qed.

(** ** The scenarios of the specification on the buffer *)

(** Scenario A: text "Hello\nWorld", [insertAt(5, " there")]. *)
Example scenario_A_insert :
  text (insertAt 5 (js " there") None
          (new_TextModel (Some (js "Hello" ++ [newline] ++ js "World"))))
  = js "Hello there" ++ [newline] ++ js "World".
Proof. reflexivity. Qed.

(** Scenario B: text "abcdef", [applyStyle(1, 4, 'bold', false, true)], then
    [getRunsInRange(0, 6)] yields "a" plain, "bcd" bold, "ef" plain. *)
Example scenario_B_style :
  (m ← applyStyle 1 4 PBold false (VBool true)
         (new_TextModel (Some (js "abcdef")));
   Ok (snd (getRunsInRange 0 6 m)))
  = Ok [plain_run (js "a");
        set_prop PBold (VBool true) (plain_run (js "bcd"));
        plain_run (js "ef")].
Proof. reflexivity. Qed.

(** ** Inserting at the ends, deleting everything *)

(** C8, as the code has it. For a buffer whose text is the cache of its runs,
    of length [n]: [insertAt(0, s, style)] yields [s] followed by the old
    text, [insertAt(n, s, style)] the old text followed by [s], and
    [deleteRange(0, n)] leaves the flattened text empty and no run with a
    non-empty text; if [n > 0] and the buffer held no empty run, it leaves no
    run at all. *)
Theorem insert_at_ends_delete_all (m : TextModel) (s : jsstring)
  (style : option Style) :
  text_cached m ->
  let n := len (text m) in
  text (insertAt 0 s style m) = s ++ text m
  /\ text (insertAt n s style m) = text m ++ s
  /\ text (deleteRange 0 n m) = []
  /\ Forall (fun r => r_text r = []) (runs (deleteRange 0 n m))
  /\ (0 < n -> Forall (fun r => r_text r <> []) (runs m) ->
      runs (deleteRange 0 n m) = []).
Proof.
  intros Hc n. pose proof (len_nonneg (text m)) as Hn.
  assert (Hdel : text (deleteRange 0 n m) = []).
  { destruct (deleteRange_spec 0 n m Hc) as [Ht _]. rewrite Ht.
    rewrite Z.min_l, Z.max_r by done.
    rewrite (clamp_id 0), (clamp_id n) by (subst n; lia).
    subst n. unfold len. rewrite Nat2Z.id. simpl. by rewrite drop_all. }
  assert (Hempty : Forall (fun r => r_text r = []) (runs (deleteRange 0 n m))).
  { apply join_runs_nil_inv. rewrite <- Hdel. symmetry.
    by apply deleteRange_cached. }
  split_and!; [| | done | done |].
  - rewrite insertAt_text by done. rewrite clamp_id by lia. done.
  - rewrite insertAt_text by done. rewrite clamp_id by (subst n; lia).
    subst n. unfold len. rewrite Nat2Z.id, take_ge, drop_all by done.
    by rewrite app_nil_r.
  - intros Hpos Hne. destruct (deleteRange_spec 0 n m Hc) as [_ Hne'].
    specialize (Hne' Hne).
    destruct (runs (deleteRange 0 n m)) as [| r rs]; [done |].
    apply Forall_cons in Hempty as [He _]. apply Forall_cons in Hne' as [Hr _].
    done.
Qed.

Lemma insert_at_ends_delete_all_witness :
  text (insertAt 0 (js "x") None buffer_abc) = js "x" ++ text buffer_abc
  /\ text (insertAt (len (text buffer_abc)) (js "x") None buffer_abc)
     = text buffer_abc ++ js "x"
  /\ text (deleteRange 0 (len (text buffer_abc)) buffer_abc) = []
  /\ Forall (fun r => r_text r = [])
       (runs (deleteRange 0 (len (text buffer_abc)) buffer_abc))
  /\ (0 < len (text buffer_abc) ->
      Forall (fun r => r_text r <> []) (runs buffer_abc) ->
      runs (deleteRange 0 (len (text buffer_abc)) buffer_abc) = []).
Proof.
  apply (insert_at_ends_delete_all buffer_abc (js "x") None). reflexivity.
Defined.

(** C8, as stated, fails: deleting the whole text of the buffer made from
    "abc" does not leave exactly one run with the empty text; it leaves no
    run. *)
Lemma delete_all_leaves_no_run :
  ~ (exists r, runs (deleteRange 0 (len (text buffer_abc)) buffer_abc) = [r]
               /\ r_text r = []).
Proof. intros (r & Hr & _). discriminate Hr. Qed.

(** ** Clamping, no-ops, and the empty style range *)

Lemma insertAt_clamped index s style m :
  insertAt index s style m
  = insertAt (clamp index (len (text m))) s style m.
Proof.
  unfold insertAt. by rewrite clamp_idem by apply len_nonneg.
Qed.

Lemma insertAt_empty index style m : insertAt index [] style m = m.
Proof. done. Qed.

Lemma clamp_min a b n : clamp (Z.min a b) n = Z.min (clamp a n) (clamp b n).
Proof.
  unfold clamp. lia.
Qed.

Lemma clamp_max a b n : clamp (Z.max a b) n = Z.max (clamp a n) (clamp b n).
Proof.
  unfold clamp. lia.
Qed.

Lemma swap_min_max x y :
  (if x >? y then (y, x) else (x, y)) = (Z.min x y, Z.max x y).
Proof. destruct (Z.gtb_spec x y); f_equal; lia. Qed.

Lemma deleteRange_clamped a b m :
  deleteRange a b m
  = deleteRange (clamp a (len (text m))) (clamp b (len (text m))) m.
Proof.
  pose proof (len_nonneg (text m)) as Hn. unfold deleteRange.
  set (n := len (text m)) in *.
  destruct (Z.eqb_spec a b) as [-> | Hab].
  { by rewrite Z.eqb_refl. }
  rewrite !swap_min_max.
  rewrite <- clamp_min, <- clamp_max, !clamp_idem by done.
  destruct (Z.eqb_spec (clamp a n) (clamp b n)) as [Heq | Hne]; [| done].
  rewrite clamp_min, clamp_max, Heq, Z.min_id, Z.max_id, Z.leb_refl. done.
Qed.

Lemma deleteRange_empty a m : deleteRange a a m = m.
Proof. unfold deleteRange. by rewrite Z.eqb_refl. Qed.

Lemma applyStyle_empty a p toggle value m :
  applyStyle a a p toggle value m = Ok m.
Proof. unfold applyStyle. cbv zeta. by rewrite Z.eqb_refl. Qed.

(** No mutator raises an error, whatever the offsets. *)
Lemma mutators_raise_no_error op m :
  text_cached m -> exists m', exec op m = Ok m'.
Proof. intros Hc. destruct (exec_ok op m Hc) as (m' & He & _). eauto. Qed.

(** C9. On the buffer made from "abc", at version 0, the call
    [applyStyle(5, 9, 'bold', true, true)] has both offsets clamped to 3, the
    length, so its range is empty; [deleteRange(5, 9)] is ignored there, but
    [applyStyle] goes on and rebuilds the buffer: the version counter
    becomes 1. *)
Theorem applyStyle_empty_clamped_range_bumps_version :
  let m := buffer_abc in
  clamp 5 (len (text m)) = 3 /\ clamp 9 (len (text m)) = 3
  /\ deleteRange 5 9 m = m
  /\ exists m', applyStyle 5 9 PBold true (VBool true) m = Ok m'
                /\ _version m = 0 /\ _version m' = 1
                /\ runs m' = runs m /\ text m' = text m.
Proof. split_and!; try done. eexists. by split_and!. Qed.

(** * Properties of the layout *)

Lemma slice_0_prefix {A} (t : list A) x : exists k, slice t 0 x = take k t.
Proof.
  unfold slice. rewrite (rel_index_id 0) by (pose proof (len_nonneg t); lia).
  simpl. eauto.
Qed.

Lemma len_slice_0_min {A} (t : list A) x :
  0 <= x -> len (slice t 0 x) = Z.min x (len t).
Proof.
  intros Hx. unfold slice.
  rewrite (rel_index_id 0) by (pose proof (len_nonneg t); lia).
  unfold rel_index. destruct (Z.ltb_spec x 0); [lia |].
  change (Z.to_nat 0) with O. rewrite drop_0.
  unfold len. rewrite length_take. lia.
Qed.

Lemma len_slice_parts {A} (t : list A) x :
  len (slice t 0 x) + len (slice_from t x) = len t.
Proof. rewrite <- len_app. by rewrite slice_0_slice_from. Qed.

Lemma slice_from_len_prefix {A} (t : list A) k :
  take k t ++ slice_from t (len (take k t)) = t.
Proof.
  rewrite slice_from_drop.
  - unfold len. rewrite Nat2Z.id, length_take.
    destruct (Nat.min_spec k (length t)) as [[Hlt ->] | [Hge ->]].
    + apply take_drop.
    + rewrite take_ge, drop_all by lia. apply app_nil_r.
  - unfold len. rewrite length_take. lia.
Qed.

Lemma slice_segment {A} (pre s post : list A) :
  slice (pre ++ s ++ post) (len pre) (len pre + len s) = s.
Proof.
  pose proof (len_nonneg pre). pose proof (len_nonneg s).
  pose proof (len_nonneg post).
  rewrite slice_take_drop by (rewrite !len_app; lia).
  rewrite drop_app_length' by (unfold len; lia).
  rewrite take_app_length' by (unfold len; lia). done.
Qed.

Lemma covers_reconstruct lines t off :
  covers lines t off -> reconstruct lines = t.
Proof.
  revert t off. induction lines as [| L lines IH]; intros t off; simpl.
  - by intros ->.
  - intros (_ & _ & t' & -> & Hc). unfold reconstruct in *. simpl.
    f_equal. eauto.
Qed.

Lemma covers_indexes lines t off whole pre :
  covers lines t off -> whole = pre ++ t -> len pre = off ->
  Forall (indexes whole) lines.
Proof.
  revert t off pre. induction lines as [| L lines IH]; intros t off pre; simpl.
  - constructor.
  - intros (Hs & He & t' & -> & Hc) -> Hpre. constructor.
    + unfold indexes. rewrite Hs, He, <- Hpre. apply slice_segment.
    + apply (IH t' (l_end L) (pre ++ line_source L)); [done | |].
      * by rewrite <- app_assoc.
      * rewrite len_app. lia.
Qed.

Lemma covers_app l1 t1 l2 t2 off :
  covers l1 t1 off -> covers l2 t2 (off + len t1) ->
  covers (l1 ++ l2) (t1 ++ t2) off.
Proof.
  revert t1 off. induction l1 as [| L l1 IH]; intros t1 off; simpl.
  - intros -> H. change (len (@nil N)) with 0 in H. by rewrite Z.add_0_r in H.
  - intros (Hs & He & t' & -> & Hc) H2. split_and!; [done | done |].
    exists (t' ++ t2). split; [by rewrite app_assoc |].
    apply IH; [done |]. rewrite len_app in H2. rewrite He.
    by rewrite <- Z.add_assoc.
Qed.

Lemma line_source_exact L : exact L -> line_source L = l_text L.
Proof.
  unfold exact, line_source. intros ->.
  destruct (Z.eqb_spec (l_start L + len (l_text L))
              (l_start L + len (l_text L) + 1)); [lia | done].
Qed.

Lemma covers_one t off :
  covers [mkLine t off (off + len t)] t off
  /\ exact (mkLine t off (off + len t)).
Proof.
  assert (He : exact (mkLine t off (off + len t))) by done.
  split; [| done]. simpl. rewrite (line_source_exact _ He). simpl.
  split_and!; try done. exists []. by rewrite app_nil_r.
Qed.

Lemma covers_cons_exact t rest' off new :
  covers new rest' (off + len t) ->
  covers (mkLine t off (off + len t) :: new) (t ++ rest') off.
Proof.
  intros H. destruct (covers_one t off) as [_ He].
  simpl. rewrite (line_source_exact _ He). simpl. split_and!; try done.
  by exists rest'.
Qed.

(** Bumping the end of the last line of a paragraph accounts for the newline
    that follows the paragraph. *)
Lemma covers_bump new para off L :
  covers (new ++ [L]) para off -> exact L ->
  covers (new ++ [mkLine (l_text L) (l_start L) (l_end L + 1)])
    (para ++ [newline]) off.
Proof.
  revert para off. induction new as [| L0 new IH]; intros para off; simpl.
  - intros (Hs & He & t' & -> & ->) Hx. rewrite app_nil_r in *.
    rewrite (line_source_exact _ Hx) in *.
    assert (Hsrc : line_source (mkLine (l_text L) (l_start L) (l_end L + 1))
                   = l_text L ++ [newline]).
    { unfold line_source. simpl. rewrite Hx, Z.eqb_refl. done. }
    rewrite Hsrc. split_and!; try done.
    + rewrite len_app. change (len [newline]) with 1. lia.
    + exists []. by rewrite app_nil_r.
  - intros (Hs & He & t' & -> & Hc) Hx. split_and!; try done.
    exists (t' ++ [newline]). split; [by rewrite app_assoc |]. by apply IH.
Qed.


Section LayoutProps.

Variable measure : jsstring -> jsstring -> Z.

Lemma bsearch_range fits fuel lo hi :
  lo <= hi -> lo <= bsearch fits fuel lo hi <= hi.
Proof.
  revert lo hi. induction fuel as [| fuel IH]; intros lo hi Hle; simpl.
  - lia.
  - destruct (Z.ltb_spec lo hi) as [Hlt | Hge]; [| lia].
    assert (lo < (lo + hi + 1) / 2 <= hi) as Hmid.
    { split.
      - apply Z.lt_le_trans with (lo + 1); [lia |].
        apply Z.div_le_lower_bound; lia.
      - apply Z.div_le_upper_bound; lia. }
    destruct (fits _).
    + specialize (IH ((lo + hi + 1) / 2) hi). lia.
    + specialize (IH lo ((lo + hi + 1) / 2 - 1)). lia.
Qed.

Lemma cutText_fst_prefix p t width :
  exists k, fst (cutText measure p t width) = take k t.
Proof.
  unfold cutText.
  destruct (len t =? 0); [by exists O |].
  destruct (negb _); [by exists O |].
  destruct (_ <=? _); [exists (length t); by rewrite take_ge |].
  simpl. apply slice_0_prefix.
Qed.

Section Steps.

Variable c : TextControl.
Variable W : Z.

Lemma plain_loop_S p fuel rest off lines :
  plain_loop measure c W p (S fuel) rest off lines
  = if len rest >? 0 then
      let first := fst (cutText measure p rest W) in
      let cut (first : jsstring) :=
        plain_loop measure c W p fuel (slice_from rest (len first))
          (off + len first) (push lines first off) in
      if len first =? 0 then cut (charAt rest 0)
      else if match wordWrap (options c) with
              | WordMode => true | CharMode => false end
              && (len first <? len rest) then
        let splitAt := last_space first in
        if splitAt >? 0 then
          let wordLine := slice first 0 (splitAt + 1) in
          let carry := slice_from first (splitAt + 1) in
          plain_loop measure c W p fuel
            (carry ++ slice_from rest (len first))
            (off + len wordLine) (push lines wordLine off)
        else if hyphenate (options c) && (len first >? 1) then
          let hy := if bool_decide (hyphenChar (options c) = [])
                    then js "-" else hyphenChar (options c) in
          let f := shrink measure c W p (length first) first in
          let hyLine := f ++ hy in
          plain_loop measure c W p fuel (slice_from rest (len f))
            (off + len hyLine) (push lines hyLine off)
        else cut first
      else cut first
    else Ok (lines, off).
Proof. done. Qed.

Lemma shrink_len p n f :
  1 <= len f -> 1 <= len (shrink measure c W p n f).
Proof.
  revert f. induction n as [| n IH]; intros f Hf; simpl; [done |].
  destruct (Z.gtb_spec (len f) 1) as [Hgt | Hle]; simpl; [| done].
  destruct (_ >? _); [| done]. apply IH.
  unfold slice. rewrite (rel_index_id 0) by lia.
  unfold rel_index. simpl. change (Z.to_nat 0) with O. rewrite drop_0.
  unfold len in *. rewrite length_take. lia.
Qed.

Lemma slice_from_shorter (rest : jsstring) k :
  rest <> [] -> 1 <= k ->
  (length (slice_from rest k) < length rest)%nat.
Proof.
  intros Hrest Hk. unfold slice_from, rel_index.
  destruct (Z.ltb_spec k 0); [lia |].
  rewrite length_drop. destruct rest; [done |].
  unfold len. simpl length. lia.
Qed.

(** One iteration of the plain loop: a line is pushed and the rest gets
    shorter. When no hyphen is inserted, the line is a non-empty prefix
    of the rest and the new rest is what follows it. *)
Lemma plain_step p rest :
  rest <> [] ->
  exists line rest',
    (length rest' < length rest)%nat
    /\ (wordWrap (options c) = CharMode \/ hyphenate (options c) = false ->
        rest = line ++ rest')
    /\ forall fuel off lines,
        plain_loop measure c W p (S fuel) rest off lines
        = plain_loop measure c W p fuel rest' (off + len line)
            (push lines line off).
Proof.
  intros Hrest.
  assert (Hlen : (len rest >? 0) = true).
  { destruct rest; [done |]. unfold len. simpl length. apply Z.gtb_lt. lia. }
  destruct (cutText_fst_prefix p rest W) as [k Hk].
  set (first := fst (cutText measure p rest W)) in *.
  assert (Hcut : first <> [] ->
    (length (slice_from rest (len first)) < length rest)%nat
    /\ rest = first ++ slice_from rest (len first)).
  { intros Hf. split.
    - apply slice_from_shorter; [done |].
      destruct first; [done |]. unfold len. simpl length. lia.
    - rewrite Hk. symmetry. apply slice_from_len_prefix. }
  destruct (Z.eqb_spec (len first) 0) as [Hz | Hnz].
  - destruct rest as [| ch rest]; [done |].
    exists [ch], rest. split_and!; try done; [simpl; lia |].
    intros fuel off lines. rewrite plain_loop_S, Hlen. fold first. simpl.
    rewrite (proj2 (Z.eqb_eq _ _) Hz).
    change (charAt (ch :: rest) 0) with [ch]. change (len [ch]) with 1.
    rewrite slice_from_drop by (unfold len; simpl length; lia). done.
  - assert (Hf : first <> []).
    { intros E. rewrite E in Hnz. done. }
    destruct (Hcut Hf) as [Hshort Hr].
    destruct (match wordWrap (options c) with
              | WordMode => true | CharMode => false end
              && (len first <? len rest)) eqn:Hword.
    + destruct (Z.gtb_spec (last_space first) 0) as [Hsp | Hsp].
      * exists (slice first 0 (last_space first + 1)),
          (slice_from first (last_space first + 1)
           ++ slice_from rest (len first)).
        assert (Hall : slice first 0 (last_space first + 1)
                 ++ slice_from first (last_space first + 1)
                 ++ slice_from rest (len first) = rest).
        { rewrite app_assoc, slice_0_slice_from. by rewrite <- Hr. }
        split_and!.
        -- apply (f_equal len) in Hall. rewrite len_app in Hall.
           rewrite len_slice_0_min in Hall by lia.
           pose proof (len_nonneg first). unfold len in *. lia.
        -- done.
        -- intros fuel off lines. rewrite plain_loop_S, Hlen. fold first.
           simpl. rewrite (proj2 (Z.eqb_neq _ _) Hnz), Hword.
           by rewrite (proj2 (Z.gtb_lt _ _) Hsp).
      * assert ((last_space first >? 0) = false) as Hsp'.
        { destruct (Z.gtb_spec (last_space first) 0); [lia | done]. }
        destruct (hyphenate (options c) && (len first >? 1)) eqn:Hhy.
        -- eexists _, _. split_and!; [| | intros fuel off lines;
             rewrite plain_loop_S, Hlen; fold first; simpl;
             rewrite (proj2 (Z.eqb_neq _ _) Hnz), Hword, Hsp', Hhy;
             reflexivity].
           ++ apply slice_from_shorter; [done |]. apply shrink_len.
              pose proof (len_nonneg first). lia.
           ++ intros [Hw | Hw].
              ** rewrite Hw in Hword. done.
              ** rewrite Hw in Hhy. done.
        -- exists first, (slice_from rest (len first)).
           split_and!; try done.
           intros fuel off lines. rewrite plain_loop_S, Hlen. fold first.
           simpl. by rewrite (proj2 (Z.eqb_neq _ _) Hnz), Hword, Hsp', Hhy.
    + exists first, (slice_from rest (len first)).
      split_and!; try done.
      intros fuel off lines. rewrite plain_loop_S, Hlen. fold first.
      simpl. by rewrite (proj2 (Z.eqb_neq _ _) Hnz), Hword.
Qed.

(** The plain loop returns once the fuel exceeds the length of the
    paragraph, whatever the options. *)
Lemma plain_loop_total p fuel rest off lines :
  (length rest < fuel)%nat ->
  exists r, plain_loop measure c W p fuel rest off lines = Ok r.
Proof.
  revert rest off lines.
  induction fuel as [| fuel IH]; intros rest off lines Hfuel; [lia |].
  destruct rest as [| ch rest]; [by eexists |].
  destruct (plain_step p (ch :: rest) ltac:(done))
    as (line & rest' & Hlt & _ & Hstep).
  rewrite Hstep. apply IH. lia.
Qed.

(** Whenever the plain loop returns, and no hyphen is inserted, its
    lines cover the paragraph. *)
Lemma plain_loop_sound p fuel rest off lines r :
  wordWrap (options c) = CharMode \/ hyphenate (options c) = false ->
  plain_loop measure c W p fuel rest off lines = Ok r ->
  exists new, r = (lines ++ new, off + len rest) /\ para_lines new rest off.
Proof.
  intros Hno. revert rest off lines.
  induction fuel as [| fuel IH]; intros rest off lines; [done |].
  destruct rest as [| ch rest].
  - intros [= <-]. exists []. rewrite app_nil_r, Z.add_0_r.
    split; [done |]. by split.
  - destruct (plain_step p (ch :: rest) ltac:(done))
      as (line & rest' & _ & Hr & Hstep).
    specialize (Hr Hno). rewrite Hstep. intros Hok.
    destruct (IH _ _ _ Hok) as (new & -> & Hcov & Hex).
    exists (mkLine line off (off + len line) :: new).
    unfold push. rewrite <- app_assoc. simpl. split.
    + f_equal. rewrite Hr, len_app. lia.
    + split.
      * rewrite Hr. by apply covers_cons_exact.
      * constructor; [done | done].
Qed.

Lemma fill_loop_S n s :
  fill_loop measure c n s
  = match n with
    | O => s
    | S n' =>
        if (len (f_rest s) >? 0) && (f_remaining s >? 0) then
          let '(ri, off) := _locate (textModel c) (f_restAbs s) in
          let run := nthZ (runs (textModel c)) ri in
          let runRemain :=
            match run with
            | Some r =>
                if bool_decide (r_text r = []) then len (f_rest s)
                else len (r_text r) - off
            | None => len (f_rest s)
            end in
          let chunkLen := Z.min runRemain (len (f_rest s)) in
          let chunk := slice (f_rest s) 0 chunkLen in
          let p := paint_set_font (run_font c run) (f_paint s) in
          let lo :=
            bsearch (fun mid =>
                       measureText measure p (slice chunk 0 mid)
                       <=? f_remaining s)
              (length chunk) 0 (len chunk) in
          let take_ :=
            if lo =? 0 then
              if (len (f_lineText s) =? 0) && (len chunk >? 0) then 1
              else lo
            else lo in
          if take_ >? 0 then
            let takenText := slice chunk 0 take_ in
            fill_loop measure c n'
              (mkFill (slice_from (f_rest s) take_) (f_restAbs s + take_)
                 (f_lineText s ++ takenText)
                 (f_remaining s - measureText measure p takenText) p)
          else
            mkFill (f_rest s) (f_restAbs s) (f_lineText s)
              (f_remaining s) p
        else s
    end.
Proof. by destruct n. Qed.

(** The fill loop moves a prefix of the rest to the end of the line. *)
Lemma fill_loop_inv n s :
  exists taken,
    f_lineText (fill_loop measure c n s) = f_lineText s ++ taken
    /\ f_rest s = taken ++ f_rest (fill_loop measure c n s)
    /\ f_restAbs (fill_loop measure c n s) = f_restAbs s + len taken.
Proof.
  assert (Hstay : forall s0 : Fill,
    exists taken, f_lineText s0 = f_lineText s0 ++ taken
                  /\ f_rest s0 = taken ++ f_rest s0
                  /\ f_restAbs s0 = f_restAbs s0 + len taken).
  { intros s0. exists []. rewrite app_nil_r.
    change (len (@nil N)) with 0. split_and!; [done | done | lia]. }
  revert s. induction n as [| n IH]; intros s; rewrite fill_loop_S.
  - apply Hstay.
  - destruct (_ && _); [| apply Hstay].
    destruct (_locate (textModel c) (f_restAbs s)) as [ri off].
    cbv zeta.
    set (chunk := slice (f_rest s) 0 _).
    set (p := paint_set_font _ _).
    set (lo := bsearch _ _ _ _).
    set (take_ := if lo =? 0 then _ else lo).
    destruct (Z.gtb_spec take_ 0) as [Hpos | Hnpos].
    + assert (Hlo : 0 <= lo <= len chunk).
      { apply bsearch_range, len_nonneg. }
      assert (Htake : take_ <= len chunk).
      { subst take_. destruct (lo =? 0); [| lia].
        destruct (len (f_lineText s) =? 0); simpl; [| lia].
        destruct (Z.gtb_spec (len chunk) 0); lia. }
      destruct (slice_0_prefix (f_rest s)
                  (Z.min
                     match nthZ (runs (textModel c)) ri with
                     | Some r =>
                         if bool_decide (r_text r = [])
                         then len (f_rest s) else len (r_text r) - off
                     | None => len (f_rest s)
                     end (len (f_rest s)))) as [k Hk].
      fold chunk in Hk.
      assert (Hchunk : len chunk <= len (f_rest s)).
      { rewrite Hk. unfold len. rewrite length_take. lia. }
      assert (Htaken : slice chunk 0 take_ = take (Z.to_nat take_) (f_rest s)).
      { rewrite slice_0_take by lia. rewrite Hk, take_take.
        f_equal. rewrite Hk in Htake. unfold len in Htake.
        rewrite length_take in Htake. lia. }
      destruct (IH (mkFill (slice_from (f_rest s) take_)
                      (f_restAbs s + take_)
                      (f_lineText s ++ slice chunk 0 take_)
                      (f_remaining s
                       - measureText measure p (slice chunk 0 take_)) p))
        as (taken & H1 & H2 & H3).
      simpl in H1, H2, H3.
      exists (slice chunk 0 take_ ++ taken). split_and!.
      * by rewrite H1, app_assoc.
      * rewrite <- app_assoc, <- H2, Htaken.
        rewrite slice_from_drop by lia. by rewrite take_drop.
      * rewrite H3, len_app. rewrite len_slice_0 by lia. lia.
    + apply (Hstay (mkFill (f_rest s) (f_restAbs s) (f_lineText s)
                      (f_remaining s) p)).
Qed.

(** The word-wrap step of the style-aware path, when no hyphen is
    inserted, moves a suffix of the line back to the rest. *)
Lemma back_off_inv s lineText rest restAbs :
  wordWrap (options c) = CharMode \/ hyphenate (options c) = false ->
  back_off measure c W s = (lineText, rest, restAbs) ->
  lineText ++ rest = f_lineText s ++ f_rest s
  /\ restAbs + len (f_lineText s) = f_restAbs s + len lineText.
Proof.
  intros Hno. unfold back_off.
  match goal with
  | |- context [if ?b then _ else _] => destruct b eqn:Hcond
  end; [| by intros [= <- <- <-]].
  match goal with
  | |- context [if ?b then _ else _] => destruct b
  end.
  - intros [= <- <- <-]. split.
    + by rewrite app_assoc, slice_0_slice_from.
    + pose proof (len_slice_parts (f_lineText s)
                    (last_space (f_lineText s) + 1)). lia.
  - assert (hyphenate (options c) = false) as ->;
      [| by intros [= <- <- <-]].
    destruct Hno as [Hw | Hw]; [| done].
    rewrite Hw in Hcond. done.
Qed.

Lemma aware_loop_S fuel p rest restAbs offset lines :
  aware_loop measure c W (S fuel) p rest restAbs offset lines
  = if len rest >? 0 then
      if negb (wrap (options c)) then
        aware_loop measure c W fuel p (slice_from rest (len rest))
          (restAbs + len rest) (offset + len rest)
          (push lines rest restAbs)
      else
        let s := fill_loop measure c (length rest)
                   (mkFill rest restAbs [] W p) in
        let '(lineText, rest', restAbs') := back_off measure c W s in
        aware_loop measure c W fuel (f_paint s) rest' restAbs'
          (restAbs + len lineText) (push lines lineText restAbs)
    else Ok (lines, offset, p).
Proof. done. Qed.

(** Whenever the style-aware loop returns, its lines cover the
    paragraph. *)
Lemma aware_loop_sound fuel p rest abs lines r :
  no_hyphen (options c) ->
  aware_loop measure c W fuel p rest abs abs lines = Ok r ->
  exists new p',
    r = (lines ++ new, abs + len rest, p') /\ para_lines new rest abs.
Proof.
  intros Hno. revert p rest abs lines.
  induction fuel as [| fuel IH]; intros p rest abs lines; [done |].
  rewrite aware_loop_S.
  destruct (Z.gtb_spec (len rest) 0) as [Hpos | Hz].
  - assert (Hgo : forall line rest' p1,
      rest = line ++ rest' ->
      aware_loop measure c W fuel p1 rest' (abs + len line)
        (abs + len line) (push lines line abs) = Ok r ->
      exists new p',
        r = (lines ++ new, abs + len rest, p') /\ para_lines new rest abs).
    { intros line rest' p1 Hr Hok.
      destruct (IH _ _ _ _ Hok) as (new & p' & -> & Hcov & Hex).
      exists (mkLine line abs (abs + len line) :: new), p'.
      unfold push. rewrite <- app_assoc. simpl. split.
      - f_equal. f_equal. rewrite Hr, len_app. lia.
      - split.
        + rewrite Hr. by apply covers_cons_exact.
        + constructor; [done | done]. }
    destruct (wrap (options c)) eqn:Hwrap; simpl.
    + pose proof (fill_loop_inv (length rest) (mkFill rest abs [] W p))
        as (taken & H1 & H2 & H3).
      set (s := fill_loop measure c (length rest) (mkFill rest abs [] W p))
        in *.
      destruct (back_off measure c W s) as [[lineText rest'] restAbs']
        eqn:Hback.
      assert (Hno' : wordWrap (options c) = CharMode
                     \/ hyphenate (options c) = false).
      { destruct Hno as [Hw | [Hw | Hw]]; [congruence | by left | by right]. }
      destruct (back_off_inv _ _ _ _ Hno' Hback) as [Hsplit Habs].
      simpl in H1, H2, H3. rewrite H1 in Hsplit, Habs.
      assert (restAbs' = abs + len lineText) as -> by lia.
      apply Hgo. by rewrite Hsplit, <- H2.
    + apply Hgo. rewrite slice_from_drop.
      * unfold len. by rewrite Nat2Z.id, drop_all, app_nil_r.
      * lia.
  - intros [= <-]. exists [], p.
    assert (rest = []) as ->.
    { apply len_nil_inv. pose proof (len_nonneg rest). lia. }
    rewrite app_nil_r, Z.add_0_r. split; [done |]. by split.
Qed.

Lemma covers_nonempty new rest off :
  covers new rest off -> rest <> [] -> new <> [].
Proof. by destruct new. Qed.

(** Whenever a paragraph is laid out, and no hyphen is inserted, it adds
    at least one line, and the added lines cover the paragraph. *)
Lemma paragraph_sound fuel p rest off lines lines' off' p' :
  no_hyphen (options c) ->
  paragraph measure c W fuel p rest off lines = Ok (lines', off', p') ->
  exists new,
    lines' = lines ++ new /\ off' = off + len rest
    /\ para_lines new rest off /\ new <> [].
Proof.
  intros Hno. unfold paragraph.
  destruct (Z.eqb_spec (len rest) 0) as [Hz | Hnz].
  { intros [= <- <- <-]. apply len_nil_inv in Hz as ->.
    exists [mkLine [] off off].
    pose proof (covers_one [] off) as [Hc He].
    change (len (@nil N)) with 0 in *. rewrite Z.add_0_r in *.
    split; [done |]. split; [done |]. split; [| done].
    split; [done | by constructor]. }
  assert (Hrest : rest <> []) by (by intros ->).
  destruct (styleAwareLayout (options c)).
  { intros Hok. destruct (aware_loop_sound _ _ _ _ _ _ Hno Hok)
      as (new & p1 & [= -> -> ->] & Hpl).
    exists new. split; [done |]. split; [done |]. split; [done |].
    eapply covers_nonempty; [apply Hpl | done]. }
  destruct (wrap (options c)) eqn:Hwrap; simpl.
  - destruct (plain_loop measure c W p fuel rest off lines)
      as [[l1 o1] | |] eqn:Hloop; try done.
    simpl. intros [= <- <- <-].
    assert (Hno' : wordWrap (options c) = CharMode
                   \/ hyphenate (options c) = false).
    { destruct Hno as [Hw | [Hw | Hw]]; [congruence | by left | by right]. }
    destruct (plain_loop_sound _ _ _ _ _ _ Hno' Hloop)
      as (new & [= -> ->] & Hpl).
    exists new. split; [done |]. split; [done |]. split; [done |].
    eapply covers_nonempty; [apply Hpl | done].
  - intros [= <- <- <-]. exists [mkLine rest off (off + len rest)].
    destruct (covers_one rest off) as [Hc He].
    split; [done |]. split; [done |]. split; [| done].
    split; [done | by constructor].
Qed.

Lemma plain_loop_nonempty p fuel rest off lines l o :
  plain_loop measure c W p fuel rest off lines = Ok (l, o) ->
  rest <> [] \/ lines <> [] -> l <> [].
Proof.
  revert rest off lines.
  induction fuel as [| fuel IH]; intros rest off lines; [done |].
  destruct rest as [| ch rest].
  - intros [= <- <-] [H | H]; done.
  - destruct (plain_step p (ch :: rest) ltac:(done))
      as (line & rest' & _ & _ & Hstep).
    rewrite Hstep. intros Hok _. apply (IH _ _ _ Hok). right.
    unfold push. by destruct lines.
Qed.

(** On the plain path a paragraph is laid out once the fuel exceeds its
    length. *)
Lemma paragraph_total fuel p rest off lines :
  styleAwareLayout (options c) = false -> (length rest < fuel)%nat ->
  exists lines' off',
    paragraph measure c W fuel p rest off lines = Ok (lines', off', p)
    /\ lines' <> [].
Proof.
  intros Hplain Hfuel. unfold paragraph. rewrite Hplain.
  destruct (Z.eqb_spec (len rest) 0) as [Hz | Hnz].
  { eexists _, _. split; [done |]. by destruct lines. }
  destruct (wrap (options c)); simpl.
  - destruct (plain_loop_total p fuel rest off lines Hfuel) as [[l1 o1] Hr].
    rewrite Hr. simpl. eexists _, _. split; [done |].
    apply (plain_loop_nonempty _ _ _ _ _ _ _ Hr). left.
    intros ->. done.
  - eexists _, _. split; [done |]. unfold push. by destruct lines.
Qed.

End Steps.

End LayoutProps.

(** ** Paragraphs and the whole text *)

Lemma split_nl_nonempty t : split_nl t <> [].
Proof.
  induction t as [| ch t IH]; simpl; [done |].
  destruct (ch =? newline)%N; [done |]. by destruct (split_nl t).
Qed.

Lemma join_with_cons {A} (sep x : list A) y ys :
  join_with sep (x :: y :: ys) = x ++ sep ++ join_with sep (y :: ys).
Proof. done. Qed.

(** Joining the paragraphs with newlines gives the text back. *)
Lemma split_nl_join t : join_with [newline] (split_nl t) = t.
Proof.
  induction t as [| ch t IH]; simpl; [done |].
  destruct (N.eqb_spec ch newline) as [-> | Hne].
  - pose proof (split_nl_nonempty t) as Hn.
    destruct (split_nl t) as [| q qs] eqn:Hs; [done |].
    rewrite join_with_cons, IH. done.
  - pose proof (split_nl_nonempty t) as Hn.
    destruct (split_nl t) as [| q qs] eqn:Hs; [done |].
    destruct qs as [| q' qs].
    + simpl in *. by rewrite IH.
    + rewrite join_with_cons in IH. rewrite join_with_cons.
      rewrite <- IH. done.
Qed.

Lemma split_nl_length t :
  Forall (fun para => (length para <= length t)%nat) (split_nl t).
Proof.
  induction t as [| ch t IH]; simpl; [by repeat constructor |].
  destruct (ch =? newline)%N.
  - constructor; [simpl; lia |].
    eapply Forall_impl; [apply IH |]. simpl. lia.
  - pose proof (split_nl_nonempty t) as Hn.
    destruct (split_nl t) as [| q qs]; [done |].
    apply Forall_cons in IH as [Hq Hqs]. constructor; [simpl; lia |].
    eapply Forall_impl; [apply Hqs |]. simpl. lia.
Qed.

Section LayoutWhole.

Variable measure : jsstring -> jsstring -> Z.
Variable c : TextControl.
Variable W : Z.

Lemma bump_last_snoc lines L :
  bump_last (lines ++ [L])
  = Ok (lines ++ [mkLine (l_text L) (l_start L) (l_end L + 1)]).
Proof.
  unfold bump_last. rewrite last_snoc. simpl. by rewrite removelast_last.
Qed.

Lemma paragraphs_loop_cons fuel p rest ps off lines :
  paragraphs_loop measure c W fuel p (rest :: ps) off lines
  = '(lines1, offset1, p1) ← paragraph measure c W fuel p rest off lines;
    match ps with
    | [] => Ok (lines1, p1)
    | _ :: _ =>
        lines2 ← bump_last lines1;
        paragraphs_loop measure c W fuel p1 ps (offset1 + 1) lines2
    end.
Proof. done. Qed.

Lemma paragraphs_loop_sound fuel p ps off lines lines' p' :
  no_hyphen (options c) -> ps <> [] ->
  paragraphs_loop measure c W fuel p ps off lines = Ok (lines', p') ->
  exists new,
    lines' = lines ++ new
    /\ covers new (join_with [newline] ps) off /\ new <> [].
Proof.
  intros Hno. revert p off lines.
  induction ps as [| rest ps IH]; intros p off lines Hps; [done |].
  rewrite paragraphs_loop_cons.
  destruct (paragraph measure c W fuel p rest off lines)
    as [[[l1 o1] p1] | |] eqn:Hpara; try done.
  destruct (paragraph_sound measure c W _ _ _ _ _ _ _ _ Hno Hpara)
    as (new1 & -> & -> & [Hcov Hex] & Hne).
  cbn [mbind res_bind]. destruct ps as [| rest2 ps].
  - intros [= <- <-]. by exists new1.
  - destruct new1 as [| x new1 _] using rev_ind; [done |].
    rewrite app_assoc, bump_last_snoc. cbn [mbind res_bind]. intros Hok.
    destruct (IH _ _ _ ltac:(done) Hok) as (new2 & -> & Hc2 & _).
    exists ((new1 ++ [mkLine (l_text x) (l_start x) (l_end x + 1)]) ++ new2).
    split; [by rewrite <- !app_assoc |]. split; [| by destruct new1].
    rewrite join_with_cons, app_assoc. apply covers_app.
    + apply covers_bump; [done |].
      apply Forall_app in Hex as [_ Hx]. by apply Forall_cons in Hx as [Hx _].
    + rewrite len_app. change (len [newline]) with 1.
      by rewrite Z.add_assoc.
Qed.

Lemma paragraphs_loop_total fuel p ps off lines :
  styleAwareLayout (options c) = false ->
  Forall (fun para => (length para < fuel)%nat) ps ->
  exists lines',
    paragraphs_loop measure c W fuel p ps off lines = Ok (lines', p)
    /\ (ps <> [] \/ lines <> [] -> lines' <> []).
Proof.
  intros Hplain. revert off lines.
  induction ps as [| rest ps IH]; intros off lines Hfuel.
  { exists lines. split; [done |]. by intros [? | ?]. }
  apply Forall_cons in Hfuel as [Hrest Hps]. rewrite paragraphs_loop_cons.
  destruct (paragraph_total measure c W fuel p rest off lines Hplain Hrest)
    as (l1 & o1 & -> & Hne).
  cbn [mbind res_bind]. destruct ps as [| rest2 ps]; [by eexists |].
  destruct l1 as [| x l1 _] using rev_ind; [done |].
  rewrite bump_last_snoc. cbn [mbind res_bind].
  destruct (IH (o1 + 1)
              (l1 ++ [mkLine (l_text x) (l_start x) (l_end x + 1)]) Hps)
    as (lines' & -> & Hne').
  exists lines'. split; [done |]. intros _. apply Hne'. by left.
Qed.

Lemma paint_restore_save_font f p :
  paint_restore (paint_set_font f (paint_save p)) = p.
Proof. by destruct p. Qed.

End LayoutWhole.

Section EnsureProps.

Variable measure : jsstring -> jsstring -> Z.

(** What a recomputation leaves: the new cache, keyed by the version and
    the width, and nothing else of the control changed but the paint. *)
Lemma relayout_inv fuel c c' k :
  relayout measure fuel c = Ok (c', k) ->
  exists p', c' = set_cache (Some k) (set_paint p' c)
             /\ c_version k = _version (textModel c)
             /\ c_width k = Z.max 0 (innerWidth c).
Proof.
  unfold relayout.
  destruct (paragraphs_loop _ _ _ _ _ _ _ _) as [[lines p'] | |]; try done.
  simpl. intros [= <- <-]. eauto.
Qed.

Lemma relayout_covers fuel c c' k :
  no_hyphen (options c) ->
  relayout measure fuel c = Ok (c', k) ->
  covers (c_lines k) (text (textModel c)) 0 /\ c_lines k <> [].
Proof.
  intros Hno. unfold relayout.
  destruct (paragraphs_loop _ _ _ _ _ _ _ _) as [[lines p'] | |] eqn:Hloop;
    try done.
  simpl. intros [= <- <-]. simpl.
  destruct (paragraphs_loop_sound measure c _ _ _ _ _ _ _ _ Hno
              (split_nl_nonempty _) Hloop) as (new & -> & Hc & Hne).
  by rewrite split_nl_join in Hc.
Qed.

(** On the plain path the recomputation returns once the fuel exceeds the
    length of the text, and restores the paint. *)
Lemma relayout_total fuel c :
  styleAwareLayout (options c) = false ->
  (length (text (textModel c)) < fuel)%nat ->
  exists k, relayout measure fuel c = Ok (set_cache (Some k) c, k)
            /\ c_lines k <> [].
Proof.
  intros Hplain Hfuel. unfold relayout.
  assert (Hf : Forall (fun para => (length para < fuel)%nat)
                 (split_nl (text (textModel c)))).
  { eapply Forall_impl; [apply split_nl_length |].
    intros para Hpara. simpl in Hpara. lia. }
  destruct (paragraphs_loop_total measure c (Z.max 0 (innerWidth c)) fuel
              (paint_set_font (l_font (textLayout c)) (paint_save (paint c)))
              _ 0 [] Hplain Hf) as (lines & -> & Hne).
  cbn [mbind res_bind]. rewrite paint_restore_save_font.
  eexists. split.
  - f_equal; f_equal; by destruct c.
  - simpl. apply Hne. left. apply split_nl_nonempty.
Qed.

End EnsureProps.

Section LineTable.

Variable measure : jsstring -> jsstring -> Z.

(** C4, as the code has it. In every configuration that inserts no hyphen
    (wrap off, or word wrap not in mode 'word', or hyphenate off): on the
    plain path the recomputation of [ensure] returns once the fuel exceeds
    the length of the text, and whenever the recomputation returns, on
    either path, concatenating the line texts, a ['\n'] reinserted where
    the end offset of a line accounts for one, gives exactly the flattened
    text, and [text.slice(start, end)] of every line is that line's text
    with its newline. *)
Theorem line_table_reconstructs_text (fuel : nat) (c : TextControl) :
  no_hyphen (options c) ->
  (styleAwareLayout (options c) = false ->
   (length (text (textModel c)) < fuel)%nat ->
   exists c' k, relayout measure fuel c = Ok (c', k))
  /\ (forall c' k,
        relayout measure fuel c = Ok (c', k) ->
        reconstruct (c_lines k) = text (textModel c)
        /\ Forall (indexes (text (textModel c))) (c_lines k)).
Proof.
  intros Hno. split.
  - intros Hplain Hfuel.
    destruct (relayout_total measure fuel c Hplain Hfuel) as (k & Hk & _).
  eauto.
  - intros c' k Hk.
    destruct (relayout_covers measure fuel c c' k Hno Hk) as [Hc _]. split.
    + by apply covers_reconstruct in Hc.
    + by apply (covers_indexes _ _ _ _ [] Hc).
Qed.

(** ** The cache *)

Lemma ensure_hit fuel c k :
  _cache (textLayout c) = Some k -> cache_hit c k ->
  ensure measure fuel c = Ok (c, k).
Proof.
  intros Hk [Hv Hw]. unfold ensure. rewrite Hk, Hv, Hw, !Z.eqb_refl. done.
Qed.

Lemma ensure_miss fuel c :
  (forall k, _cache (textLayout c) = Some k -> ~ cache_hit c k) ->
  ensure measure fuel c = relayout measure fuel c.
Proof.
  intros Hmiss. unfold ensure.
  destruct (_cache (textLayout c)) as [k |]; [| done].
  destruct (Z.eqb_spec (c_version k) (_version (textModel c))) as [Hv | Hv];
    [| done].
  destruct (Z.eqb_spec (c_width k) (Z.max 0 (innerWidth c))) as [Hw | Hw];
    [| done].
  destruct (Hmiss k); done.
Qed.

Lemma relayout_replaces_cache fuel c c' k :
  relayout measure fuel c = Ok (c', k) ->
  _cache (textLayout c') = Some k /\ cache_hit c' k
  /\ textModel c' = textModel c /\ innerWidth c' = innerWidth c.
Proof.
  intros Hr. destruct (relayout_inv measure fuel c c' k Hr)
    as (p' & -> & Hv & Hw).
  by split_and!.
Qed.

Lemma ensure_cached fuel c c' k :
  ensure measure fuel c = Ok (c', k) ->
  _cache (textLayout c') = Some k /\ cache_hit c' k.
Proof.
  unfold ensure.
  destruct (_cache (textLayout c)) as [k0 |] eqn:Hk0.
  - destruct (Z.eqb_spec (c_version k0) (_version (textModel c))) as [Hv | Hv];
      simpl.
    + destruct (Z.eqb_spec (c_width k0) (Z.max 0 (innerWidth c)))
        as [Hw | Hw].
      * by intros [= <- <-].
      * intros Hr. by apply relayout_replaces_cache in Hr as (? & ? & _).
    + intros Hr. by apply relayout_replaces_cache in Hr as (? & ? & _).
  - intros Hr. by apply relayout_replaces_cache in Hr as (? & ? & _).
Qed.

(** What [ensure()] keeps of the cache wherever it returns. It returns the
    cached object, and leaves the control as it is, when the version of the
    buffer and the available width both equal the cached values; otherwise
    it is the recomputation, which, when it returns, stores a new object
    keyed by the present version and width; the object returned is the
    previously cached one exactly when version and width matched; and a
    second [ensure()], nothing changed in between, returns the same object
    again, without any recomputation (whatever its fuel). *)
Lemma ensure_returns_cache_iff_version_and_width_match
  (fuel : nat) (c : TextControl) :
  (forall k, _cache (textLayout c) = Some k -> cache_hit c k ->
             ensure measure fuel c = Ok (c, k))
  /\ ((forall k, _cache (textLayout c) = Some k -> ~ cache_hit c k) ->
      ensure measure fuel c = relayout measure fuel c)
  /\ (forall c' k', relayout measure fuel c = Ok (c', k') ->
                    _cache (textLayout c') = Some k'
                    /\ c_version k' = _version (textModel c)
                    /\ c_width k' = Z.max 0 (innerWidth c))
  /\ (forall k c' k', _cache (textLayout c) = Some k ->
                      ensure measure fuel c = Ok (c', k') ->
                      (k' = k <-> cache_hit c k))
  /\ (forall c1 k1 fuel', ensure measure fuel c = Ok (c1, k1) ->
                          ensure measure fuel' c1 = Ok (c1, k1)).
Proof.
  split_and!.
  - apply ensure_hit.
  - apply ensure_miss.
  - intros c' k' Hr.
    destruct (relayout_inv measure fuel c c' k' Hr) as (p' & -> & Hv & Hw).
    done.
  - intros k c' k' Hk He. split.
    + intros ->. unfold ensure in He. rewrite Hk in He.
      destruct (Z.eqb_spec (c_version k) (_version (textModel c)))
        as [Hv | Hv]; simpl in He.
      * destruct (Z.eqb_spec (c_width k) (Z.max 0 (innerWidth c)))
          as [Hw | Hw]; [done |].
        by apply relayout_inv in He as (p' & _ & _ & Hw').
      * by apply relayout_inv in He as (p' & _ & Hv' & _).
    + intros Hhit. rewrite (ensure_hit fuel c k Hk Hhit) in He. congruence.
  - intros c1 k1 fuel' He. apply ensure_cached in He as [Hk Hhit].
    by apply ensure_hit.
Qed.

(** On the plain path [ensure()] returns once the fuel exceeds the length
    of the text. *)
Lemma ensure_total fuel c :
  styleAwareLayout (options c) = false ->
  (length (text (textModel c)) < fuel)%nat ->
  exists c' k, ensure measure fuel c = Ok (c', k).
Proof.
  intros Hplain Hfuel. unfold ensure.
  destruct (relayout_total measure fuel c Hplain Hfuel) as (k & Hk & _).
  destruct (_cache (textLayout c)) as [k0 |]; [| eauto].
  destruct (_ && _); eauto.
Qed.

End LineTable.

(** C4, as stated, fails with hyphenation: three characters fit, the text is
    "abcdef", and the lines are "ab-" [0,3), "cd-" [3,6), "ef" [6,8). Their
    concatenation is "ab-cd-ef", and the offsets of the second line index
    "def". *)
Lemma hyphenated_lines_do_not_reconstruct_text :
  let c := sample_control 3 hyphen_options (js "abcdef") in
  exists c' k,
    ensure (fixed_pitch 1) 20 c = Ok (c', k)
    /\ c_lines k = [mkLine (js "ab-") 0 3; mkLine (js "cd-") 3 6;
                    mkLine (js "ef") 6 8]
    /\ reconstruct (c_lines k) <> text (textModel c)
    /\ ~ Forall (indexes (text (textModel c))) (c_lines k).
Proof.
  eexists _, _. split; [vm_compute; reflexivity |]. simpl.
  split; [reflexivity |]. split; [by vm_compute |].
  intros H. apply Forall_cons in H as [H _]. by vm_compute in H.
Qed.

Lemma line_table_reconstructs_text_witness :
  (styleAwareLayout default_options = false ->
   (length (js "ab cdefgh") < 20)%nat ->
   exists c' k,
     relayout (fixed_pitch 1) 20
       (sample_control 5 default_options (js "ab cdefgh")) = Ok (c', k))
  /\ (forall c' k,
        relayout (fixed_pitch 1) 20
          (sample_control 5 default_options (js "ab cdefgh")) = Ok (c', k) ->
        reconstruct (c_lines k) = js "ab cdefgh"
        /\ Forall (indexes (js "ab cdefgh")) (c_lines k)).
Proof.
  apply (line_table_reconstructs_text (fixed_pitch 1) 20
           (sample_control 5 default_options (js "ab cdefgh"))).
  right. right. reflexivity.
Defined.

(** ** Word wrap *)

Section WordWrap.

Variable measure : jsstring -> jsstring -> Z.

(** When the test of the binary search is a threshold at [k], the search
    finds [k]. *)
Lemma bsearch_threshold fits fuel lo hi k :
  lo <= k <= hi ->
  (forall mid, lo < mid <= hi -> fits mid = true <-> mid <= k) ->
  (Z.to_nat (hi - lo) <= fuel)%nat ->
  bsearch fits fuel lo hi = k.
Proof.
  revert lo hi. induction fuel as [| fuel IH]; intros lo hi Hk Hfits Hfuel;
    simpl.
  - lia.
  - destruct (Z.ltb_spec lo hi) as [Hlt | Hge]; [| lia].
    assert (lo < (lo + hi + 1) / 2 <= hi) as Hmid.
    { split.
      - apply Z.lt_le_trans with (lo + 1); [lia |].
        apply Z.div_le_lower_bound; lia.
      - apply Z.div_le_upper_bound; lia. }
    destruct (fits ((lo + hi + 1) / 2)) eqn:Hf.
    + apply Hfits in Hf; [| done]. apply IH; [lia | | lia].
      intros mid Hm. apply Hfits. lia.
    + assert (~ (lo + hi + 1) / 2 <= k) as Hgt.
      { intros Hle. apply Hfits in Hle; [congruence | done]. }
      apply IH; [lia | | lia].
      intros mid Hm. apply Hfits. lia.
Qed.

(** [cutText] when exactly [n] characters fit the width. *)
Lemma cutText_exactly_fits p t width n :
  0 < width ->
  (forall s, measure (p_font p) s <= width <-> len s <= n) ->
  0 <= n < len t ->
  fst (cutText measure p t width) = take (Z.to_nat n) t.
Proof.
  intros Hw Hfit Hn. unfold cutText, measureText.
  destruct (Z.eqb_spec (len t) 0) as [Hz | _]; [lia |].
  destruct (Z.gtb_spec width 0) as [_ | Hle]; [| lia]. simpl.
  destruct (Z.leb_spec (measure (p_font p) t) width) as [Hall | _].
  { apply Hfit in Hall. lia. }
  simpl.
  rewrite (bsearch_threshold _ _ 0 (len t) n); [| lia | | unfold len; lia].
  - apply slice_0_take. lia.
  - intros mid Hmid. rewrite Z.leb_le, Hfit, len_slice_0 by lia. done.
Qed.

Variable c : TextControl.
Variable W : Z.

(** The lines already in the table do not influence the lines the plain
    loop adds. *)
Lemma plain_loop_app p fuel rest off lines :
  plain_loop measure c W p fuel rest off lines
  = '(new, o) ← plain_loop measure c W p fuel rest off [];
    Ok (lines ++ new, o).
Proof.
  revert rest off lines. induction fuel as [| fuel IH]; intros rest off lines;
    [done |].
  assert (Hpush : forall rest' off' line,
    plain_loop measure c W p fuel rest' off' (push lines line off)
    = '(new, o) ← plain_loop measure c W p fuel rest' off' (push [] line off);
      Ok (lines ++ new, o)).
  { intros rest' off' line.
    rewrite (IH rest' off' (push lines line off)).
    rewrite (IH rest' off' (push [] line off)).
    destruct (plain_loop measure c W p fuel rest' off' []) as [[new o] | |];
      try done.
    unfold push. simpl. by rewrite <- app_assoc. }
  rewrite !plain_loop_S.
  destruct (len rest >? 0); [| simpl; by rewrite app_nil_r].
  cbv zeta.
  repeat match goal with
         | |- context [if ?b then _ else _] => destruct b
         end; apply Hpush.
Qed.

End WordWrap.

(** C6. Wrap enabled, word-wrap mode, plain path, a positive available width
    that exactly 5 characters fit, and the single paragraph "ab cdefgh": the
    layout returns, its first line is "ab " at [0,3), and the lines after it
    are those of wrapping the remainder "cdefgh" from offset 3. *)
Theorem word_wrap_breaks_after_space
  (measure : jsstring -> jsstring -> Z) (fuel : nat) (c : TextControl) :
  styleAwareLayout (options c) = false ->
  wrap (options c) = true ->
  wordWrap (options c) = WordMode ->
  text (textModel c) = js "ab cdefgh" ->
  0 < innerWidth c ->
  (forall s,
      measure (l_font (textLayout c)) s <= innerWidth c <-> len s <= 5) ->
  (9 < fuel)%nat ->
  exists c' k tail o,
    relayout measure fuel c = Ok (c', k)
    /\ c_lines k = mkLine (js "ab ") 0 3 :: tail
    /\ plain_loop measure c (Z.max 0 (innerWidth c))
         (paint_set_font (l_font (textLayout c)) (paint_save (paint c)))
         (pred fuel) (js "cdefgh") 3 [] = Ok (tail, o).
Proof.
  intros Hplain Hwrap Hword Htext Hpos Hfit Hfuel.
  destruct fuel as [| fuel]; [lia |]. simpl pred.
  rewrite Z.max_r by lia.
  set (p := paint_set_font (l_font (textLayout c)) (paint_save (paint c))).
  destruct (plain_loop_total measure c (innerWidth c) p fuel (js "cdefgh") 3 [])
    as [[tail o] Htail]; [simpl; lia |].
  assert (Hfirst : fst (cutText measure p (js "ab cdefgh") (innerWidth c))
                   = js "ab cd").
  { rewrite (cutText_exactly_fits measure p _ _ 5); [done | done | done |].
    by vm_compute. }
  assert (Hstep : plain_loop measure c (innerWidth c) p (S fuel)
                    (js "ab cdefgh") 0 []
                  = Ok (mkLine (js "ab ") 0 3 :: tail, o)).
  { rewrite plain_loop_S.
    change (len (js "ab cdefgh") >? 0) with true. cbv zeta. rewrite Hfirst.
    change (len (js "ab cd") =? 0) with false. rewrite Hword.
    change (true && (len (js "ab cd") <? len (js "ab cdefgh"))) with true.
    change (last_space (js "ab cd") >? 0) with true. cbv iota.
    change (slice_from (js "ab cd") (last_space (js "ab cd") + 1)
            ++ slice_from (js "ab cdefgh") (len (js "ab cd")))
      with (js "cdefgh").
    change (slice (js "ab cd") 0 (last_space (js "ab cd") + 1))
      with (js "ab ").
    change (0 + len (js "ab ")) with 3.
    rewrite plain_loop_app, Htail. done. }
  exists (set_cache
            (Some (mkCache (_version (textModel c)) (innerWidth c)
                     (mkLine (js "ab ") 0 3 :: tail)))
            (set_paint (paint_restore p) c)),
    (mkCache (_version (textModel c)) (innerWidth c)
       (mkLine (js "ab ") 0 3 :: tail)), tail, o.
  split; [| done].
  unfold relayout. rewrite Htext, Z.max_r by lia. fold p.
  change (split_nl (js "ab cdefgh")) with [js "ab cdefgh"].
  unfold paragraphs_loop, paragraph.
  change (len (js "ab cdefgh") =? 0) with false.
  rewrite Hplain, Hwrap. cbv iota. simpl negb. cbv iota.
  rewrite Hstep. done.
Qed.

Lemma word_wrap_breaks_after_space_witness :
  exists c' k tail o,
    relayout (fixed_pitch 8) 12 scenario_C_control = Ok (c', k)
    /\ c_lines k = mkLine (js "ab ") 0 3 :: tail
    /\ plain_loop (fixed_pitch 8) scenario_C_control
         (Z.max 0 (innerWidth scenario_C_control))
         (paint_set_font (l_font (textLayout scenario_C_control))
            (paint_save (paint scenario_C_control)))
         (pred 12) (js "cdefgh") 3 [] = Ok (tail, o).
Proof.
  apply (word_wrap_breaks_after_space (fixed_pitch 8) 12 scenario_C_control);
    try reflexivity.
  - intros s. change (innerWidth _) with 47. unfold fixed_pitch. lia.
  - simpl. lia.
Defined.

(** In that scenario, with eight pixels a character, 47 pixels of width and
    no hyphenation, the lines are "ab ", "cdefg" and "h". *)
Lemma scenario_C_lines :
  exists c',
    ensure (fixed_pitch 8) 12 scenario_C_control
    = Ok (c', mkCache 0 47 [mkLine (js "ab ") 0 3; mkLine (js "cdefg") 3 8;
                            mkLine (js "h") 8 9]).
Proof. eexists. vm_compute. reflexivity. Qed.

(** ** Fuel only cuts loops off

    The inner loops get as much fuel as they can use, and a loop that
    returned with some fuel returns the same with more. *)

Section Fuel.

Variable measure : jsstring -> jsstring -> Z.

Lemma bsearch_fuel fits fuel fuel' lo hi :
  (Z.to_nat (hi - lo) <= fuel)%nat -> (Z.to_nat (hi - lo) <= fuel')%nat ->
  bsearch fits fuel lo hi = bsearch fits fuel' lo hi.
Proof.
  revert fuel' lo hi.
  induction fuel as [| fuel IH]; intros fuel' lo hi Hf Hf'.
  - destruct fuel' as [| fuel']; [done |]. simpl.
    destruct (Z.ltb_spec lo hi); [lia | done].
  - simpl. destruct (Z.ltb_spec lo hi) as [Hlt | Hge].
    + destruct fuel' as [| fuel']; [lia |]. simpl.
      destruct (Z.ltb_spec lo hi); [| lia].
      assert (lo < (lo + hi + 1) / 2 <= hi) as Hmid.
      { split.
        - apply Z.lt_le_trans with (lo + 1); [lia |].
          apply Z.div_le_lower_bound; lia.
        - apply Z.div_le_upper_bound; lia. }
      destruct (fits _); apply IH; lia.
    + destruct fuel' as [| fuel']; [done |]. simpl.
      destruct (Z.ltb_spec lo hi); [lia | done].
Qed.

Variable c : TextControl.
Variable W : Z.

Lemma len_drop_last (f : jsstring) :
  1 < len f -> (length (slice f 0 (-1)) < length f)%nat.
Proof.
  intros Hf. unfold slice. rewrite (rel_index_id 0) by lia.
  unfold rel_index. simpl. change (Z.to_nat 0) with O. rewrite drop_0.
  unfold len in *. rewrite length_take. lia.
Qed.

Lemma shrink_fuel p n n' f :
  (length f <= n)%nat -> (length f <= n')%nat ->
  shrink measure c W p n f = shrink measure c W p n' f.
Proof.
  revert n' f. induction n as [| n IH]; intros n' f Hn Hn'.
  - destruct f; [| simpl in Hn; lia]. by destruct n'.
  - destruct n' as [| n'].
    + destruct f; [| simpl in Hn'; lia]. done.
    + simpl. destruct (Z.gtb_spec (len f) 1) as [Hgt | Hle]; [| done].
      simpl. destruct (_ >? _); [| done].
      pose proof (len_drop_last f Hgt). apply IH; lia.
Qed.

Lemma shrink_carry_fuel p n n' trial rest restAbs :
  (length trial <= n)%nat -> (length trial <= n')%nat ->
  shrink_carry measure c W p n trial rest restAbs
  = shrink_carry measure c W p n' trial rest restAbs.
Proof.
  revert n' trial rest restAbs.
  induction n as [| n IH]; intros n' trial rest restAbs Hn Hn'.
  - destruct trial; [| simpl in Hn; lia]. by destruct n'.
  - destruct n' as [| n'].
    + destruct trial; [| simpl in Hn'; lia]. done.
    + simpl. destruct (Z.gtb_spec (len trial) 1) as [Hgt | Hle]; [| done].
      simpl. destruct (_ >? _); [| done].
      pose proof (len_drop_last trial Hgt). apply IH; lia.
Qed.

Lemma fill_loop_fuel n n' s :
  (length (f_rest s) <= n)%nat -> (length (f_rest s) <= n')%nat ->
  fill_loop measure c n s = fill_loop measure c n' s.
Proof.
  assert (Hnil : forall k s0, f_rest s0 = [] -> fill_loop measure c k s0 = s0).
  { intros k s0 Hs. destruct k; [done |]. rewrite fill_loop_S, Hs. done. }
  revert n' s. induction n as [| n IH]; intros n' s Hn Hn'.
  - assert (f_rest s = []) as Hs by (destruct (f_rest s); [done | simpl in Hn; lia]).
    by rewrite !Hnil.
  - destruct n' as [| n'].
    { assert (f_rest s = []) as Hs
        by (destruct (f_rest s); [done | simpl in Hn'; lia]).
      by rewrite !Hnil. }
    rewrite !fill_loop_S.
    destruct (Z.gtb_spec (len (f_rest s)) 0) as [Hpos | Hz]; [| done].
    simpl. destruct (f_remaining s >? 0); [| done].
    destruct (_locate (textModel c) (f_restAbs s)) as [ri off].
    cbv zeta.
    set (take_ := if _ =? 0 then _ else _).
    destruct (Z.gtb_spec take_ 0) as [Htake | Htake]; [| done].
    assert (length (slice_from (f_rest s) take_) < length (f_rest s))%nat.
    { apply slice_from_shorter; [| lia]. intros E. rewrite E in Hpos. done. }
    apply IH; simpl; lia.
Qed.

(** More fuel does not change what the plain loop returned. *)
Lemma plain_loop_mono p fuel fuel' rest off lines r :
  plain_loop measure c W p fuel rest off lines = Ok r -> (fuel <= fuel')%nat ->
  plain_loop measure c W p fuel' rest off lines = Ok r.
Proof.
  revert fuel' rest off lines.
  induction fuel as [| fuel IH]; intros fuel' rest off lines; [done |].
  intros Hok Hle. destruct fuel' as [| fuel']; [lia |].
  rewrite plain_loop_S in *.
  destruct (len rest >? 0); [| done]. cbv zeta in *.
  repeat match goal with
         | |- context [if ?b then _ else _] => destruct b
         end; (apply IH; [exact Hok | lia]).
Qed.

(** More fuel does not change what the style-aware loop returned. *)
Lemma aware_loop_mono fuel fuel' p rest restAbs off lines r :
  aware_loop measure c W fuel p rest restAbs off lines = Ok r ->
  (fuel <= fuel')%nat ->
  aware_loop measure c W fuel' p rest restAbs off lines = Ok r.
Proof.
  revert fuel' p rest restAbs off lines.
  induction fuel as [| fuel IH]; intros fuel' p rest restAbs off lines;
    [done |].
  intros Hok Hle. destruct fuel' as [| fuel']; [lia |].
  rewrite aware_loop_S in *.
  destruct (len rest >? 0); [| done].
  destruct (negb (wrap (options c))).
  - apply IH; [exact Hok | lia].
  - cbv zeta in *.
    destruct (back_off measure c W _) as [[lineText rest'] restAbs'].
    apply IH; [exact Hok | lia].
Qed.

End Fuel.

(** More fuel does not change the line table [ensure()] returned. *)
Lemma relayout_mono measure fuel fuel' c r :
  relayout measure fuel c = Ok r -> (fuel <= fuel')%nat ->
  relayout measure fuel' c = Ok r.
Proof.
  intros Hok Hle. unfold relayout in *.
  set (W := Z.max 0 (innerWidth c)) in *.
  assert (Hpara : forall p rest off lines r0,
    paragraph measure c W fuel p rest off lines = Ok r0 ->
    paragraph measure c W fuel' p rest off lines = Ok r0).
  { intros p rest off lines r0. unfold paragraph.
    destruct (len rest =? 0); [done |].
    destruct (styleAwareLayout (options c)).
    - intros H. by apply (aware_loop_mono measure c W fuel).
    - destruct (negb (wrap (options c))); [done |].
      destruct (plain_loop measure c W p fuel rest off lines)
        as [r1 | |] eqn:Hl; try done.
      by rewrite (plain_loop_mono measure c W p fuel fuel' _ _ _ r1 Hl Hle). }
  assert (Hloop : forall ps p off lines r0,
    paragraphs_loop measure c W fuel p ps off lines = Ok r0 ->
    paragraphs_loop measure c W fuel' p ps off lines = Ok r0).
  { induction ps as [| rest ps IH]; intros p off lines r0; [done |].
    rewrite !paragraphs_loop_cons.
    destruct (paragraph measure c W fuel p rest off lines)
      as [[[l1 o1] p1] | |] eqn:Hp; try done.
    rewrite (Hpara _ _ _ _ _ Hp). cbn [mbind res_bind].
    destruct ps as [| rest2 ps]; [done |].
    destruct (bump_last l1) as [l2 | |]; try done.
    cbn [mbind res_bind]. apply IH. }
  destruct (paragraphs_loop measure c W fuel _ _ _ _) as [[lines p'] | |]
    eqn:Hl; try done.
  by rewrite (Hloop _ _ _ _ _ Hl).
Qed.

(** ** The style-aware path need not return *)

(** With no width at all, the style-aware path takes no character and pushes
    empty lines for ever: whatever the fuel, the layout of "a" does not
    return. (The plain path takes one character by force.) *)
Lemma style_aware_zero_width_stalls fuel :
  relayout (fixed_pitch 1) fuel (sample_control 0 aware_options (js "a"))
  = NoFuel.
Proof.
  assert (Hloop : forall p abs off lines,
    aware_loop (fixed_pitch 1) (sample_control 0 aware_options (js "a")) 0
      fuel p (js "a") abs off lines = NoFuel).
  { induction fuel as [| fuel IH]; intros p abs off lines; [done |].
    rewrite aware_loop_S. change (len (js "a") >? 0) with true.
    cbv iota. simpl negb. cbv iota. apply IH. }
  unfold relayout. change (Z.max 0 (innerWidth _)) with 0.
  change (split_nl (text (textModel (sample_control 0 aware_options (js "a")))))
    with [js "a"].
  unfold paragraphs_loop, paragraph.
  change (len (js "a") =? 0) with false. cbv iota.
  change (styleAwareLayout (options (sample_control 0 aware_options (js "a"))))
    with true.
  cbv iota. by rewrite Hloop.
Qed.

(** On the failing input the same holds under every measurement: with no
    width the inner loop is not entered, so no width is ever measured. *)
Lemma zero_width_aware_relayout_stalls measure fuel :
  relayout measure fuel zero_width_aware_control = NoFuel.
Proof.
  assert (Hloop : forall p abs off lines,
    aware_loop measure zero_width_aware_control 0 fuel p (js "a") abs off
      lines = NoFuel).
  { induction fuel as [| fuel IH]; intros p abs off lines; [done |].
    rewrite aware_loop_S. change (len (js "a") >? 0) with true.
    cbv iota. simpl negb. cbv iota. apply IH. }
  unfold relayout. change (Z.max 0 (innerWidth _)) with 0.
  change (split_nl (text (textModel zero_width_aware_control)))
    with [js "a"].
  unfold paragraphs_loop, paragraph.
  change (len (js "a") =? 0) with false. cbv iota.
  change (styleAwareLayout (options zero_width_aware_control)) with true.
  cbv iota. by rewrite Hloop.
Qed.

(** C5. The failing input: a style-aware control with word wrap and no
    inner width, holding "a", with nothing cached. [ensure()] misses the
    cache and has to recompute the line table, and does not return,
    whatever the measurement and however much fuel it is given: each turn
    of the paragraph loop pushes an empty line and takes no character. On
    the plain path the same control gets its table at once, the first
    character being taken by force, and the cache is replaced. *)
Theorem ensure_miss_without_width_never_returns
  (measure : jsstring -> jsstring -> Z) (fuel : nat) :
  _cache (textLayout zero_width_aware_control) = None
  /\ Z.max 0 (innerWidth zero_width_aware_control) = 0
  /\ ensure measure fuel zero_width_aware_control = NoFuel
  /\ ensure (fixed_pitch 1) 2 zero_width_plain_control
     = Ok (set_cache (Some (mkCache 0 0 [mkLine (js "a") 0 1]))
             zero_width_plain_control,
           mkCache 0 0 [mkLine (js "a") 0 1]).
Proof.
  split; [done |]. split; [done |]. split.
  - unfold ensure.
    change (_cache (textLayout zero_width_aware_control)) with (@None Cache).
    apply zero_width_aware_relayout_stalls.
  - vm_compute. reflexivity.
Qed.

(** * Properties of the edit controller *)

Section Controller.

Variable measure : jsstring -> jsstring -> Z.

Lemma relayout_edit fuel c c' k :
  relayout measure fuel c = Ok (c', k) ->
  edit_state c' = edit_state c /\ geometry c' = geometry c.
Proof.
  intros Hr. by destruct (relayout_inv measure fuel c c' k Hr) as (p' & -> & _).
Qed.

Lemma ensure_edit fuel c c' k :
  ensure measure fuel c = Ok (c', k) ->
  edit_state c' = edit_state c /\ geometry c' = geometry c.
Proof.
  unfold ensure. destruct (_cache (textLayout c)) as [k0 |].
  - destruct (_ && _); [by intros [= <- <-] | apply relayout_edit].
  - apply relayout_edit.
Qed.

Lemma lineIndexOf_edit fuel index c c' li :
  lineIndexOf measure fuel index c = Ok (c', li) ->
  edit_state c' = edit_state c /\ geometry c' = geometry c.
Proof.
  unfold lineIndexOf.
  destruct (ensure measure fuel c) as [[c1 k] | |] eqn:He; try done.
  apply ensure_edit in He. simpl.
  destruct (_ =? _); by intros [= <- <-].
Qed.

Lemma xForIndex_edit fuel index c c' x :
  xForIndex measure fuel index c = Ok (c', x) ->
  edit_state c' = edit_state c.
Proof.
  unfold xForIndex.
  destruct (ensure measure fuel c) as [[c1 k] | |] eqn:He; try done.
  apply ensure_edit in He as [He _]. cbn [mbind res_bind].
  destruct (lineIndexOf measure fuel index _) as [[c3 li] | |] eqn:Hl;
    try done.
  apply lineIndexOf_edit in Hl as [Hl _]. cbn [mbind res_bind].
  destruct (defined _) as [L | |]; try done.
  cbn [mbind res_bind]. intros [= <- <-].
  transitivity (edit_state c3); [done |]. rewrite Hl. exact He.
Qed.

Lemma ensureCaretVisible_edit fuel c c' :
  ensureCaretVisible measure fuel c = Ok c' ->
  edit_state c' = edit_state c.
Proof.
  unfold ensureCaretVisible.
  destruct (ensure measure fuel c) as [[c1 k] | |] eqn:He; try done.
  apply ensure_edit in He as [He _]. cbn [mbind res_bind].
  destruct (_ =? _); [by intros [= <-] |].
  destruct (lineIndexOf measure fuel _ c1) as [[c2 li] | |] eqn:Hl; try done.
  apply lineIndexOf_edit in Hl as [Hl _]. cbn [mbind res_bind].
  intros [= <-]. transitivity (edit_state c2); [| by rewrite Hl].
  destruct (_ <? _); [done |]. by destruct (_ >? _).
Qed.

(** What [typeText(s)] does to the buffer, the selection and the history:
    the snapshot is recorded first, then the selection is replaced by [s]
    and the caret put after it. *)
Lemma typeText_edit fuel now s c c' :
  typeText measure fuel now s c = Ok c' ->
  textModel c' = typed_model s c
  /\ selection c'
     = mkSel (sel_start (selection c) + len s) (sel_start (selection c) + len s)
  /\ _history c' = _history (pushHistory c)
  /\ _redo c' = []
  /\ _historyLimit c' = _historyLimit c.
Proof.
  unfold typeText.
  set (c4 := set_selection _ _).
  destruct (xForIndex measure fuel _ c4) as [[c5 x] | |] eqn:Hx; try done.
  apply xForIndex_edit in Hx. cbn [mbind res_bind].
  set (c6 := resetCaretBlink now _).
  assert (H6 : edit_state c6 = edit_state c4) by exact Hx.
  destruct (if keepCaretVisible (options c6)
            then ensureCaretVisible measure fuel c6 else Ok c6)
    as [c7 | |] eqn:H7; try done.
  assert (edit_state c7 = edit_state c6) as H7'.
  { destruct (keepCaretVisible (options c6)).
    - by apply ensureCaretVisible_edit in H7.
    - by injection H7 as <-. }
  cbn [mbind res_bind]. intros [= <-].
  assert (He : edit_state (invalidate c7) = edit_state c4).
  { transitivity (edit_state c7); [done |]. by rewrite H7', H6. }
  unfold edit_state in He. injection He as E1 E2 E3 E4 E5 _ _.
  change (textModel (invalidate c7)) with (textModel c7).
  change (selection (invalidate c7)) with (selection c7).
  change (_history (invalidate c7)) with (_history c7).
  change (_redo (invalidate c7)) with (_redo c7).
  change (_historyLimit (invalidate c7)) with (_historyLimit c7).
  rewrite E1, E2, E3, E4, E5. unfold typed_model.
  assert (Hcol : forall pos sel, sel_start (collapseTo pos sel) = pos).
  { intros pos sel. unfold sel_start. simpl. lia. }
  destruct (sel_empty (selection c)) eqn:Hsel; simpl.
  - by split_and!.
  - rewrite !Hcol. by split_and!.
Qed.

Lemma pushHistory_top c :
  0 < _historyLimit c -> last (_history (pushHistory c)) = Some (snapshot c).
Proof.
  intros Hlim. unfold pushHistory. simpl.
  destruct (Z.gtb_spec (len (_history c ++ [snapshot c])) (_historyLimit c))
    as [Hgt | Hle]; [| apply last_snoc].
  destruct (_history c) as [| h hs]; simpl.
  - unfold len in Hgt. simpl in Hgt. lia.
  - rewrite drop_0. apply last_snoc.
Qed.

Lemma restore_text_selection state c :
  text (textModel (restore state c)) = snap_text state
  /\ selection (restore state c) = mkSel (snap_a state) (snap_h state).
Proof.
  split; [| done]. simpl. unfold join_runs. simpl. apply app_nil_r.
Qed.

(** C7. After three [typeText] calls from any state whose history limit is
    positive (the constructor sets 200), [undo()] restores the buffer text
    and the selection (anchor and head) that held after the first two, and
    a following [redo()] restores the text and selection the third one
    produced; [undo] pushes the snapshot taken before it onto the redo
    stack, [redo] the one taken before it onto the undo stack. *)
Theorem undo_then_redo_after_three_edits
  (fuel : nat) (n1 n2 n3 : Z) (s1 s2 s3 : jsstring)
  (c c1 c2 c3 : TextControl) :
  0 < _historyLimit c ->
  typeText measure fuel n1 s1 c = Ok c1 ->
  typeText measure fuel n2 s2 c1 = Ok c2 ->
  typeText measure fuel n3 s3 c2 = Ok c3 ->
  text (textModel (undo c3)) = text (textModel c2)
  /\ selection (undo c3) = selection c2
  /\ _redo (undo c3) = _redo c3 ++ [snapshot c3]
  /\ text (textModel (redo (undo c3))) = text (textModel c3)
  /\ selection (redo (undo c3)) = selection c3
  /\ _history (redo (undo c3)) = _history (undo c3) ++ [snapshot (undo c3)].
Proof.
  intros Hlim H1 H2 H3.
  apply typeText_edit in H1 as (_ & _ & _ & _ & Hl1).
  apply typeText_edit in H2 as (_ & _ & _ & _ & Hl2).
  apply typeText_edit in H3 as (_ & _ & Hh3 & Hr3 & _).
  assert (Htop : last (_history c3) = Some (snapshot c2)).
  { rewrite Hh3. apply pushHistory_top. lia. }
  assert (Hu : undo c3
               = restore (snapshot c2)
                   (set_stacks (removelast (_history c3))
                      (_redo c3 ++ [snapshot c3]) c3)).
  { unfold undo. by rewrite Htop. }
  assert (Hsel : forall x, mkSel (anchor x) (head x) = x) by by intros [].
  assert (Hredo : last (_redo (undo c3)) = Some (snapshot c3)).
  { rewrite Hu. simpl. apply last_snoc. }
  assert (Hr : redo (undo c3)
               = restore (snapshot c3)
                   (set_stacks (_history (undo c3) ++ [snapshot (undo c3)])
                      (removelast (_redo (undo c3))) (undo c3))).
  { unfold redo at 1. by rewrite Hredo. }
  split_and!.
  - rewrite Hu. apply restore_text_selection.
  - rewrite Hu. simpl. apply Hsel.
  - by rewrite Hu.
  - rewrite Hr. apply restore_text_selection.
  - rewrite Hr. simpl. apply Hsel.
  - by rewrite Hr.
Qed.

(** C10, as the code has it. [typeText(s)] records the history first,
    whatever [s]: afterwards the undo stack is the one [pushHistory] left,
    with the snapshot of the state before the call on top when the history
    limit is positive, and the redo stack is empty. For the empty string
    and an empty selection the buffer (text, runs, version) is left as it
    was. *)
Theorem typeText_records_history_first
  (fuel : nat) (now : Z) (s : jsstring) (c c' : TextControl) :
  typeText measure fuel now s c = Ok c' ->
  _history c' = _history (pushHistory c)
  /\ _redo c' = []
  /\ (0 < _historyLimit c -> last (_history c') = Some (snapshot c))
  /\ (s = [] -> sel_empty (selection c) = true ->
      textModel c' = textModel c).
Proof.
  intros Ht. apply typeText_edit in Ht as (Hm & _ & Hh & Hr & _).
  split_and!; try done.
  - intros Hlim. rewrite Hh. by apply pushHistory_top.
  - intros -> Hsel. rewrite Hm. unfold typed_model. by rewrite Hsel.
Qed.

End Controller.

Lemma undo_then_redo_after_three_edits_witness :
  exists c1 c2 c3,
    typeText (fixed_pitch 8) 20 1 (js "a")
      (sample_control 40 default_options []) = Ok c1
    /\ typeText (fixed_pitch 8) 20 2 (js "b") c1 = Ok c2
    /\ typeText (fixed_pitch 8) 20 3 (js "c") c2 = Ok c3
    /\ text (textModel c3) = js "abc"
    /\ text (textModel (undo c3)) = text (textModel c2)
    /\ selection (undo c3) = selection c2
    /\ _redo (undo c3) = _redo c3 ++ [snapshot c3]
    /\ text (textModel (redo (undo c3))) = text (textModel c3)
    /\ selection (redo (undo c3)) = selection c3
    /\ _history (redo (undo c3)) = _history (undo c3) ++ [snapshot (undo c3)].
Proof.
  eexists _, _, _.
  split; [vm_compute; reflexivity |].
  split; [vm_compute; reflexivity |].
  split; [vm_compute; reflexivity |].
  split; [reflexivity |].
  eapply (undo_then_redo_after_three_edits (fixed_pitch 8) 20 1 2 3
           (js "a") (js "b") (js "c") (sample_control 40 default_options []));
    [reflexivity | vm_compute; reflexivity | vm_compute; reflexivity
    | vm_compute; reflexivity].
Defined.

Lemma typeText_records_history_first_witness :
  exists c',
    typeText (fixed_pitch 8) 20 1 [] control_abc = Ok c'
    /\ _history c' = _history (pushHistory control_abc)
    /\ _redo c' = []
    /\ (0 < _historyLimit control_abc ->
        last (_history c') = Some (snapshot control_abc))
    /\ (@nil N = [] -> sel_empty (selection control_abc) = true ->
        textModel c' = textModel control_abc).
Proof.
  eexists. split; [vm_compute; reflexivity |].
  apply (typeText_records_history_first (fixed_pitch 8) 20 1 [] control_abc).
  vm_compute. reflexivity.
Defined.

(** C10, as stated, fails when text is selected: typing the empty string
    over the selection "ab" of "abc" leaves "c" in the buffer, at a new
    version. *)
Lemma typing_nothing_over_a_selection_changes_the_buffer :
  exists c',
    typeText (fixed_pitch 8) 20 1 [] control_ab_selected = Ok c'
    /\ text (textModel control_ab_selected) = js "abc"
    /\ text (textModel c') = js "c"
    /\ _version (textModel c') <> _version (textModel control_ab_selected)
    /\ runs (textModel c') <> runs (textModel control_ab_selected).
Proof.
  eexists. split; [vm_compute; reflexivity |]. by split_and!.
Qed.

(** ** typeText returns *)

Section TypeTextReturns.

Variable measure : jsstring -> jsstring -> Z.

Lemma line_index_loop_range t index ls i n :
  0 <= i -> i + len ls = n -> 0 < n ->
  0 <= line_index_loop t index ls i n < n.
Proof.
  revert i. induction ls as [| L ls IH]; intros i Hi Hn Hpos; simpl.
  - lia.
  - assert (len (L :: ls) = 1 + len ls) as Hl by (unfold len; simpl; lia).
    pose proof (len_nonneg ls).
    destruct (_ <? l_start L); [lia |].
    destruct (_ <? l_end L); [lia |].
    destruct (_ =? l_end L).
    + destruct (Z.ltb_spec (i + 1) n); destruct (bool_decide _); simpl; lia.
    + apply IH; lia.
Qed.

Lemma edit_state_proj c c' :
  edit_state c = edit_state c' ->
  textModel c = textModel c' /\ options c = options c'.
Proof. by intros [= -> _ _ _ _ _ ->]. Qed.

(** On the plain path [ensure()] returns a line table with a line. *)
Lemma ensure_ok fuel c :
  styleAwareLayout (options c) = false -> cache_ok c ->
  (length (text (textModel c)) < fuel)%nat ->
  exists c1 k,
    ensure measure fuel c = Ok (c1, k) /\ c_lines k <> []
    /\ (c1 = c \/ c1 = set_cache (Some k) c).
Proof.
  intros Hplain Hcache Hfuel. unfold ensure, cache_ok in *.
  destruct (relayout_total measure fuel c Hplain Hfuel) as (k & Hk & Hne).
  destruct (_cache (textLayout c)) as [k0 |].
  - destruct (_ && _).
    + exists c, k0. auto.
    + exists (set_cache (Some k) c), k. auto.
  - exists (set_cache (Some k) c), k. auto.
Qed.

Lemma lineIndexOf_hit fuel index c k :
  _cache (textLayout c) = Some k -> cache_hit c k -> c_lines k <> [] ->
  exists li, lineIndexOf measure fuel index c = Ok (c, li)
             /\ 0 <= li < len (c_lines k).
Proof.
  intros Hk Hhit Hne. unfold lineIndexOf.
  rewrite (ensure_hit measure fuel c k Hk Hhit). cbn [mbind res_bind].
  assert (0 < len (c_lines k)).
  { destruct (c_lines k); [done |]. unfold len. simpl. lia. }
  destruct (Z.eqb_spec (len (c_lines k)) 0); [lia |].
  eexists. split; [done |]. apply line_index_loop_range; lia.
Qed.

Lemma xForIndex_ok fuel index c :
  styleAwareLayout (options c) = false -> cache_ok c ->
  (length (text (textModel c)) < fuel)%nat ->
  exists c' x k,
    xForIndex measure fuel index c = Ok (c', x)
    /\ _cache (textLayout c') = Some k /\ cache_hit c' k /\ c_lines k <> [].
Proof.
  intros Hplain Hcache Hfuel. unfold xForIndex.
  destruct (ensure_ok fuel c Hplain Hcache Hfuel) as (c1 & k & He & Hne & Hc1).
  rewrite He. cbn [mbind res_bind].
  destruct (ensure_cached measure fuel c c1 k He) as [Hk Hhit].
  set (c2 := set_paint _ c1).
  destruct (lineIndexOf_hit fuel index c2 k) as (li & -> & Hli); try done.
  cbn [mbind res_bind].
  destruct (nthZ_lt (c_lines k) li Hli) as [L ->]. cbn [defined mbind res_bind].
  eexists _, _, k. split; [done |]. by split_and!.
Qed.

Lemma ensureCaretVisible_hit fuel c k :
  _cache (textLayout c) = Some k -> cache_hit c k -> c_lines k <> [] ->
  exists c', ensureCaretVisible measure fuel c = Ok c'
             /\ _cache (textLayout c') = Some k.
Proof.
  intros Hk Hhit Hne. unfold ensureCaretVisible.
  rewrite (ensure_hit measure fuel c k Hk Hhit). cbn [mbind res_bind].
  destruct (_ =? 0); [by exists c |].
  destruct (lineIndexOf_hit fuel (head (selection c)) c k) as (li & -> & _);
    try done.
  cbn [mbind res_bind]. eexists. split; [done |].
  destruct (_ <? _); [done |]. by destruct (_ >? _).
Qed.

Lemma typed_model_text s c :
  text_cached (textModel c) ->
  text_cached (typed_model s c)
  /\ (length (text (typed_model s c))
      <= length (text (textModel c)) + length s)%nat.
Proof.
  intros Hc. unfold typed_model.
  set (m := if sel_empty (selection c) then _ else _).
  assert (Hm : text_cached m
               /\ (length (text m) <= length (text (textModel c)))%nat).
  { subst m. destruct (sel_empty (selection c)); [done |]. split.
    - by apply deleteRange_cached.
    - destruct (deleteRange_spec (sel_start (selection c))
                  (sel_end (selection c)) (textModel c) Hc) as [-> _].
      rewrite length_app, length_take, length_drop.
      set (n := len (text (textModel c))).
      assert (clamp (Z.min (sel_start (selection c)) (sel_end (selection c))) n
              <= clamp (Z.max (sel_start (selection c))
                          (sel_end (selection c))) n).
      { unfold clamp. apply Z.max_le_compat_l, Z.min_le_compat_r. lia. }
      lia. }
  destruct Hm as [Hcm Hlen]. split.
  - by apply insertAt_cached.
  - rewrite insertAt_text by done.
    rewrite !length_app, length_take, length_drop. lia.
Qed.

(** From a control on the plain path, [typeText(s)] returns (no error, no
    loop without progress) once the fuel exceeds the length of the text
    after the edit, and leaves such a control again. *)
Lemma typeText_returns fuel now s c :
  editor_ok c ->
  (length (text (textModel c)) + length s < fuel)%nat ->
  exists c', typeText measure fuel now s c = Ok c' /\ editor_ok c'
             /\ (length (text (textModel c'))
                 <= length (text (textModel c)) + length s)%nat.
Proof.
  intros (Hplain & Hc & Hcache) Hfuel.
  destruct (typed_model_text s c Hc) as [Hct Hlen].
  unfold typeText.
  set (c4 := set_selection _ _).
  assert (H4 : textModel c4 = typed_model s c /\ options c4 = options c
               /\ textLayout c4 = textLayout c).
  { subst c4. unfold typed_model.
    assert (Hcol : forall pos sel, sel_start (collapseTo pos sel) = pos).
    { intros pos sel. unfold sel_start. simpl. lia. }
    simpl. destruct (sel_empty (selection c)); simpl; rewrite ?Hcol; done. }
  destruct H4 as (Hm4 & Ho4 & Hl4).
  destruct (xForIndex_ok fuel (head (selection c4)) c4)
    as (c5 & x & k & Hx & Hk & Hhit & Hne).
  { by rewrite Ho4. }
  { unfold cache_ok. by rewrite Hl4. }
  { rewrite Hm4. lia. }
  pose proof (xForIndex_edit measure _ _ _ _ _ Hx) as He5.
  rewrite Hx. cbn [mbind res_bind].
  set (c6 := resetCaretBlink now _).
  assert (H6 : edit_state c6 = edit_state c4) by exact He5.
  assert (Hk6 : _cache (textLayout c6) = Some k) by exact Hk.
  assert (Hhit6 : cache_hit c6 k) by exact Hhit.
  assert (H7 : exists c7,
    (if keepCaretVisible (options c6)
     then ensureCaretVisible measure fuel c6 else Ok c6) = Ok c7
    /\ _cache (textLayout c7) = Some k /\ edit_state c7 = edit_state c6).
  { destruct (keepCaretVisible (options c6)).
    - destruct (ensureCaretVisible_hit fuel c6 k Hk6 Hhit6 Hne)
        as (c7 & H7 & Hk7).
      exists c7. split_and!; try done.
      by apply ensureCaretVisible_edit in H7.
    - by exists c6. }
  destruct H7 as (c7 & -> & Hk7 & H7). cbn [mbind res_bind].
  eexists. split; [done |].
  assert (He : edit_state (invalidate c7) = edit_state c4).
  { transitivity (edit_state c7); [done |]. by rewrite H7, H6. }
  destruct (edit_state_proj _ _ He) as [E1 E7].
  unfold editor_ok, cache_ok.
  change (_cache (textLayout (invalidate c7))) with (_cache (textLayout c7)).
  rewrite E7, E1, Ho4, Hm4, Hk7. done.
Qed.

(** Three [typeText] calls in a row return. *)
Lemma three_edits_return fuel n1 n2 n3 s1 s2 s3 c :
  editor_ok c ->
  (length (text (textModel c)) + length s1 + length s2 + length s3
   < fuel)%nat ->
  exists c1 c2 c3,
    typeText measure fuel n1 s1 c = Ok c1
    /\ typeText measure fuel n2 s2 c1 = Ok c2
    /\ typeText measure fuel n3 s3 c2 = Ok c3.
Proof.
  intros Hok Hfuel.
  destruct (typeText_returns fuel n1 s1 c Hok) as (c1 & H1 & Hok1 & Hl1);
    [lia |].
  destruct (typeText_returns fuel n2 s2 c1 Hok1) as (c2 & H2 & Hok2 & Hl2);
    [lia |].
  destruct (typeText_returns fuel n3 s3 c2 Hok2) as (c3 & H3 & _); [lia |].
  by exists c1, c2, c3.
Qed.

End TypeTextReturns.

Lemma sample_control_ok inner o t :
  styleAwareLayout o = false -> editor_ok (sample_control inner o t).
Proof.
  intros Ho. split_and!; [done | | done]. apply new_TextModel_cached.
Qed.

(** * The buffer, character by character *)

Lemma with_text_id r : with_text r (r_text r) = r.
Proof. by destruct r. Qed.

Lemma run_chars_length r : length (run_chars r) = length (r_text r).
Proof. unfold run_chars. by rewrite length_map. Qed.

Lemma chars_nil : chars [] = [].
Proof. done. Qed.

Lemma chars_cons r rs : chars (r :: rs) = run_chars r ++ chars rs.
Proof. done. Qed.

Lemma chars_app rs1 rs2 : chars (rs1 ++ rs2) = chars rs1 ++ chars rs2.
Proof. unfold chars. by rewrite map_app, concat_app. Qed.

Lemma chars_length rs : length (chars rs) = length (join_runs rs).
Proof.
  induction rs as [| r rs IH]; [done |].
  rewrite chars_cons, join_runs_cons, !length_app, run_chars_length. lia.
Qed.

Lemma len_chars rs : len (chars rs) = len (join_runs rs).
Proof. unfold len. by rewrite chars_length. Qed.

(** The texts of the styled characters spell the flattened text. *)
Lemma chars_text rs : join_runs (chars rs) = join_runs rs.
Proof.
  induction rs as [| r rs IH]; [done |].
  rewrite chars_cons, join_runs_app, join_runs_cons, IH. f_equal.
  unfold run_chars. induction (r_text r) as [| ch t IHt]; [done |].
  simpl. rewrite join_runs_cons. simpl. by rewrite IHt.
Qed.

Lemma run_chars_with_text r t :
  run_chars (with_text r t) = map (fun ch => with_text r [ch]) t.
Proof. done. Qed.

Lemma run_chars_split r l1 l2 :
  r_text r = l1 ++ l2 ->
  run_chars (with_text r l1) ++ run_chars (with_text r l2) = run_chars r.
Proof.
  intros Hr. rewrite !run_chars_with_text. unfold run_chars.
  by rewrite Hr, map_app.
Qed.

Lemma same_style_eq l r :
  same_style l r = true ->
  bold l = bold r /\ italic l = italic r /\ underline l = underline r
  /\ color l = color r.
Proof.
  unfold same_style, strict_eq. rewrite !andb_true_iff, !bool_decide_eq_true.
  tauto.
Qed.

Lemma same_style_refl r t1 t2 : same_style (with_text r t1) (with_text r t2) = true.
Proof.
  unfold same_style, strict_eq. simpl.
  rewrite !andb_true_iff, !bool_decide_eq_true. done.
Qed.

Lemma same_style_chars l r :
  same_style l r = true ->
  run_chars (with_text l (r_text l ++ r_text r)) = run_chars l ++ run_chars r.
Proof.
  intros (Hb & Hi & Hu & Hc)%same_style_eq.
  rewrite run_chars_with_text, map_app. unfold run_chars, with_text.
  by rewrite Hb, Hi, Hu, Hc.
Qed.

Lemma chars_snoc out r : chars (out ++ [r]) = chars out ++ run_chars r.
Proof. rewrite chars_app, chars_cons, chars_nil. by rewrite app_nil_r. Qed.

Lemma merge_step_chars out r :
  chars (merge_step out r) = chars out ++ run_chars r.
Proof.
  unfold merge_step. destruct (last out) as [l |] eqn:Hl.
  - destruct (same_style l r) eqn:Hs.
    + apply last_Some in Hl as [out' ->]. rewrite removelast_last.
      rewrite !chars_snoc, same_style_chars by done. by rewrite app_assoc.
    + apply chars_snoc.
  - apply chars_snoc.
Qed.

Lemma fold_merge_chars rs out :
  chars (fold_left merge_step rs out) = chars out ++ chars rs.
Proof.
  revert out. induction rs as [| r rs IH]; intros out; simpl.
  - by rewrite chars_nil, app_nil_r.
  - by rewrite IH, merge_step_chars, chars_cons, app_assoc.
Qed.

(** Merging adjacent runs changes no character and no style of one. *)
Lemma merge_runs_chars rs : chars (merge_runs rs) = chars rs.
Proof. unfold merge_runs. by rewrite fold_merge_chars. Qed.

(** ** The shape of the buffer after [_splitAt] *)

(** [_splitAt] leaves the buffer as it is, or cuts one run in two non-empty
    parts of the same style. *)
Lemma splitAt_shape index m m' at_ :
  text_cached m -> _splitAt index m = (m', at_) ->
  m' = m
  \/ exists p r q l1 l2,
       runs m = p ++ r :: q /\ r_text r = l1 ++ l2 /\ l1 <> [] /\ l2 <> []
       /\ len (join_runs p) + len l1 = clamp index (len (text m))
       /\ m' = mkModel (p ++ with_text r l1 :: with_text r l2 :: q)
                 (text m) (_version m)
       /\ at_ = len p + 1.
Proof.
  intros Hc. unfold _splitAt.
  pose proof (clamp_range index _ (len_nonneg (text m))) as Hidx.
  set (idx := clamp index (len (text m))) in *.
  destruct (locate_cached m idx Hc Hidx)
    as [[Hnil H0] | (p & r & q & Hr & Hloc & Hle & Hp)].
  - unfold _locate. rewrite Hnil. simpl. intros [= <- <-]. by left.
  - rewrite Hloc, Hr, nthZ_middle.
    destruct (Z.eqb_spec (idx - len (join_runs p)) 0) as [Hoff | Hoff].
    { intros [= <- <-]. by left. }
    destruct (Z.eqb_spec (idx - len (join_runs p)) (len (r_text r)))
      as [Hfull | Hpart].
    { intros [= <- <-]. by left. }
    intros [= <- <-]. right. rewrite splice_middle. simpl.
    set (off := idx - len (join_runs p)) in *.
    assert (Hoff_range : 0 < off < len (r_text r)).
    { destruct Hp as [-> | Hp]; [| lia].
      assert (len (join_runs []) = 0) by done. lia. }
    assert (Hleft : len (slice (r_text r) 0 off) = off).
    { apply len_slice_0. lia. }
    exists p, r, q, (slice (r_text r) 0 off), (slice_from (r_text r) off).
    split_and!; try done.
    + by rewrite slice_0_slice_from.
    + intros E. rewrite E in Hleft. change (len (@nil N)) with 0 in Hleft. lia.
    + rewrite slice_from_drop by lia. intros E.
      apply (f_equal length) in E. rewrite length_drop in E.
      unfold len in *. simpl in E. lia.
    + lia.
Qed.

(** [_splitAt] changes no character and no style of one. *)
Lemma splitAt_chars index m m' at_ :
  text_cached m -> _splitAt index m = (m', at_) ->
  chars (runs m') = chars (runs m).
Proof.
  intros Hc Hs.
  destruct (splitAt_shape _ _ _ _ Hc Hs)
    as [-> | (p & r & q & l1 & l2 & Hr & Ht & _ & _ & _ & -> & _)]; [done |].
  simpl. rewrite Hr, !chars_app, !chars_cons.
  by rewrite (app_assoc (run_chars _)), run_chars_split.
Qed.

(** The runs before a boundary hold the characters before it. *)
Lemma chars_boundary rs pre post n :
  rs = pre ++ post -> len (join_runs pre) = n ->
  chars pre = take (Z.to_nat n) (chars rs)
  /\ chars post = drop (Z.to_nat n) (chars rs).
Proof.
  intros -> Hn. apply app_take_drop; [apply chars_app |].
  by rewrite len_chars.
Qed.

Lemma clamp_text_chars m :
  text_cached m -> len (text m) = len (chars (runs m)).
Proof. intros ->. by rewrite len_chars. Qed.

(** ** Two boundaries, as [deleteRange], [applyStyle] and [getRunsInRange]
    force them *)

Lemma join_runs_prefix_le p rs :
  p `prefix_of` rs -> len (join_runs p) <= len (join_runs rs).
Proof.
  intros [k ->]. rewrite join_runs_app, len_app.
  pose proof (len_nonneg (join_runs k)). lia.
Qed.

Lemma prefix_length_le {A} (p q l : list A) :
  p `prefix_of` l -> q `prefix_of` l -> (length p <= length q)%nat ->
  p `prefix_of` q.
Proof.
  intros Hp Hq Hlen.
  destruct (prefix_weak_total p q l Hp Hq) as [H | [k ->]]; [done |].
  rewrite length_app in Hlen. destruct k; [| simpl in Hlen; lia].
  by rewrite app_nil_r.
Qed.

(** A buffer that has a run boundary at an offset is left as it is by
    [_splitAt] at that offset. *)
Lemma splitAt_at_boundary idx m pre post m' at_ :
  text_cached m -> runs m = pre ++ post -> len (join_runs pre) = idx ->
  0 <= idx <= len (text m) ->
  _splitAt idx m = (m', at_) -> m' = m.
Proof.
  intros Hc Hr Hlen Hidx Hs.
  destruct (splitAt_shape _ _ _ _ Hc Hs)
    as [-> | (p & r & q & l1 & l2 & Hr' & Ht & Hl1 & Hl2 & Hpos & _)];
    [done | exfalso].
  rewrite clamp_id in Hpos by done.
  assert (0 < len l1).
  { destruct l1; [done |]. unfold len. simpl. lia. }
  assert (0 < len l2).
  { destruct l2; [done |]. unfold len. simpl. lia. }
  assert (Hpre : pre `prefix_of` runs m) by (by exists post).
  assert (Hp : p `prefix_of` runs m) by (by exists (r :: q)).
  destruct (prefix_weak_total pre p (runs m) Hpre Hp) as [Hx | [k Hk]].
  - apply join_runs_prefix_le in Hx. lia.
  - subst pre. rewrite Hr', <- app_assoc in Hr. apply app_inv_head in Hr.
    destruct k as [| x k].
    + rewrite app_nil_r in Hlen. lia.
    + injection Hr as <- _. rewrite join_runs_app, join_runs_cons in Hlen.
      rewrite !len_app, Ht, len_app in Hlen.
      pose proof (len_nonneg (join_runs k)). lia.
Qed.

(** Two boundaries forced one after the other, the second not before the
    first: the runs fall into the part before the first offset, the part
    between the two, and the part from the second on. *)
Lemma two_splits lo hi m m1 a m2 b :
  text_cached m -> 0 <= lo <= hi -> hi <= len (text m) ->
  _splitAt lo m = (m1, a) -> _splitAt hi m1 = (m2, b) ->
  text m2 = text m /\ _version m2 = _version m
  /\ exists pre mid post,
       runs m2 = pre ++ mid ++ post /\ a = len pre
       /\ Z.max a b = len pre + len mid
       /\ chars pre = take (Z.to_nat lo) (chars (runs m))
       /\ chars mid
          = take (Z.to_nat hi - Z.to_nat lo)
              (drop (Z.to_nat lo) (chars (runs m)))
       /\ chars post = drop (Z.to_nat hi) (chars (runs m)).
Proof.
  intros Hc Hlo Hhi Hsp1 Hsp2.
  pose proof (splitAt_chars _ _ _ _ Hc Hsp1) as Hch1.
  destruct (splitAt_spec _ _ _ _ Hc Hsp1)
    as (Ht1 & Hv1 & Hj1 & _ & pre1 & post1 & Hr1 & -> & Hlen1 & _).
  pose proof (splitAt_cached _ _ _ _ Hc Hsp1) as Hc1.
  pose proof (splitAt_chars _ _ _ _ Hc1 Hsp2) as Hch2.
  destruct (splitAt_spec _ _ _ _ Hc1 Hsp2)
    as (Ht2 & Hv2 & Hj2 & _ & pre2 & post2 & Hr2 & -> & Hlen2 & Hpre).
  rewrite Ht1 in Hlen2. rewrite clamp_id in Hlen1, Hlen2 by lia.
  split_and!; [congruence | congruence |].
  rewrite <- Hch1, <- Hch2.
  assert (Hcases : (exists mid, pre2 = pre1 ++ mid)
                   \/ (lo = hi /\ len pre2 <= len pre1 /\ m2 = m1)).
  { destruct (Z.eq_dec lo hi) as [<- | Hne].
    - assert (m2 = m1) as ->.
      { apply (splitAt_at_boundary lo m1 pre1 post1 m2 (len pre2)); try done.
        rewrite Ht1. lia. }
      destruct (Z.le_gt_cases (len pre2) (len pre1)) as [Hle | Hgt];
        [by right | left].
      apply (prefix_length_le pre1 pre2 (runs m1)).
      + by exists post1.
      + by exists post2.
      + unfold len in Hgt. lia.
    - left. apply Hpre.
      + rewrite Hr1. by apply prefix_app_r.
      + rewrite Ht1, (clamp_id hi) by lia. lia. }
  destruct Hcases as [[mid ->] | (<- & Hle & ->)].
  - exists pre1, mid, post2. rewrite <- app_assoc in Hr2.
    pose proof (len_nonneg mid).
    split_and!; [done | done | rewrite len_app; lia | | |].
    + by destruct (chars_boundary _ _ _ _ Hr2 Hlen1) as [-> _].
    + rewrite app_assoc in Hr2.
      destruct (chars_boundary _ _ _ _ Hr2 Hlen2) as [Hpm _].
      rewrite <- app_assoc in Hr2.
      destruct (chars_boundary _ _ _ _ Hr2 Hlen1) as [Hp _].
      rewrite chars_app, Hp in Hpm.
      rewrite take_drop_commute.
      replace (Z.to_nat lo + (Z.to_nat hi - Z.to_nat lo))%nat
        with (Z.to_nat hi) by lia.
      rewrite <- Hpm, drop_app_length'; [done |].
      rewrite length_take, chars_length.
      rewrite Hr2, join_runs_app, length_app.
      unfold len in Hlen1. lia.
    + rewrite app_assoc in Hr2.
      by destruct (chars_boundary _ _ _ _ Hr2 Hlen2) as [_ ->].
  - exists pre1, [], post1. change (len (@nil Run)) with 0.
    split_and!; [done | done | lia | | |].
    + by destruct (chars_boundary _ _ _ _ Hr1 Hlen1) as [-> _].
    + by rewrite Nat.sub_diag.
    + by destruct (chars_boundary _ _ _ _ Hr1 Hlen1) as [_ ->].
Qed.

(** The second boundary before the first: the second index returned is not
    above the first. *)
Lemma two_splits_rev lo hi m m1 a m2 b :
  text_cached m -> 0 <= hi < lo -> lo <= len (text m) ->
  _splitAt lo m = (m1, a) -> _splitAt hi m1 = (m2, b) ->
  0 <= b <= a.
Proof.
  intros Hc Hlo Hhi Hsp1 Hsp2.
  destruct (splitAt_spec _ _ _ _ Hc Hsp1)
    as (Ht1 & Hv1 & Hj1 & _ & pre1 & post1 & Hr1 & -> & Hlen1 & _).
  pose proof (splitAt_cached _ _ _ _ Hc Hsp1) as Hc1.
  destruct (splitAt_spec _ _ _ _ Hc1 Hsp2)
    as (Ht2 & Hv2 & Hj2 & _ & pre2 & post2 & Hr2 & -> & Hlen2 & _).
  rewrite Ht1 in Hlen2. rewrite clamp_id in Hlen1, Hlen2 by lia.
  split; [apply len_nonneg |].
  assert (Hpre1 : pre1 `prefix_of` runs m1) by (by exists post1).
  destruct (splitAt_shape _ _ _ _ Hc1 Hsp2)
    as [-> | (p & r & q & l1 & l2 & Hr' & Ht & Hl1 & Hl2 & Hpos & -> & Hb)].
  - destruct (Z.le_gt_cases (len pre2) (len pre1)) as [Hle | Hgt]; [done |].
    assert (Hx : pre1 `prefix_of` pre2).
    { apply (prefix_length_le pre1 pre2 (runs m1)); [done | by exists post2 |].
      unfold len in Hgt. lia. }
    apply join_runs_prefix_le in Hx. lia.
  - rewrite Hb. rewrite Ht1, clamp_id in Hpos by lia.
    pose proof (len_nonneg l1).
    assert (Hp : p `prefix_of` runs m1) by (by exists (r :: q)).
    destruct (prefix_weak_total pre1 p (runs m1) Hpre1 Hp) as [Hx | [k Hk]].
    + apply join_runs_prefix_le in Hx. lia.
    + subst pre1. destruct k as [| x k].
      * rewrite app_nil_r in Hlen1. lia.
      * rewrite len_app. unfold len at 3. simpl.
        pose proof (len_nonneg p). lia.
Qed.

(** ** insertAt and deleteRange on the styled characters *)

(** The styled characters [insertAt] leaves. *)
Lemma insertAt_chars (index : Z) (s : jsstring) (style : option Style)
  (m : TextModel) :
  text_cached m ->
  chars (runs (insertAt index s style m))
  = take (Z.to_nat (clamp index (len (text m)))) (chars (runs m))
    ++ run_chars (styled_run s style)
    ++ drop (Z.to_nat (clamp index (len (text m)))) (chars (runs m)).
Proof.
  intros Hc. unfold insertAt. case_bool_decide as Hs.
  - subst s. change (run_chars (styled_run [] style)) with (@nil Run).
    simpl. by rewrite take_drop.
  - destruct (_splitAt (clamp index (len (text m))) m) as [m1 at_] eqn:Hsp.
    pose proof (splitAt_chars _ _ _ _ Hc Hsp) as Hch.
    destruct (splitAt_spec _ _ _ _ Hc Hsp)
      as (Ht & Hv & Hj & _ & pre & post & Hr & -> & Hlen & _).
    rewrite clamp_idem in Hlen by apply len_nonneg.
    simpl. rewrite merge_runs_chars, Hr.
    pose proof (splice_segment pre [] post [styled_run s style]) as Hsplice.
    simpl in Hsplice. change (len (@nil Run)) with 0 in Hsplice.
    rewrite Hsplice, chars_app, chars_cons.
    destruct (chars_boundary _ _ _ _ Hr Hlen) as [-> ->].
    by rewrite Hch.
Qed.

(** X1. [insertAt(index, s, style)] on a buffer whose text is the cache of
    its runs: the characters of [s], all in the style built from [style],
    are put at the offset clamped to [0, length]; every character already in
    the buffer keeps its style and its order; the text follows; and the
    version goes up by one exactly when [s] is not empty. *)
Theorem insertAt_inserts_styled_characters (index : Z) (s : jsstring)
  (style : option Style) (m : TextModel) :
  text_cached m ->
  let i := Z.to_nat (clamp index (len (text m))) in
  let m' := insertAt index s style m in
  chars (runs m')
  = take i (chars (runs m)) ++ run_chars (styled_run s style)
    ++ drop i (chars (runs m))
  /\ text m' = take i (text m) ++ s ++ drop i (text m)
  /\ _version m' = (if bool_decide (s = []) then _version m
                    else _version m + 1).
Proof.
  intros Hc i m'.
  split_and!; [by apply insertAt_chars | by apply insertAt_text |].
  subst m'. unfold insertAt. case_bool_decide; [done |].
  destruct (_splitAt (clamp index (len (text m))) m) as [m1 at_] eqn:Hsp.
  destruct (splitAt_spec _ _ _ _ Hc Hsp) as (_ & Hv & _). simpl. lia.
Qed.

Lemma insertAt_inserts_styled_characters_witness :
  let m := buffer_abc in
  let i := Z.to_nat (clamp 1 (len (text m))) in
  let m' := insertAt 1 (js "xy") None m in
  chars (runs m')
  = take i (chars (runs m)) ++ run_chars (styled_run (js "xy") None)
    ++ drop i (chars (runs m))
  /\ text m' = take i (text m) ++ js "xy" ++ drop i (text m)
  /\ _version m' = (if bool_decide (js "xy" = []) then _version m
                    else _version m + 1).
Proof.
  apply (insertAt_inserts_styled_characters 1 (js "xy") None buffer_abc).
  reflexivity.
Defined.

(** The styled characters [deleteRange] leaves. *)
Lemma deleteRange_chars (a b : Z) (m : TextModel) :
  text_cached m ->
  chars (runs (deleteRange a b m))
  = take (Z.to_nat (clamp (Z.min a b) (len (text m)))) (chars (runs m))
    ++ drop (Z.to_nat (clamp (Z.max a b) (len (text m)))) (chars (runs m)).
Proof.
  intros Hc. unfold deleteRange. pose proof (len_nonneg (text m)) as Hn.
  destruct (Z.eqb_spec a b) as [-> | Hab].
  { by rewrite Z.min_id, Z.max_id, take_drop. }
  assert (Hswap :
    (if a >? b then (b, a) else (a, b)) = (Z.min a b, Z.max a b)).
  { destruct (Z.gtb_spec a b); f_equal; lia. }
  rewrite Hswap. clear Hswap.
  set (s := clamp (Z.min a b) (len (text m))) in *.
  set (e := clamp (Z.max a b) (len (text m))) in *.
  assert (Hs : 0 <= s <= len (text m)) by by apply clamp_range.
  assert (He : 0 <= e <= len (text m)) by by apply clamp_range.
  destruct (Z.leb_spec e s) as [Hes | Hse].
  { assert (s <= e).
    { unfold s, e, clamp. apply Z.max_le_compat_l, Z.min_le_compat_r. lia. }
    assert (e = s) as -> by lia. by rewrite take_drop. }
  destruct (_splitAt s m) as [m1 ia] eqn:Hsp1.
  destruct (_splitAt e m1) as [m2 ib] eqn:Hsp2.
  destruct (two_splits s e m m1 ia m2 ib Hc) as
    (Ht & Hv & pre & mid & post & Hr & -> & Hmax & Hpre & Hmid & Hpost);
    try done; try lia.
  assert (Hib : ib = len pre + len mid).
  { destruct (splitAt_spec _ _ _ _ Hc Hsp1)
      as (Ht1 & _ & _ & _ & pre1 & post1 & Hr1 & E1 & Hlen1 & _).
    pose proof (splitAt_cached _ _ _ _ Hc Hsp1) as Hc1.
    destruct (splitAt_spec _ _ _ _ Hc1 Hsp2)
      as (_ & _ & _ & _ & pre2 & post2 & Hr2 & -> & Hlen2 & Hp).
    rewrite Ht1 in Hlen2, Hp. rewrite clamp_id in Hlen1, Hlen2, Hp by lia.
    destruct (Hp pre1) as [k Hk].
    { rewrite Hr1. by apply prefix_app_r. }
    { lia. }
    rewrite Hk, len_app in Hmax. rewrite Hk, len_app.
    pose proof (len_nonneg k). lia. }
  assert (Hsplice : splice (runs m2) (len pre) (ib - len pre) [] = pre ++ post).
  { rewrite Hr, Hib.
    replace (len pre + len mid - len pre) with (len mid) by lia.
    apply splice_segment. }
  simpl. rewrite Hsplice, merge_runs_chars, chars_app.
  by rewrite Hpre, Hpost.
Qed.

(** X2. [deleteRange(a, b)] on a buffer whose text is the cache of its runs
    removes the characters from [min(a, b)] to [max(a, b)], both clamped to
    [0, length], and nothing else: the characters before and after keep
    their styles; the version goes up by one exactly when that range is not
    empty. *)
Theorem deleteRange_removes_the_range (a b : Z) (m : TextModel) :
  text_cached m ->
  let lo := Z.to_nat (clamp (Z.min a b) (len (text m))) in
  let hi := Z.to_nat (clamp (Z.max a b) (len (text m))) in
  let m' := deleteRange a b m in
  chars (runs m') = take lo (chars (runs m)) ++ drop hi (chars (runs m))
  /\ text m' = take lo (text m) ++ drop hi (text m)
  /\ _version m' = (if bool_decide (lo = hi) then _version m
                    else _version m + 1).
Proof.
  intros Hc lo hi m'.
  split; [by apply deleteRange_chars |].
  split; [by apply deleteRange_spec |]; subst m'; unfold deleteRange;
    pose proof (len_nonneg (text m)) as Hn.
  destruct (Z.eqb_spec a b) as [-> | Hab].
  { subst lo hi. rewrite Z.min_id, Z.max_id. by rewrite bool_decide_true. }
  assert (Hswap :
    (if a >? b then (b, a) else (a, b)) = (Z.min a b, Z.max a b)).
  { destruct (Z.gtb_spec a b); f_equal; lia. }
  rewrite Hswap. clear Hswap.
  set (s := clamp (Z.min a b) (len (text m))) in *.
  set (e := clamp (Z.max a b) (len (text m))) in *.
  assert (Hs : 0 <= s <= len (text m)) by by apply clamp_range.
  assert (He : 0 <= e <= len (text m)) by by apply clamp_range.
  assert (s <= e).
  { unfold s, e, clamp. apply Z.max_le_compat_l, Z.min_le_compat_r. lia. }
  destruct (Z.leb_spec e s) as [Hes | Hse].
  { rewrite bool_decide_true; [done |]. subst lo hi. f_equal. lia. }
  rewrite bool_decide_false by (subst lo hi; lia).
  destruct (_splitAt s m) as [m1 ia] eqn:Hsp1.
  destruct (_splitAt e m1) as [m2 ib] eqn:Hsp2.
  destruct (splitAt_spec _ _ _ _ Hc Hsp1) as (_ & Hv1 & _).
  pose proof (splitAt_cached _ _ _ _ Hc Hsp1) as Hc1.
  destruct (splitAt_spec _ _ _ _ Hc1 Hsp2) as (_ & Hv2 & _).
  simpl. lia.
Qed.

Lemma deleteRange_removes_the_range_witness :
  let m := buffer_abc in
  let lo := Z.to_nat (clamp (Z.min 2 1) (len (text m))) in
  let hi := Z.to_nat (clamp (Z.max 2 1) (len (text m))) in
  let m' := deleteRange 2 1 m in
  chars (runs m') = take lo (chars (runs m)) ++ drop hi (chars (runs m))
  /\ text m' = take lo (text m) ++ drop hi (text m)
  /\ _version m' = (if bool_decide (lo = hi) then _version m
                    else _version m + 1).
Proof.
  apply (deleteRange_removes_the_range 2 1 buffer_abc). reflexivity.
Defined.

(** ** applyStyle and getRunsInRange on the styled characters *)

Lemma restyle_text p toggle value r :
  r_text (restyle p toggle value r) = r_text r.
Proof. apply set_prop_text. Qed.

Lemma run_chars_restyle p toggle value r :
  run_chars (restyle p toggle value r)
  = map (restyle p toggle value) (run_chars r).
Proof.
  unfold run_chars. rewrite restyle_text, map_map.
  apply map_ext. intros ch. by destruct p.
Qed.

Lemma chars_restyle p toggle value rs :
  chars (map (restyle p toggle value) rs)
  = map (restyle p toggle value) (chars rs).
Proof.
  induction rs as [| r rs IH]; [done |].
  simpl. by rewrite !chars_cons, map_app, IH, run_chars_restyle.
Qed.

(** The loop of [applyStyle] restyles the runs from [a] to [b - 1]. *)
Lemma apply_loop_segment p toggle value pre mid post :
  apply_loop (length mid) (len pre) p toggle value (pre ++ mid ++ post)
  = Ok (pre ++ map (restyle p toggle value) mid ++ post).
Proof.
  revert pre. induction mid as [| r mid IH]; intros pre; [done |].
  cbn [length apply_loop app]. rewrite nthZ_middle. cbn [defined mbind res_bind].
  unfold len at 2. rewrite Nat2Z.id.
  rewrite insert_app_r_alt, Nat.sub_diag by done. cbn [insert list_insert].
  specialize (IH (pre ++ [restyle p toggle value r])).
  rewrite len_app in IH. change (len [restyle p toggle value r]) with 1 in IH.
  rewrite <- !app_assoc in IH. exact IH.
Qed.

(** What [applyStyle] does to the styled characters, the text and the
    version. *)
Lemma applyStyle_chars (a b : Z) (p : Prop_) (toggle : bool)
  (value : jsval) (m : TextModel) :
  text_cached m ->
  let lo := Z.to_nat (clamp (Z.min a b) (len (text m))) in
  let hi := Z.to_nat (clamp (Z.max a b) (len (text m))) in
  exists m',
    applyStyle a b p toggle value m = Ok m'
    /\ chars (runs m')
       = take lo (chars (runs m))
         ++ map (restyle p toggle (default_true value))
              (take (hi - lo) (drop lo (chars (runs m))))
         ++ drop hi (chars (runs m))
    /\ text m' = text m
    /\ _version m' = (if bool_decide (a = b) then _version m
                      else _version m + 1).
Proof.
  intros Hc lo hi. unfold applyStyle. cbv zeta.
  pose proof (len_nonneg (text m)) as Hn.
  destruct (Z.eqb_spec a b) as [-> | Hab].
  { exists m. subst lo hi. rewrite Z.min_id, Z.max_id, Nat.sub_diag.
    rewrite bool_decide_true by done. split_and!; try done.
    simpl. by rewrite take_drop. }
  rewrite bool_decide_false by done.
  assert (Hswap :
    (if a >? b then (b, a) else (a, b)) = (Z.min a b, Z.max a b)).
  { destruct (Z.gtb_spec a b); f_equal; lia. }
  rewrite Hswap. clear Hswap.
  set (s := clamp (Z.min a b) (len (text m))) in *.
  set (e := clamp (Z.max a b) (len (text m))) in *.
  assert (Hs : 0 <= s <= len (text m)) by by apply clamp_range.
  assert (He : 0 <= e <= len (text m)) by by apply clamp_range.
  assert (Hse : s <= e).
  { unfold s, e, clamp. apply Z.max_le_compat_l, Z.min_le_compat_r. lia. }
  destruct (_splitAt s m) as [m1 ia] eqn:Hsp1.
  destruct (_splitAt e m1) as [m2 ib] eqn:Hsp2.
  destruct (two_splits s e m m1 ia m2 ib Hc) as
    (Ht & Hv & pre & mid & post & Hr & -> & Hmax & Hpre & Hmid & Hpost);
    try done; try lia.
  assert (Hcount : Z.to_nat (ib - len pre) = length mid).
  { unfold len in *. lia. }
  rewrite Hcount, Hr, apply_loop_segment. cbn [mbind res_bind].
  eexists. split; [done |]. cbn [runs text _version _rebuildText _mergeAdjacent].
  split_and!.
  - rewrite merge_runs_chars, !chars_app, chars_restyle.
    subst lo hi. by rewrite Hpre, Hmid, Hpost.
  - rewrite merge_runs_join, !join_runs_app.
    assert (Hj : join_runs (map (restyle p toggle (default_true value)) mid)
                 = join_runs mid).
    { unfold join_runs. f_equal. rewrite map_map. apply map_ext.
      intros r. apply restyle_text. }
    rewrite Hj, <- !join_runs_app, <- Hr.
    pose proof (splitAt_cached _ _ _ _ Hc Hsp1) as Hc1.
    pose proof (splitAt_cached _ _ _ _ Hc1 Hsp2) as Hc2.
    by rewrite <- Hc2.
  - lia.
Qed.

(** X3. [applyStyle(a, b, prop, toggle, value)] on a buffer whose text is the
    cache of its runs raises no error and changes property [prop], and only
    it, on the characters from [min(a, b)] to [max(a, b)], both clamped to
    [0, length], and on no other: toggled to the negation of its truthiness,
    or set to [value], which is [true] when the argument is [undefined] or
    left out. The text is kept, and the version goes up by one whenever [a]
    and [b] differ, even if the clamped range is empty. *)
Theorem applyStyle_restyles_the_range (a b : Z) (p : Prop_) (toggle : bool)
  (value : jsval) (m : TextModel) :
  text_cached m ->
  let lo := Z.to_nat (clamp (Z.min a b) (len (text m))) in
  let hi := Z.to_nat (clamp (Z.max a b) (len (text m))) in
  exists m',
    applyStyle a b p toggle value m = Ok m'
    /\ chars (runs m')
       = take lo (chars (runs m))
         ++ map (restyle p toggle (default_true value))
              (take (hi - lo) (drop lo (chars (runs m))))
         ++ drop hi (chars (runs m))
    /\ text m' = text m
    /\ _version m' = (if bool_decide (a = b) then _version m
                      else _version m + 1).
Proof. apply applyStyle_chars. Qed.

(** With [toggle] false and no [value], the middle character of "abc" is
    set to bold. *)
Lemma applyStyle_restyles_the_range_witness :
  exists m',
    applyStyle 1 2 PBold false VUndef buffer_abc = Ok m'
    /\ chars (runs m')
       = take 1 (chars (runs buffer_abc))
         ++ map (restyle PBold false (VBool true))
              (take (2 - 1) (drop 1 (chars (runs buffer_abc))))
         ++ drop 2 (chars (runs buffer_abc))
    /\ text m' = text buffer_abc
    /\ _version m' = _version buffer_abc + 1.
Proof.
  apply (applyStyle_restyles_the_range 1 2 PBold false VUndef buffer_abc).
  reflexivity.
Defined.

Lemma slice_empty {A} (l : list A) a b : 0 <= b <= a -> slice l a b = [].
Proof.
  intros Hab. unfold slice, rel_index.
  destruct (Z.ltb_spec a 0); [lia |]. destruct (Z.ltb_spec b 0); [lia |].
  replace (Z.to_nat (Z.min b (len l) - Z.min a (len l))) with O by lia.
  done.
Qed.

(** X4. [getRunsInRange(start, end)] on a buffer whose text is the cache of
    its runs returns runs that hold, in order and with their styles, exactly
    the characters from [start] to [end], both clamped to [0, length]
    (nothing when [end] is not after [start]); the characters of the buffer,
    its text and its version are left as they were. *)
Theorem getRunsInRange_returns_the_range (start end_ : Z) (m : TextModel) :
  text_cached m ->
  let lo := Z.to_nat (clamp start (len (text m))) in
  let hi := Z.to_nat (clamp end_ (len (text m))) in
  let m' := fst (getRunsInRange start end_ m) in
  chars (snd (getRunsInRange start end_ m))
  = take (hi - lo) (drop lo (chars (runs m)))
  /\ chars (runs m') = chars (runs m)
  /\ text m' = text m /\ _version m' = _version m.
Proof.
  intros Hc lo hi m'. subst m'. unfold getRunsInRange.
  pose proof (len_nonneg (text m)) as Hn.
  set (s := clamp start (len (text m))) in *.
  set (e := clamp end_ (len (text m))) in *.
  assert (Hs : 0 <= s <= len (text m)) by by apply clamp_range.
  assert (He : 0 <= e <= len (text m)) by by apply clamp_range.
  destruct (_splitAt s m) as [m1 ia] eqn:Hsp1.
  destruct (_splitAt e m1) as [m2 ib] eqn:Hsp2.
  cbn [fst snd].
  pose proof (splitAt_chars _ _ _ _ Hc Hsp1) as Hch1.
  pose proof (splitAt_cached _ _ _ _ Hc Hsp1) as Hc1.
  pose proof (splitAt_chars _ _ _ _ Hc1 Hsp2) as Hch2.
  destruct (splitAt_spec _ _ _ _ Hc Hsp1) as (Ht1 & Hv1 & _).
  destruct (splitAt_spec _ _ _ _ Hc1 Hsp2) as (Ht2 & Hv2 & _).
  split_and!; [| congruence | congruence | congruence].
  subst lo hi.
  destruct (Z.le_gt_cases s e) as [Hle | Hgt].
  - destruct (two_splits s e m m1 ia m2 ib Hc) as
      (_ & _ & pre & mid & post & Hr & -> & Hmax & Hpre & Hmid & Hpost);
      try done; try lia.
    rewrite Hr. destruct (Z.le_gt_cases (len pre) ib) as [Hb | Hb].
    + replace ib with (len pre + len mid) by lia.
      by rewrite slice_segment.
    + assert (len mid = 0) as Hm0 by (pose proof (len_nonneg mid); lia).
      apply len_nil_inv in Hm0. subst mid. rewrite <- Hmid.
      destruct (splitAt_spec _ _ _ _ Hc1 Hsp2)
        as (_ & _ & _ & _ & pre2 & post2 & _ & -> & _).
      rewrite slice_empty; [done |]. pose proof (len_nonneg pre2). lia.
  - pose proof (two_splits_rev s e m m1 ia m2 ib Hc) as Hba.
    rewrite slice_empty by (apply Hba; try done; lia).
    replace (Z.to_nat e - Z.to_nat s)%nat with O by lia. done.
Qed.

Lemma getRunsInRange_returns_the_range_witness :
  let m := buffer_abc in
  let lo := Z.to_nat (clamp 1 (len (text m))) in
  let hi := Z.to_nat (clamp 2 (len (text m))) in
  let m' := fst (getRunsInRange 1 2 m) in
  chars (snd (getRunsInRange 1 2 m))
  = take (hi - lo) (drop lo (chars (runs m)))
  /\ chars (runs m') = chars (runs m)
  /\ text m' = text m /\ _version m' = _version m.
Proof.
  apply (getRunsInRange_returns_the_range 1 2 buffer_abc). reflexivity.
Defined.

(** ** Toggling a style twice *)

Lemma three_parts {A} (l : list A) lo hi :
  (lo <= hi)%nat ->
  take lo l ++ take (hi - lo) (drop lo l) ++ drop hi l = l.
Proof.
  intros Hle. rewrite <- (take_drop lo l) at 4. f_equal.
  rewrite <- (take_drop (hi - lo) (drop lo l)) at 2. f_equal.
  rewrite drop_drop. f_equal. lia.
Qed.

Lemma three_parts_inv {A} (x y z : list A) lo hi :
  length x = lo -> length y = (hi - lo)%nat -> (lo <= hi)%nat ->
  take lo (x ++ y ++ z) = x
  /\ take (hi - lo) (drop lo (x ++ y ++ z)) = y
  /\ drop hi (x ++ y ++ z) = z.
Proof.
  intros Hx Hy Hle. split_and!.
  - by rewrite take_app_length' by done.
  - rewrite drop_app_length' by done. by rewrite take_app_length' by done.
  - rewrite app_assoc, drop_app_length'; [done |]. rewrite length_app. lia.
Qed.

Lemma restyle_toggle_twice p v v' r x :
  get_prop p r = VBool x ->
  restyle p true v' (restyle p true v r) = r.
Proof.
  destruct r, p; simpl; intros ->; unfold restyle; simpl;
    by rewrite negb_involutive.
Qed.

Lemma chars_Forall_prop (p : Prop_) (P : jsval -> Prop) rs :
  Forall (fun r => P (get_prop p r)) rs ->
  Forall (fun r => P (get_prop p r)) (chars rs).
Proof.
  induction 1 as [| r rs Hr _ IH]; [constructor |].
  rewrite chars_cons. apply Forall_app. split; [| done].
  unfold run_chars. apply Forall_map, Forall_forall. intros ch _.
  by destruct p.
Qed.

(** X5. Toggling a property twice over the same range, on a buffer whose
    text is the cache of its runs and where that property holds a boolean on
    every run, raises no error and gives every character the style it had;
    the text is kept. *)
Theorem toggle_twice_restores_every_style (a b : Z) (p : Prop_)
  (v v' : jsval) (m : TextModel) :
  text_cached m ->
  Forall (fun r => exists x, get_prop p r = VBool x) (runs m) ->
  exists m1 m2,
    applyStyle a b p true v m = Ok m1
    /\ applyStyle a b p true v' m1 = Ok m2
    /\ chars (runs m2) = chars (runs m)
    /\ text m2 = text m.
Proof.
  intros Hc Hbool.
  destruct (applyStyle_chars a b p true v m Hc) as (m1 & H1 & Hch1 & Ht1 & _).
  assert (Hc1 : text_cached m1).
  { destruct (applyStyle_spec a b p true v m Hc) as (m1' & H1' & _ & Hcase).
    rewrite H1 in H1'. injection H1' as <-.
    destruct Hcase as [-> | [rs ->]]; [done | apply rebuildText_cached]. }
  destruct (applyStyle_chars a b p true v' m1 Hc1)
    as (m2 & H2 & Hch2 & Ht2 & _).
  exists m1, m2. split_and!; [done | done | | congruence].
  rewrite Ht1 in Hch2.
  set (lo := Z.to_nat (clamp (Z.min a b) (len (text m)))) in *.
  set (hi := Z.to_nat (clamp (Z.max a b) (len (text m)))) in *.
  set (cs := chars (runs m)) in *.
  assert (Hle : (lo <= hi)%nat).
  { subst lo hi. apply Z2Nat.inj_le.
    - apply clamp_range, len_nonneg.
    - apply clamp_range, len_nonneg.
    - unfold clamp. apply Z.max_le_compat_l, Z.min_le_compat_r. lia. }
  assert (Hhi : (hi <= length cs)%nat).
  { subst hi cs. rewrite chars_length, <- Hc.
    pose proof (clamp_range (Z.max a b) _ (len_nonneg (text m))).
    unfold len in *. lia. }
  destruct (three_parts_inv (take lo cs)
              (map (restyle p true (default_true v))
                 (take (hi - lo) (drop lo cs)))
              (drop hi cs) lo hi) as (E1 & E2 & E3).
  { rewrite length_take. lia. }
  { rewrite length_map, length_take, length_drop. lia. }
  { done. }
  rewrite Hch2, Hch1, E1, E2, E3, map_map.
  rewrite <- (three_parts cs lo hi Hle) at 4. do 2 f_equal.
  rewrite <- (map_id (take (hi - lo) (drop lo cs))) at 2.
  apply Forall_fmap_ext_1.
  assert (Hall : Forall (fun r => exists x, get_prop p r = VBool x) cs).
  { by apply (chars_Forall_prop p (fun g => exists x, g = VBool x)). }
  apply Forall_take, Forall_drop.
  eapply Forall_impl; [exact Hall |].
  intros r [x Hx]. simpl.
  by apply (restyle_toggle_twice p (default_true v) (default_true v') r x).
Qed.

Lemma toggle_twice_restores_every_style_witness :
  exists m1 m2,
    applyStyle 0 2 PBold true VUndef buffer_abc = Ok m1
    /\ applyStyle 0 2 PBold true VUndef m1 = Ok m2
    /\ chars (runs m2) = chars (runs buffer_abc)
    /\ text m2 = text buffer_abc.
Proof.
  apply (toggle_twice_restores_every_style 0 2 PBold VUndef VUndef buffer_abc).
  - reflexivity.
  - repeat constructor. by exists false.
Defined.

(** ** Merging a buffer that needs no merging *)

Lemma fold_merge_fixed rs out :
  adjacent_distinct (out ++ rs) -> fold_left merge_step rs out = out ++ rs.
Proof.
  revert out. induction rs as [| r rs IH]; intros out Hd; simpl.
  - by rewrite app_nil_r.
  - assert (Hstep : merge_step out r = out ++ [r]).
    { unfold merge_step. destruct (last out) as [l |] eqn:Hl; [| done].
      replace (same_style l r) with false; [done |]. symmetry.
      apply same_style_false.
      apply last_Some in Hl as [out' ->].
      apply (Hd (length out')).
      - rewrite <- !app_assoc. by apply list_lookup_middle.
      - rewrite <- !app_assoc. simpl.
        rewrite lookup_app_r by lia.
        by replace (S (length out') - length out')%nat with 1%nat by lia. }
    rewrite Hstep, IH; rewrite <- app_assoc; done.
Qed.

Lemma merge_runs_fixed rs : adjacent_distinct rs -> merge_runs rs = rs.
Proof. intros Hd. unfold merge_runs. by rewrite fold_merge_fixed. Qed.

Lemma adjacent_distinct_app_l rs1 rs2 :
  adjacent_distinct (rs1 ++ rs2) -> adjacent_distinct rs1.
Proof.
  intros H i a b Ha Hb. apply (H i); by apply lookup_app_l_Some.
Qed.

(** Merging glues the two parts of a run cut by [_splitAt] together again. *)
Lemma merge_step_split out r l1 l2 :
  r_text r = l1 ++ l2 ->
  merge_step (merge_step out (with_text r l1)) (with_text r l2)
  = merge_step out r.
Proof.
  intros Ht.
  assert (Hsnoc : forall o, merge_step (o ++ [with_text r l1]) (with_text r l2)
                            = o ++ [r]).
  { intros o. unfold merge_step.
    rewrite last_snoc, same_style_refl, removelast_last.
    simpl. rewrite <- Ht. by destruct r. }
  unfold merge_step at 2 3. destruct (last out) as [l |] eqn:Hl.
  - change (same_style l (with_text r l1)) with (same_style l r).
    destruct (same_style l r) eqn:Hs; [| apply Hsnoc].
    unfold merge_step. rewrite last_snoc, removelast_last.
    assert (E : forall t1 t2,
      same_style (with_text l t1) (with_text r t2) = same_style l r) by done.
    rewrite E, Hs. simpl. by rewrite Ht, app_assoc.
  - apply Hsnoc.
Qed.

Lemma merge_runs_split p r q l1 l2 :
  r_text r = l1 ++ l2 ->
  merge_runs (p ++ with_text r l1 :: with_text r l2 :: q)
  = merge_runs (p ++ r :: q).
Proof.
  intros Ht. unfold merge_runs. rewrite !fold_left_app. cbn [fold_left].
  by rewrite merge_step_split.
Qed.

(** The cuts of [_splitAt] do not show after a merge. *)
Lemma splitAt_merge index m m' at_ :
  text_cached m -> _splitAt index m = (m', at_) ->
  _mergeAdjacent m' = _mergeAdjacent m.
Proof.
  intros Hc Hs.
  destruct (splitAt_shape _ _ _ _ Hc Hs)
    as [-> | (p & r & q & l1 & l2 & Hr & Ht & _ & _ & _ & -> & _)]; [done |].
  unfold _mergeAdjacent. simpl. by rewrite Hr, merge_runs_split.
Qed.

(** X6. [_mergeAdjacent] is idempotent: on a buffer in which no two adjacent
    runs have the same style it changes nothing, and such is the buffer it
    leaves. *)
Theorem mergeAdjacent_is_idempotent (m : TextModel) :
  _mergeAdjacent (_mergeAdjacent m) = _mergeAdjacent m
  /\ (adjacent_distinct (runs m) -> _mergeAdjacent m = m).
Proof.
  split.
  - unfold _mergeAdjacent. simpl. f_equal.
    apply merge_runs_fixed, merge_runs_distinct.
  - intros Hd. unfold _mergeAdjacent. rewrite merge_runs_fixed by done.
    by destruct m.
Qed.

(** X7. On a buffer whose text is the cache of its runs and in which no two
    adjacent runs have the same style, the cuts [getRunsInRange] leaves in
    the run sequence are undone by [_mergeAdjacent]: the buffer is again
    what it was before the reading. *)
Theorem mergeAdjacent_undoes_getRunsInRange (start end_ : Z)
  (m : TextModel) :
  text_cached m -> adjacent_distinct (runs m) ->
  _mergeAdjacent (fst (getRunsInRange start end_ m)) = m.
Proof.
  intros Hc Hd. unfold getRunsInRange.
  destruct (_splitAt _ m) as [m1 ia] eqn:Hsp1.
  destruct (_splitAt _ m1) as [m2 ib] eqn:Hsp2. cbn [fst].
  pose proof (splitAt_cached _ _ _ _ Hc Hsp1) as Hc1.
  rewrite (splitAt_merge _ _ _ _ Hc1 Hsp2), (splitAt_merge _ _ _ _ Hc Hsp1).
  unfold _mergeAdjacent. rewrite merge_runs_fixed by done. by destruct m.
Qed.

Lemma mergeAdjacent_undoes_getRunsInRange_witness :
  _mergeAdjacent (fst (getRunsInRange 1 2 buffer_abc)) = buffer_abc.
Proof.
  apply (mergeAdjacent_undoes_getRunsInRange 1 2 buffer_abc).
  - reflexivity.
  - apply new_TextModel_distinct.
Defined.

(** ** _locate and _splitAt *)

(** X8. [_locate(index)] on a buffer with at least one run whose text is the
    cache of its runs, for an offset inside the text: the run returned
    exists, the offset returned lies inside it, the runs before it hold
    exactly the characters before [index - off], and it is the first run
    that reaches the offset (only in the first run can [off] be 0). Beyond
    the end of the text the answer is the end of the last run. *)
Theorem locate_addresses_the_offset (m : TextModel) (index : Z) :
  text_cached m -> runs m <> [] ->
  (0 <= index <= len (text m) ->
   exists r,
     nthZ (runs m) (fst (_locate m index)) = Some r
     /\ 0 <= snd (_locate m index) <= len (r_text r)
     /\ len (join_runs (take (Z.to_nat (fst (_locate m index))) (runs m)))
        + snd (_locate m index) = index
     /\ (0 < fst (_locate m index) -> 0 < snd (_locate m index)))
  /\ (len (text m) < index ->
      exists r, last (runs m) = Some r
                /\ _locate m index = (len (runs m) - 1, len (r_text r))).
Proof.
  intros Hc Hne. split.
  - intros Hidx.
    destruct (locate_cached m index Hc Hidx)
      as [[Hnil _] | (p & r & q & Hr & Hloc & Hle & Hp)]; [done |].
    rewrite Hloc. cbn [fst snd]. exists r.
    pose proof (len_nonneg p). pose proof (len_nonneg (join_runs p)).
    split_and!.
    + rewrite Hr. apply nthZ_middle.
    + destruct Hp as [-> | Hp]; [| lia].
      change (len (join_runs [])) with 0. lia.
    + lia.
    + replace (Z.to_nat (len p)) with (length p) by (unfold len; lia).
      rewrite Hr, take_app_length. lia.
    + intros Hpos. destruct Hp as [-> | Hp]; [done | lia].
  - intros Hbig. unfold _locate.
    destruct (locate_loop (runs m) 0 0 index) as [[ri off] |] eqn:Hl.
    + apply locate_loop_Some in Hl
        as (p & r & q & Hr & -> & -> & Hle & _).
      exfalso. rewrite Hc, Hr, join_runs_app, join_runs_cons, !len_app in Hbig.
      pose proof (len_nonneg (join_runs q)). lia.
    + destruct (runs m) as [| r0 rs] eqn:Hr; [done |].
      assert (Hlast : exists r, last (r0 :: rs) = Some r).
      { destruct (last (r0 :: rs)) as [r |] eqn:E; [by exists r |].
        by apply last_None in E. }
      destruct Hlast as [r Hlast]. exists r. split; [done |].
      f_equal. unfold nthZ.
      assert (0 <= len (r0 :: rs) - 1).
      { unfold len. simpl. lia. }
      destruct (Z.ltb_spec (len (r0 :: rs) - 1) 0); [lia |].
      rewrite last_lookup in Hlast.
      replace (Z.to_nat (len (r0 :: rs) - 1)) with (pred (length (r0 :: rs)))
        by (unfold len; lia).
      by rewrite Hlast.
Qed.

Lemma locate_addresses_the_offset_witness :
  (exists r,
     nthZ (runs buffer_abc) (fst (_locate buffer_abc 2)) = Some r
     /\ 0 <= snd (_locate buffer_abc 2) <= len (r_text r)
     /\ len (join_runs (take (Z.to_nat (fst (_locate buffer_abc 2)))
                          (runs buffer_abc)))
        + snd (_locate buffer_abc 2) = 2)
  /\ (exists r, last (runs buffer_abc) = Some r
                /\ _locate buffer_abc 7
                   = (len (runs buffer_abc) - 1, len (r_text r))).
Proof.
  split.
  - destruct (locate_addresses_the_offset buffer_abc 2) as [Hin _];
      [reflexivity | done |].
    destruct Hin as (r & Hr & Ho & Hs & _); [vm_compute; split; discriminate |].
    exists r. split; [exact Hr | split; [exact Ho | exact Hs]].
  - destruct (locate_addresses_the_offset buffer_abc 7) as [_ Hout];
      [reflexivity | done |].
    apply Hout. vm_compute. reflexivity.
Defined.

(** X9. [_splitAt(index)] on a buffer whose text is the cache of its runs
    returns the index of a run boundary at the offset clamped to
    [0, length]: the runs before the returned index hold the characters
    before the offset, the runs from it on the characters from the offset
    on. No character, style, text or version changes, and the run sequence
    grows by one run at most. *)
Theorem splitAt_forces_a_boundary (index : Z) (m : TextModel) :
  text_cached m ->
  let idx := Z.to_nat (clamp index (len (text m))) in
  let m' := fst (_splitAt index m) in
  let at_ := Z.to_nat (snd (_splitAt index m)) in
  chars (take at_ (runs m')) = take idx (chars (runs m))
  /\ chars (drop at_ (runs m')) = drop idx (chars (runs m))
  /\ 0 <= snd (_splitAt index m) <= len (runs m')
  /\ text m' = text m /\ _version m' = _version m
  /\ len (runs m) <= len (runs m') <= len (runs m) + 1.
Proof.
  intros Hc idx m' at_. subst idx m' at_.
  destruct (_splitAt index m) as [m' at_] eqn:Hs. cbn [fst snd].
  pose proof (splitAt_chars _ _ _ _ Hc Hs) as Hch.
  destruct (splitAt_spec _ _ _ _ Hc Hs)
    as (Ht & Hv & Hj & _ & pre & post & Hr & -> & Hlen & _).
  destruct (chars_boundary _ _ _ _ Hr Hlen) as [Hpre Hpost].
  replace (Z.to_nat (len pre)) with (length pre) by (unfold len; lia).
  rewrite Hr, take_app_length, drop_app_length.
  rewrite <- Hr, <- Hch. split_and!; try done.
  - apply len_nonneg.
  - rewrite Hr, len_app. pose proof (len_nonneg post). lia.
  - destruct (splitAt_shape _ _ _ _ Hc Hs)
      as [-> | (p & r & q & l1 & l2 & Hr' & _ & _ & _ & _ & -> & _)]; [lia |].
    rewrite Hr'. simpl. rewrite !len_app. unfold len. simpl. lia.
  - destruct (splitAt_shape _ _ _ _ Hc Hs)
      as [-> | (p & r & q & l1 & l2 & Hr' & _ & _ & _ & _ & -> & _)]; [lia |].
    rewrite Hr'. simpl. rewrite !len_app. unfold len. simpl. lia.
Qed.

Lemma splitAt_forces_a_boundary_witness :
  let m := buffer_abc in
  let idx := Z.to_nat (clamp 1 (len (text m))) in
  let m' := fst (_splitAt 1 m) in
  let at_ := Z.to_nat (snd (_splitAt 1 m)) in
  chars (take at_ (runs m')) = take idx (chars (runs m))
  /\ chars (drop at_ (runs m')) = drop idx (chars (runs m))
  /\ 0 <= snd (_splitAt 1 m) <= len (runs m')
  /\ text m' = text m /\ _version m' = _version m
  /\ len (runs m) <= len (runs m') <= len (runs m) + 1.
Proof.
  apply (splitAt_forces_a_boundary 1 buffer_abc). reflexivity.
Defined.

(** * Further properties of the layout *)

(** ** cutText *)

Section CutText.

Variable measure : jsstring -> jsstring -> Z.

(** The binary search returns its lower bound or an index that passed the
    test. *)
Lemma bsearch_fits fits fuel lo hi :
  bsearch fits fuel lo hi = lo \/ fits (bsearch fits fuel lo hi) = true.
Proof.
  revert lo hi. induction fuel as [| fuel IH]; intros lo hi; simpl;
    [by left |].
  destruct (lo <? hi); [| by left].
  destruct (fits ((lo + hi + 1) / 2)) eqn:Hf.
  - destruct (IH ((lo + hi + 1) / 2) hi) as [-> | H]; by right.
  - apply IH.
Qed.

(** When the test is closed downwards, no index above the one the binary
    search returns passes it. *)
Lemma bsearch_max fits fuel lo hi :
  (forall i j, lo < i <= j -> j <= hi -> fits j = true -> fits i = true) ->
  (Z.to_nat (hi - lo) <= fuel)%nat ->
  forall k, bsearch fits fuel lo hi < k <= hi -> fits k = false.
Proof.
  revert lo hi. induction fuel as [| fuel IH]; intros lo hi Hdown Hfuel k Hk;
    simpl in Hk.
  - lia.
  - destruct (Z.ltb_spec lo hi) as [Hlt | Hge]; [| lia].
    assert (lo < (lo + hi + 1) / 2 <= hi) as Hmid.
    { split.
      - apply Z.lt_le_trans with (lo + 1); [lia |].
        apply Z.div_le_lower_bound; lia.
      - apply Z.div_le_upper_bound; lia. }
    destruct (fits ((lo + hi + 1) / 2)) eqn:Hf.
    + apply (IH ((lo + hi + 1) / 2) hi); [| lia | done].
      intros i j Hi Hj. apply Hdown; lia.
    + destruct (Z.le_gt_cases ((lo + hi + 1) / 2) k) as [Hge | Hlt'].
      * destruct (fits k) eqn:Hfk; [| done].
        rewrite (Hdown ((lo + hi + 1) / 2) k) in Hf; [done | lia | lia | done].
      * apply (IH lo ((lo + hi + 1) / 2 - 1)); [| lia | lia].
        intros i j Hi Hj. apply Hdown; lia.
Qed.

(** The head [cutText] returns is empty or fits. *)
Lemma cutText_fst_fits (p : Paint) (t : jsstring) (width : Z) :
  fst (cutText measure p t width) = []
  \/ measureText measure p (fst (cutText measure p t width)) <= width.
Proof.
  unfold cutText.
  destruct (Z.eqb_spec (len t) 0) as [Hz | Hnz]; [by left |].
  destruct (Z.gtb_spec width 0) as [Hw | Hw]; cbn [negb]; [| by left].
  destruct (Z.leb_spec (measureText measure p t) width) as [Hall | Hnot];
    cbn [fst]; [by right |].
  set (fits := fun mid => measureText measure p (slice t 0 mid) <=? width).
  destruct (bsearch_fits fits (length t) 0 (len t)) as [-> | Hf].
  - left. apply slice_empty. lia.
  - right. by apply Z.leb_le in Hf.
Qed.

(** X10. [cutText(text, width)] returns a head and a tail that make up the
    text; the head is empty or its measured width is at most [width]; and
    with a width that is not positive the head is empty. *)
Theorem cutText_head_fits_and_tail_follows (p : Paint) (t : jsstring)
  (width : Z) :
  fst (cutText measure p t width) ++ snd (cutText measure p t width) = t
  /\ (fst (cutText measure p t width) = []
      \/ measureText measure p (fst (cutText measure p t width)) <= width)
  /\ (width <= 0 -> fst (cutText measure p t width) = []).
Proof.
  split_and!; [| apply cutText_fst_fits |]; unfold cutText.
  - destruct (Z.eqb_spec (len t) 0) as [Hz | Hnz].
    { by apply len_nil_inv in Hz as ->. }
    destruct (negb _); [done |].
    destruct (_ <=? _); cbn [fst snd]; [apply app_nil_r |].
    apply slice_0_slice_from.
  - intros Hw. destruct (len t =? 0); [done |].
    destruct (Z.gtb_spec width 0) as [Hpos | _]; [lia | done].
Qed.

(** X11. When a longer prefix of the text never measures less than a shorter
    one and the width is positive, the head [cutText] returns is the longest
    prefix of the text that fits: every longer prefix is wider than
    [width]. *)
Theorem cutText_head_is_the_longest_fit (p : Paint) (t : jsstring)
  (width : Z) :
  (forall i j, (i <= j <= length t)%nat ->
               measureText measure p (take i t)
               <= measureText measure p (take j t)) ->
  0 < width ->
  forall k, (length (fst (cutText measure p t width)) < k <= length t)%nat ->
            width < measureText measure p (take k t).
Proof.
  intros Hmono Hw k Hk. unfold cutText in Hk.
  destruct (Z.eqb_spec (len t) 0) as [Hz | Hnz].
  { apply len_nil_inv in Hz as ->. simpl in Hk. lia. }
  destruct (Z.gtb_spec width 0) as [_ | Hle]; [| lia]. cbn [negb] in Hk.
  destruct (Z.leb_spec (measureText measure p t) width) as [Hall | Hnot];
    cbn [fst] in Hk; [lia |].
  set (fits := fun mid => measureText measure p (slice t 0 mid) <=? width)
    in *.
  pose proof (bsearch_range fits (length t) 0 (len t) (len_nonneg t)) as Hr.
  rewrite slice_0_take in Hk by done.
  rewrite length_take in Hk.
  assert (Hfk : fits (Z.of_nat k) = false).
  { apply (bsearch_max fits (length t) 0 (len t)).
    - intros i j Hi Hj. unfold fits. rewrite !Z.leb_le.
      rewrite !slice_0_take by lia. intros Hfit.
      etransitivity; [| exact Hfit]. apply Hmono. unfold len in *. lia.
    - unfold len. lia.
    - unfold len in *. lia. }
  unfold fits in Hfk. apply Z.leb_gt in Hfk.
  rewrite slice_0_take, Nat2Z.id in Hfk by (unfold len; lia). done.
Qed.

End CutText.

Lemma cutText_head_is_the_longest_fit_witness :
  35 < measureText (fixed_pitch 10) (mkPaint [] []) (take 4 (js "abcdef")).
Proof.
  apply (cutText_head_is_the_longest_fit (fixed_pitch 10) (mkPaint [] [])
           (js "abcdef") 35).
  - intros i j Hij. unfold measureText, fixed_pitch, len.
    rewrite !length_take. lia.
  - lia.
  - vm_compute. lia.
Defined.

(** ** The lines against the available width *)

Section LinesFit.

Variable measure : jsstring -> jsstring -> Z.
Variable c : TextControl.
Variable W : Z.

Hypothesis measure_mono :
  forall font (s : jsstring) n, measure font (take n s) <= measure font s.

Lemma shrink_fits p n f :
  (length f <= S n)%nat ->
  len (shrink measure c W p n f) <= 1
  \/ measureText measure p (shrink measure c W p n f ++ hyphen_of (options c))
     <= W.
Proof.
  revert f. induction n as [| n IH]; intros f Hf; simpl.
  - left. unfold len. lia.
  - destruct (Z.gtb_spec (len f) 1) as [Hgt | Hle]; cbn [andb]; [| by left].
    destruct (Z.gtb_spec (measureText measure p
                (f ++ (if bool_decide (hyphenChar (options c) = [])
                       then js "-" else hyphenChar (options c)))) W)
      as [Hwide | Hfit]; [| by right].
    apply IH. pose proof (len_drop_last f Hgt). lia.
Qed.

Lemma charAt_len {A} (s : list A) i : len (charAt s i) <= 1.
Proof.
  unfold charAt. destruct (i <? 0); [done |].
  by destruct (s !! Z.to_nat i).
Qed.

(** Every line the plain loop adds fits, or had to be emitted. *)
Lemma plain_loop_fits p fuel rest off lines r :
  let P := line_fits measure (p_font p) (hyphen_of (options c)) W in
  Forall P lines ->
  plain_loop measure c W p fuel rest off lines = Ok r ->
  Forall P (fst r).
Proof.
  intros P. revert rest off lines.
  induction fuel as [| fuel IH]; intros rest off lines Hl; [done |].
  rewrite plain_loop_S.
  destruct (len rest >? 0); [| by intros [= <-]].
  cbv zeta.
  assert (Hpush : forall line rest' off',
    P (mkLine line off (off + len line)) ->
    plain_loop measure c W p fuel rest' off' (push lines line off) = Ok r ->
    Forall P (fst r)).
  { intros line rest' off' Hline. apply IH. unfold push.
    apply Forall_app. split; [done |]. by constructor. }
  destruct (cutText_fst_fits measure p rest W) as [Hempty | Hfit].
  { rewrite Hempty. change (len (@nil N) =? 0) with true. cbv iota.
    apply Hpush. right. left. apply charAt_len. }
  set (first := fst (cutText measure p rest W)) in *.
  assert (Hfirst : P (mkLine first off (off + len first))) by by left.
  destruct (len first =? 0).
  { apply Hpush. right. left. apply charAt_len. }
  destruct (_ && (len first <? len rest)); [| by apply Hpush].
  destruct (last_space first >? 0).
  { apply Hpush. left. simpl.
    destruct (slice_0_prefix first (last_space first + 1)) as [k ->].
    etransitivity; [apply measure_mono | exact Hfit]. }
  destruct (hyphenate (options c) && (len first >? 1)) eqn:Hhy;
    [| by apply Hpush].
  apply Hpush. simpl.
  destruct (shrink_fits p (length first) first ltac:(lia)) as [Hone | Hf].
  - right. right.
    assert (1 <= len first).
    { apply andb_true_iff in Hhy as [_ Hgt]. apply Z.gtb_lt in Hgt. lia. }
    pose proof (shrink_len measure c W p (length first) first ltac:(done))
      as Hge.
    destruct (shrink measure c W p (length first) first) as [| ch [| ? ?]];
      [unfold len in Hge; simpl in Hge; lia | by exists ch |
       unfold len in Hone; simpl in Hone; lia].
  - by left.
Qed.

Lemma bump_last_fits font hy lines lines' :
  Forall (line_fits measure font hy W) lines ->
  bump_last lines = Ok lines' ->
  Forall (line_fits measure font hy W) lines'.
Proof.
  intros Hl. unfold bump_last.
  destruct (last lines) as [L |] eqn:HL; [| done].
  apply last_Some in HL as [l' ->]. rewrite removelast_last.
  cbn [defined mbind res_bind]. intros [= <-].
  apply Forall_app in Hl as [Hl' HL]. apply Forall_cons in HL as [HL _].
  apply Forall_app. split; [done |]. by constructor.
Qed.

Lemma paragraphs_loop_fits fuel p ps off lines lines' p' :
  let P := line_fits measure (p_font p) (hyphen_of (options c)) W in
  styleAwareLayout (options c) = false -> wrap (options c) = true ->
  Forall P lines ->
  paragraphs_loop measure c W fuel p ps off lines = Ok (lines', p') ->
  Forall P lines'.
Proof.
  intros P Hplain Hwrap. revert off lines.
  induction ps as [| rest ps IH]; intros off lines Hl.
  { by intros [= <- <-]. }
  rewrite paragraphs_loop_cons.
  destruct (paragraph measure c W fuel p rest off lines)
    as [[[l1 o1] p1] | |] eqn:Hpara; try done.
  cbn [mbind res_bind].
  assert (Hl1 : Forall P l1 /\ p1 = p).
  { unfold paragraph in Hpara. rewrite Hplain, Hwrap in Hpara.
    destruct (len rest =? 0).
    - injection Hpara as <- _ <-. split; [| done].
      apply Forall_app. split; [done |]. constructor; [| done].
      right. left. done.
    - cbn [negb] in Hpara.
      destruct (plain_loop measure c W p fuel rest off lines)
        as [[l o] | |] eqn:Hloop; try done.
      cbn [mbind res_bind] in Hpara. injection Hpara as <- _ <-.
      split; [| done]. by apply (plain_loop_fits _ _ _ _ _ _ Hl Hloop). }
  destruct Hl1 as [Hl1 ->].
  destruct ps as [| rest2 ps]; [by intros [= <- <-] |].
  destruct (bump_last l1) as [l2 | |] eqn:Hb; try done.
  cbn [mbind res_bind]. apply IH.
  by apply (bump_last_fits _ _ _ _ Hl1 Hb).
Qed.

End LinesFit.

(** X12. On the plain path with wrapping on, when a prefix of a string never
    measures more than the string, a new layout returns once the fuel
    exceeds the length of the text, and every line of it fits the available
    width under the font of the layout, save the lines the layout is forced
    to emit: the empty line of an empty paragraph, a single code unit wider
    than the whole width, or such a code unit followed by the hyphen. *)
Theorem wrapped_lines_fit_the_width
  (measure : jsstring -> jsstring -> Z) (fuel : nat) (c : TextControl) :
  (forall font (s : jsstring) n, measure font (take n s) <= measure font s) ->
  styleAwareLayout (options c) = false -> wrap (options c) = true ->
  (length (text (textModel c)) < fuel)%nat ->
  exists k,
    relayout measure fuel c = Ok (set_cache (Some k) c, k)
    /\ c_width k = Z.max 0 (innerWidth c)
    /\ Forall (line_fits measure (l_font (textLayout c))
                 (hyphen_of (options c)) (c_width k)) (c_lines k).
Proof.
  intros Hmono Hplain Hwrap Hfuel.
  destruct (relayout_total measure fuel c Hplain Hfuel) as (k & Hk & _).
  exists k. split; [exact Hk |].
  pose proof Hk as Hk'. unfold relayout in Hk'.
  destruct (paragraphs_loop _ _ _ _ _ _ _ _) as [[lines p'] | |] eqn:Hloop;
    try done.
  cbn [mbind res_bind] in Hk'.
  assert (Ek : k = mkCache (_version (textModel c)) (Z.max 0 (innerWidth c))
                     lines) by congruence.
  rewrite Ek. cbn [c_lines c_width]. split; [done |].
  by apply (paragraphs_loop_fits measure c _ Hmono _ _ _ _ _ _ _
              Hplain Hwrap (Forall_nil_2 _) Hloop).
Qed.

Lemma wrapped_lines_fit_the_width_witness :
  exists k,
    relayout (fixed_pitch 10) 20 scenario_C_control
    = Ok (set_cache (Some k) scenario_C_control, k)
    /\ c_width k = Z.max 0 (innerWidth scenario_C_control)
    /\ Forall (line_fits (fixed_pitch 10)
                 (l_font (textLayout scenario_C_control))
                 (hyphen_of (options scenario_C_control)) (c_width k))
         (c_lines k).
Proof.
  apply (wrapped_lines_fit_the_width (fixed_pitch 10) 20 scenario_C_control).
  - intros font s n. unfold fixed_pitch, len. rewrite length_take. lia.
  - reflexivity.
  - reflexivity.
  - vm_compute. lia.
Defined.

(** ** Wrapping switched off *)

Section Unwrapped.

Variable measure : jsstring -> jsstring -> Z.
Variable c : TextControl.
Variable W : Z.

Hypothesis no_wrap : wrap (options c) = false.

Lemma paragraph_unwrapped fuel p rest off lines :
  (2 <= fuel)%nat ->
  exists L, paragraph measure c W fuel p rest off lines
            = Ok (lines ++ [L], off + len rest, p)
            /\ l_text L = rest.
Proof.
  intros Hfuel. unfold paragraph.
  destruct (Z.eqb_spec (len rest) 0) as [Hz | Hnz].
  { exists (mkLine [] off off). rewrite Hz, Z.add_0_r.
    by apply len_nil_inv in Hz as ->. }
  destruct (styleAwareLayout (options c)).
  - destruct fuel as [| [| fuel]]; [lia | lia |].
    rewrite aware_loop_S.
    assert (Hpos : (len rest >? 0) = true).
    { pose proof (len_nonneg rest). apply Z.gtb_lt. lia. }
    rewrite Hpos, no_wrap. cbn [negb].
    rewrite aware_loop_S.
    assert (Hend : slice_from rest (len rest) = []).
    { rewrite slice_from_drop by (pose proof (len_nonneg rest); lia).
      unfold len. rewrite Nat2Z.id. apply drop_all. }
    rewrite Hend. change (len (@nil N) >? 0) with false. cbv iota.
    by exists (mkLine rest off (off + len rest)).
  - rewrite no_wrap. cbn [negb].
    by exists (mkLine rest off (off + len rest)).
Qed.

Lemma paragraphs_loop_unwrapped fuel p ps off lines :
  (2 <= fuel)%nat ->
  exists lines',
    paragraphs_loop measure c W fuel p ps off lines = Ok (lines', p)
    /\ map l_text lines' = map l_text lines ++ ps.
Proof.
  intros Hfuel. revert off lines.
  induction ps as [| rest ps IH]; intros off lines.
  { exists lines. by rewrite app_nil_r. }
  rewrite paragraphs_loop_cons.
  destruct (paragraph_unwrapped fuel p rest off lines Hfuel) as (L & -> & HL).
  cbn [mbind res_bind]. destruct ps as [| rest2 ps].
  - eexists. split; [done |]. by rewrite map_app, <- HL.
  - rewrite bump_last_snoc. cbn [mbind res_bind].
    destruct (IH (off + len rest + 1)
                (lines ++ [mkLine (l_text L) (l_start L) (l_end L + 1)]))
      as (lines' & -> & Hm).
    exists lines'. split; [done |].
    rewrite Hm, map_app, <- app_assoc. simpl. by rewrite HL.
Qed.

End Unwrapped.

(** X13. With wrapping switched off a recomputation of the layout returns,
    on the plain and on the style-aware path alike, and its lines are the
    paragraphs of the text, one line for each, whatever the width. The
    paint is left as it was found. *)
Theorem unwrapped_lines_are_the_paragraphs
  (measure : jsstring -> jsstring -> Z) (fuel : nat) (c : TextControl) :
  wrap (options c) = false -> (2 <= fuel)%nat ->
  exists k,
    relayout measure fuel c = Ok (set_cache (Some k) c, k)
    /\ map l_text (c_lines k) = split_nl (text (textModel c)).
Proof.
  intros Hwrap Hfuel. unfold relayout.
  destruct (paragraphs_loop_unwrapped measure c (Z.max 0 (innerWidth c))
              Hwrap fuel
              (paint_set_font (l_font (textLayout c)) (paint_save (paint c)))
              (split_nl (text (textModel c))) 0 [] Hfuel)
    as (lines & -> & Hm).
  cbn [mbind res_bind]. rewrite paint_restore_save_font.
  exists (mkCache (_version (textModel c)) (Z.max 0 (innerWidth c)) lines).
  split; [reflexivity | exact Hm].
Qed.

Lemma unwrapped_lines_are_the_paragraphs_witness :
  exists k,
    relayout (fixed_pitch 10) 2
      (sample_control 30 (mkOptions false WordMode false (js "-") true true)
         (js "first paragraph" ++ [newline] ++ js "second"))
    = Ok (set_cache (Some k)
            (sample_control 30
               (mkOptions false WordMode false (js "-") true true)
               (js "first paragraph" ++ [newline] ++ js "second")), k)
    /\ map l_text (c_lines k)
       = split_nl (text (textModel
           (sample_control 30
              (mkOptions false WordMode false (js "-") true true)
              (js "first paragraph" ++ [newline] ++ js "second")))).
Proof.
  apply (unwrapped_lines_are_the_paragraphs (fixed_pitch 10) 2); [done | lia].
Defined.

(** ** lineIndexOf *)

Lemma split_nl_no_newline t : Forall (fun p => newline ∉ p) (split_nl t).
Proof.
  induction t as [| ch t IH]; simpl.
  - constructor; [| done]. apply not_elem_of_nil.
  - destruct (N.eqb_spec ch newline) as [-> | Hne].
    + constructor; [apply not_elem_of_nil | done].
    + destruct (split_nl t) as [| p ps]; [| apply Forall_cons in IH as [Hp Hps]];
        constructor; try done.
      * intros [E | E]%elem_of_cons; [done | by apply not_elem_of_nil in E].
      * intros [E | E]%elem_of_cons; [by subst | done].
Qed.

Lemma covers_exact_subset new para off :
  covers new para off -> Forall exact new ->
  Forall (fun L => forall ch, ch ∈ l_text L -> ch ∈ para) new.
Proof.
  revert para off. induction new as [| L new IH]; intros para off; [done |].
  simpl. intros (_ & _ & t' & -> & Hc) [Hx Hnew]%Forall_cons.
  rewrite (line_source_exact _ Hx). constructor.
  - intros ch Hch. apply elem_of_app. by left.
  - eapply Forall_impl; [by apply (IH t' (l_end L)) |].
    intros L' HL' ch Hch. apply elem_of_app. right. by apply HL'.
Qed.

Section LineIndex.

Variable measure : jsstring -> jsstring -> Z.

Lemma bump_last_texts lines lines' :
  bump_last lines = Ok lines' -> map l_text lines' = map l_text lines.
Proof.
  unfold bump_last. destruct (last lines) as [L |] eqn:HL; [| done].
  apply last_Some in HL as [l' ->]. rewrite removelast_last.
  cbn [defined mbind res_bind]. intros [= <-]. by rewrite !map_app.
Qed.

Lemma paragraphs_loop_wf c W fuel p ps off lines lines' p' :
  no_hyphen (options c) -> ps <> [] -> Forall (fun para => newline ∉ para) ps ->
  paragraphs_loop measure c W fuel p ps off lines = Ok (lines', p') ->
  exists new,
    lines' = lines ++ new
    /\ Forall (fun L => newline ∉ l_text L) new
    /\ exists L, last new = Some L /\ exact L.
Proof.
  intros Hno. revert p off lines.
  induction ps as [| rest ps IH]; intros p off lines Hps Hnl; [done |].
  apply Forall_cons in Hnl as [Hrest Hnl].
  rewrite paragraphs_loop_cons.
  destruct (paragraph measure c W fuel p rest off lines)
    as [[[l1 o1] p1] | |] eqn:Hpara; try done.
  destruct (paragraph_sound measure c W _ _ _ _ _ _ _ _ Hno Hpara)
    as (new1 & -> & -> & [Hcov Hex] & Hne).
  assert (Hnl1 : Forall (fun L => newline ∉ l_text L) new1).
  { eapply Forall_impl; [apply (covers_exact_subset _ _ _ Hcov Hex) |].
    intros L HL Hin. apply Hrest. by apply HL. }
  cbn [mbind res_bind]. destruct ps as [| rest2 ps].
  - intros [= <- <-]. exists new1. split_and!; [done | done |].
    destruct new1 as [| x new1 _] using rev_ind; [done |].
    exists x. rewrite last_snoc. split; [done |].
    apply Forall_app in Hex as [_ Hx]. by apply Forall_cons in Hx as [Hx _].
  - destruct new1 as [| x new1 _] using rev_ind; [done |].
    rewrite app_assoc, bump_last_snoc. cbn [mbind res_bind]. intros Hok.
    destruct (IH _ _ _ ltac:(done) Hnl Hok) as (new2 & -> & Hnl2 & L & HL & Hx).
    exists ((new1 ++ [mkLine (l_text x) (l_start x) (l_end x + 1)]) ++ new2).
    split; [by rewrite <- !app_assoc |]. split.
    + apply Forall_app. split; [| done].
      apply Forall_app in Hnl1 as [Hn1 Hx1]. apply Forall_app. split; [done |].
      apply Forall_cons in Hx1 as [Hx1 _]. by constructor.
    + exists L. split; [| done].
      apply last_Some in HL as [l2 ->]. by rewrite app_assoc, last_snoc.
Qed.

(** Whenever a recomputation that inserts no hyphen returns, the line table
    is well formed. *)
Lemma relayout_wf fuel c c' k :
  no_hyphen (options c) -> relayout measure fuel c = Ok (c', k) ->
  well_formed_lines (c_lines k) (text (textModel c)).
Proof.
  intros Hno Hr. destruct (relayout_covers measure fuel c c' k Hno Hr)
    as [Hcov _].
  split; [done |]. revert Hr. unfold relayout.
  destruct (paragraphs_loop _ _ _ _ _ _ _ _) as [[lines p'] | |] eqn:Hloop;
    try done.
  cbn [mbind res_bind]. intros [= <- <-]. cbn [c_lines].
  destruct (paragraphs_loop_wf _ _ _ _ _ _ _ _ _ Hno (split_nl_nonempty _)
              (split_nl_no_newline _) Hloop) as (new & -> & Hnl & HL).
  done.
Qed.

Lemma nthZ_cons {A} (x : A) l j : 1 <= j -> nthZ (x :: l) j = nthZ l (j - 1).
Proof.
  intros Hj. unfold nthZ.
  destruct (Z.ltb_spec j 0); [lia |]. destruct (Z.ltb_spec (j - 1) 0); [lia |].
  replace (Z.to_nat j) with (S (Z.to_nat (j - 1))) by lia. done.
Qed.

Lemma nthZ_app_middle {A} (pre src post : list A) j :
  len pre <= j < len pre + len src ->
  nthZ (pre ++ src ++ post) j = nthZ src (j - len pre).
Proof.
  intros Hj. pose proof (len_nonneg pre). unfold nthZ.
  destruct (Z.ltb_spec j 0); [lia |].
  destruct (Z.ltb_spec (j - len pre) 0); [lia |].
  rewrite lookup_app_r by (unfold len in *; lia).
  rewrite lookup_app_l by (unfold len in *; lia).
  f_equal. unfold len. lia.
Qed.

Lemma nthZ_elem_of {A} (l : list A) j x : nthZ l j = Some x -> x ∈ l.
Proof.
  intros [_ H]%nthZ_Some. by apply list_elem_of_lookup_2 in H.
Qed.

Lemma nthZ_app_l {A} (l k : list A) j :
  0 <= j < len l -> nthZ (l ++ k) j = nthZ l j.
Proof.
  intros Hj. unfold nthZ. destruct (Z.ltb_spec j 0); [lia |].
  apply lookup_app_l. unfold len in *. lia.
Qed.

(** The line text holds every character of the source of the line but,
    possibly, the last. *)
Lemma line_source_inner L j ch :
  0 <= j < len (line_source L) - 1 -> nthZ (line_source L) j = Some ch ->
  ch ∈ l_text L.
Proof.
  unfold line_source. destruct (_ =? _).
  - rewrite len_app. change (len [newline]) with 1. intros Hj.
    rewrite nthZ_app_l by lia. apply nthZ_elem_of.
  - intros _. apply nthZ_elem_of.
Qed.

(** The loop of [lineIndexOf] on lines that cover the text from [off] on,
    for an offset in what they cover. *)
Lemma line_index_loop_spec full ls t' pre index i n :
  covers ls t' (len pre) -> full = pre ++ t' ->
  Forall (fun L => newline ∉ l_text L) ls ->
  (exists L, last ls = Some L /\ exact L) ->
  len pre <= index <= len pre + len t' -> 0 <= i -> i + len ls = n ->
  exists L,
    nthZ ls (line_index_loop full index ls i n - i) = Some L
    /\ l_start L <= index <= l_end L
    /\ (index = len pre \/ nthZ full (index - 1) = Some newline ->
        l_start L = index).
Proof.
  revert t' pre i.
  induction ls as [| L ls IH]; intros t' pre i Hcov Hfull Hnl Hlast Hidx Hi Hn.
  { by destruct Hlast as (? & ? & _). }
  destruct Hcov as (Hs & He & t'' & -> & Hcov).
  apply Forall_cons in Hnl as [HnlL Hnl].
  pose proof (len_nonneg (line_source L)) as Hsrc.
  assert (HlenL : len (L :: ls) = 1 + len ls) by (unfold len; simpl; lia).
  pose proof (len_nonneg ls) as Hls.
  cbn [line_index_loop].
  destruct (Z.ltb_spec index (l_start L)) as [Hlt | Hge]; [lia |].
  destruct (Z.ltb_spec index (l_end L)) as [Hin | Hout].
  - exists L. rewrite Z.sub_diag. split_and!; [done | lia | lia |].
    intros [E | Hch]; [lia |].
    destruct (Z.eq_dec index (len pre)) as [E | Hne]; [lia | exfalso].
    rewrite Hfull, nthZ_app_middle in Hch by lia.
    apply HnlL. apply (line_source_inner L (index - 1 - len pre)); [lia | done].
  - destruct (Z.eqb_spec index (l_end L)) as [Heq | Hneq].
    + destruct (bool_decide (nthZ full (l_end L - 1) = Some newline)
                && (i + 1 <? n)) eqn:Hnext.
      * apply andb_true_iff in Hnext as [_ Hi1]. apply Z.ltb_lt in Hi1.
        destruct ls as [| L' ls]; [unfold len in *; simpl in *; lia |].
        destruct Hcov as (Hs' & He' & _).
        exists L'. replace (i + 1 - i) with 1 by lia.
        split_and!; [done | lia | | intros _; lia].
        pose proof (len_nonneg (line_source L')). lia.
      * exists L. rewrite Z.sub_diag. split_and!; [done | lia | lia |].
        intros [E | Hch]; [lia |].
        destruct (Z.eq_dec index (len pre)) as [E | Hne]; [lia | exfalso].
        rewrite Heq in Hch.
        rewrite (bool_decide_true _ Hch) in Hnext. cbn [andb] in Hnext.
        apply Z.ltb_ge in Hnext.
        assert (ls = []) as -> by (apply len_nil_inv; lia).
        destruct Hlast as (L0 & [= <-] & Hx).
        rewrite Hfull, nthZ_app_middle in Hch by lia.
        rewrite (line_source_exact _ Hx) in *.
        apply HnlL. by apply nthZ_elem_of in Hch.
    + assert (Hgt : l_end L < index) by lia.
      assert (Hne : ls <> []).
      { intros ->. simpl in Hcov. subst t''. rewrite app_nil_r in Hidx. lia. }
      destruct (IH t'' (pre ++ line_source L) (i + 1)) as (L0 & HL0 & Hc0 & Hn0).
      * by rewrite len_app, <- He.
      * by rewrite <- app_assoc.
      * done.
      * destruct Hlast as (L1 & HL1 & Hx). exists L1. split; [| done].
        by destruct ls.
      * rewrite !len_app in *. lia.
      * lia.
      * lia.
      * exists L0. pose proof (nthZ_Some _ _ _ HL0) as [Hr _].
        split; [| split; [done |]].
        -- rewrite nthZ_cons by lia. rewrite <- HL0. f_equal. lia.
        -- intros [E | Hch]; [lia |]. apply Hn0. by right.
Qed.

(** [ensure()] hands out well-formed line tables, and keeps the control one
    whose cached table is well formed. *)
Lemma ensure_wf fuel c c' k :
  no_hyphen (options c) -> layout_wf c ->
  ensure measure fuel c = Ok (c', k) ->
  well_formed_lines (c_lines k) (text (textModel c))
  /\ textModel c' = textModel c /\ _cache (textLayout c') = Some k
  /\ cache_hit c' k /\ layout_wf c'.
Proof.
  intros Hno Hwf He.
  destruct (ensure_cached measure fuel c c' k He) as [Hk Hhit].
  assert (H : well_formed_lines (c_lines k) (text (textModel c))
              /\ textModel c' = textModel c).
  { revert He. unfold ensure.
    destruct (_cache (textLayout c)) as [k0 |] eqn:Hk0.
    - destruct (Z.eqb_spec (c_version k0) (_version (textModel c)))
        as [Hv | Hv]; cbn [andb].
      + destruct (Z.eqb_spec (c_width k0) (Z.max 0 (innerWidth c)))
          as [Hw | Hw].
        * intros [= <- <-]. split; [| done]. by apply Hwf.
        * intros Hr. split; [by apply (relayout_wf fuel c c' k) |].
          by apply relayout_replaces_cache in Hr as (_ & _ & ? & _).
      + intros Hr. split; [by apply (relayout_wf fuel c c' k) |].
        by apply relayout_replaces_cache in Hr as (_ & _ & ? & _).
    - intros Hr. split; [by apply (relayout_wf fuel c c' k) |].
      by apply relayout_replaces_cache in Hr as (_ & _ & ? & _). }
  destruct H as [Hw Hm]. split_and!; try done.
  intros k' Hk' _. rewrite Hk in Hk'. injection Hk' as <-. by rewrite Hm.
Qed.

(** [lineIndexOf] when the cached table answers. *)
Lemma lineIndexOf_hit_eq fuel index c k :
  _cache (textLayout c) = Some k -> cache_hit c k -> c_lines k <> [] ->
  lineIndexOf measure fuel index c
  = Ok (c, line_index_loop (text (textModel c)) index (c_lines k) 0
             (len (c_lines k))).
Proof.
  intros Hk Hhit Hne. unfold lineIndexOf.
  rewrite (ensure_hit measure fuel c k Hk Hhit). cbn [mbind res_bind].
  destruct (Z.eqb_spec (len (c_lines k)) 0) as [Hz | _]; [| done].
  by apply len_nil_inv in Hz.
Qed.

Lemma well_formed_nonempty lines t : well_formed_lines lines t -> lines <> [].
Proof. intros (_ & _ & L & HL & _). by destruct lines. Qed.

(** The line [lineIndexOf] names in a well-formed table. *)
Lemma line_index_wf t lines index :
  well_formed_lines lines t -> 0 <= index <= len t ->
  exists L,
    nthZ lines (line_index_loop t index lines 0 (len lines)) = Some L
    /\ l_start L <= index <= l_end L
    /\ (nthZ t (index - 1) = Some newline -> l_start L = index).
Proof.
  intros (Hcov & Hnl & Hlast) Hidx.
  destruct (line_index_loop_spec t lines t [] index 0 (len lines))
    as (L & HL & Hc & Hn); try done.
  exists L. rewrite Z.sub_0_r in HL.
  split; [done |]. split; [done |]. intros Hch. apply Hn. by right.
Qed.

(** X14. [lineIndexOf(index)] in a configuration that inserts no hyphen, on
    a control whose cached line table, if it answers the present version and
    width, is well formed (no table cached, a table out of date, or the
    table [ensure()] left), for an offset inside the text. On the plain path
    it returns once the fuel exceeds the length of the text. Whenever it
    returns, the line it names exists in the line table, holds the offset
    between its start and its end, and starts at the offset when the offset
    follows a newline (the caret after a line break belongs to the next
    line). *)
Theorem lineIndexOf_finds_the_line (fuel : nat) (index : Z)
  (c : TextControl) :
  no_hyphen (options c) -> layout_wf c ->
  0 <= index <= len (text (textModel c)) ->
  (styleAwareLayout (options c) = false ->
   (length (text (textModel c)) < fuel)%nat ->
   exists c' li, lineIndexOf measure fuel index c = Ok (c', li))
  /\ forall c' li,
       lineIndexOf measure fuel index c = Ok (c', li) ->
       exists k L,
         _cache (textLayout c') = Some k
         /\ nthZ (c_lines k) li = Some L
         /\ l_start L <= index <= l_end L
         /\ (nthZ (text (textModel c)) (index - 1) = Some newline ->
             l_start L = index).
Proof.
  intros Hno Hwf Hidx. unfold lineIndexOf. split.
  - intros Hplain Hfuel.
    destruct (ensure_total measure fuel c Hplain Hfuel) as (c1 & k & ->).
    cbn [mbind res_bind]. destruct (_ =? 0); eauto.
  - intros c' li.
    destruct (ensure measure fuel c) as [[c1 k] | |] eqn:He; try done.
    cbn [mbind res_bind].
    destruct (ensure_wf fuel c c1 k Hno Hwf He) as (Hw & Hm & Hk & _).
    pose proof (well_formed_nonempty _ _ Hw) as Hne.
    destruct (Z.eqb_spec (len (c_lines k)) 0) as [Hz | _].
    { by apply len_nil_inv in Hz. }
    intros [= <- <-]. rewrite Hm.
    destruct (line_index_wf _ _ index Hw Hidx) as (L & HL & Hc & Hn).
    by exists k, L.
Qed.

End LineIndex.

Lemma lineIndexOf_finds_the_line_witness :
  exists c' li k L,
    lineIndexOf (fixed_pitch 10) 9 3
      (sample_control 47 default_options (js "ab" ++ [newline] ++ js "cd"))
    = Ok (c', li)
    /\ _cache (textLayout c') = Some k
    /\ nthZ (c_lines k) li = Some L
    /\ l_start L = 3.
Proof.
  destruct (lineIndexOf_finds_the_line (fixed_pitch 10) 9 3
              (sample_control 47 default_options
                 (js "ab" ++ [newline] ++ js "cd"))) as [Hret Hspec].
  - right. right. reflexivity.
  - intros k Hk. discriminate Hk.
  - vm_compute. split; discriminate.
  - destruct Hret as (c' & li & Hli).
    + reflexivity.
    + vm_compute. lia.
    + destruct (Hspec c' li Hli) as (k & L & Hk & HL & _ & Hnl).
      exists c', li, k, L.
      split; [exact Hli | split; [exact Hk | split; [exact HL |]]].
      apply Hnl. reflexivity.
Defined.

(** * Further properties of the controller *)

(** ** Undo and redo *)

Lemma selection_eta s : mkSel (anchor s) (head s) = s.
Proof. by destruct s. Qed.

Lemma snapshot_restore state c : snapshot (restore state c) = state.
Proof.
  unfold snapshot. destruct (restore_text_selection state c) as [-> ->].
  by destruct state.
Qed.

Lemma last_is_Some {A} (l : list A) : l <> [] -> exists x, last l = Some x.
Proof.
  intros Hne. destruct (last l) as [x |] eqn:E; [by exists x |].
  by apply last_None in E.
Qed.

Lemma removelast_last_eq {A} (l : list A) x :
  last l = Some x -> removelast l ++ [x] = l.
Proof. intros [l' ->]%last_Some. by rewrite removelast_last. Qed.

(** X15. [undo()] and [redo()] are inverse to each other on what a snapshot
    holds and on the two stacks: after [undo()] then [redo()] from a state
    with something to undo, and after [redo()] then [undo()] from a state
    with something to redo, the text, the selection, the undo stack and the
    redo stack are what they were. The buffer itself is not: it holds a
    single run of the default style, and its version went up by two. *)
Theorem undo_and_redo_are_inverse (c : TextControl) :
  (_history c <> [] ->
   text (textModel (redo (undo c))) = text (textModel c)
   /\ selection (redo (undo c)) = selection c
   /\ _history (redo (undo c)) = _history c
   /\ _redo (redo (undo c)) = _redo c
   /\ runs (textModel (redo (undo c))) = [plain_run (text (textModel c))]
   /\ _version (textModel (redo (undo c))) = _version (textModel c) + 2)
  /\ (_redo c <> [] ->
      text (textModel (undo (redo c))) = text (textModel c)
      /\ selection (undo (redo c)) = selection c
      /\ _history (undo (redo c)) = _history c
      /\ _redo (undo (redo c)) = _redo c
      /\ runs (textModel (undo (redo c))) = [plain_run (text (textModel c))]
      /\ _version (textModel (undo (redo c))) = _version (textModel c) + 2).
Proof.
  split.
  - intros Hne. destruct (last_is_Some _ Hne) as [prev Hprev].
    assert (Hu : undo c
                 = restore prev
                     (set_stacks (removelast (_history c))
                        (_redo c ++ [snapshot c]) c)).
    { unfold undo. by rewrite Hprev. }
    assert (Hr : redo (undo c)
                 = restore (snapshot c)
                     (set_stacks (removelast (_history c) ++ [prev])
                        (_redo c) (undo c))).
    { assert (E1 : _redo (undo c) = _redo c ++ [snapshot c]) by by rewrite Hu.
      assert (E2 : _history (undo c) = removelast (_history c))
        by by rewrite Hu.
      assert (E3 : snapshot (undo c) = prev)
        by (rewrite Hu; apply snapshot_restore).
      unfold redo. by rewrite E1, E2, E3, last_snoc, removelast_last. }
    rewrite Hr. split_and!.
    + apply restore_text_selection.
    + simpl. apply selection_eta.
    + simpl. by apply removelast_last_eq.
    + done.
    + simpl. done.
    + rewrite Hu. simpl. lia.
  - intros Hne. destruct (last_is_Some _ Hne) as [next Hnext].
    assert (Hr : redo c
                 = restore next
                     (set_stacks (_history c ++ [snapshot c])
                        (removelast (_redo c)) c)).
    { unfold redo. by rewrite Hnext. }
    assert (Hu : undo (redo c)
                 = restore (snapshot c)
                     (set_stacks (_history c)
                        (removelast (_redo c) ++ [next]) (redo c))).
    { assert (E1 : _history (redo c) = _history c ++ [snapshot c])
        by by rewrite Hr.
      assert (E2 : _redo (redo c) = removelast (_redo c)) by by rewrite Hr.
      assert (E3 : snapshot (redo c) = next)
        by (rewrite Hr; apply snapshot_restore).
      unfold undo. by rewrite E1, E2, E3, last_snoc, removelast_last. }
    rewrite Hu. split_and!.
    + apply restore_text_selection.
    + simpl. apply selection_eta.
    + done.
    + simpl. by apply removelast_last_eq.
    + simpl. done.
    + rewrite Hr. simpl. lia.
Qed.

(** ** The size of the history *)

Lemma len_snoc {A} (l : list A) x : len (l ++ [x]) = len l + 1.
Proof. by rewrite len_app. Qed.

Lemma len_removelast {A} (l : list A) x :
  last l = Some x -> len (removelast l) = len l - 1.
Proof.
  intros [l' ->]%last_Some. rewrite removelast_last, len_snoc. lia.
Qed.

Lemma pushHistory_bounded c :
  len (_history c) <= Z.max 0 (_historyLimit c) ->
  history_bounded (pushHistory c)
  /\ _historyLimit (pushHistory c) = _historyLimit c.
Proof.
  intros Hb. split; [| done]. unfold history_bounded, pushHistory.
  cbn [_history _redo _historyLimit set_stacks].
  change (len (@nil Snapshot)) with 0. rewrite Z.add_0_r.
  pose proof (len_nonneg (_history c)) as Hn.
  destruct (Z.gtb_spec (len (_history c ++ [snapshot c])) (_historyLimit c))
    as [Hgt | Hle].
  - assert (Hd : len (drop 1 (_history c ++ [snapshot c])) = len (_history c)).
    { unfold len. rewrite length_drop, length_app. simpl. lia. }
    by rewrite Hd.
  - rewrite len_snoc in *. lia.
Qed.

Lemma exec_history_bounded op c :
  history_bounded c ->
  history_bounded (exec_history op c)
  /\ _historyLimit (exec_history op c) = _historyLimit c.
Proof.
  unfold history_bounded. intros Hb.
  pose proof (len_nonneg (_history c)). pose proof (len_nonneg (_redo c)).
  destruct op; cbn [exec_history].
  - apply pushHistory_bounded. lia.
  - unfold undo. destruct (last (_history c)) as [prev |] eqn:Hprev; [| done].
    cbn [_history _redo _historyLimit restore invalidate set_dirty
         set_selection set_textModel set_stacks].
    rewrite len_snoc, (len_removelast _ _ Hprev). split; [lia | done].
  - unfold redo. destruct (last (_redo c)) as [next |] eqn:Hnext; [| done].
    cbn [_history _redo _historyLimit restore invalidate set_dirty
         set_selection set_textModel set_stacks].
    rewrite len_snoc, (len_removelast _ _ Hnext). split; [lia | done].
Qed.

(** X16. Under any sequence of [pushHistory()], [undo()] and [redo()], the
    undo stack and the redo stack together never hold more entries than
    [_historyLimit] (none when the limit is negative), once that is so;
    [redo()], which pushes without looking at the limit, cannot break it,
    and the limit itself never changes. *)
Theorem history_never_exceeds_the_limit (ops : list HistoryOp)
  (c : TextControl) :
  history_bounded c ->
  history_bounded (run_history ops c)
  /\ _historyLimit (run_history ops c) = _historyLimit c.
Proof.
  revert c. induction ops as [| op ops IH]; intros c Hb; [done |].
  unfold run_history. cbn [fold_left].
  destruct (exec_history_bounded op c Hb) as [Hb' Hl'].
  destruct (IH _ Hb') as [Hb'' Hl'']. unfold run_history in *.
  split; [done | congruence].
Qed.

Lemma history_never_exceeds_the_limit_witness :
  history_bounded
    (run_history [HPush; HPush; HUndo; HRedo; HUndo; HPush] control_abc)
  /\ _historyLimit
       (run_history [HPush; HPush; HUndo; HRedo; HUndo; HPush] control_abc)
     = _historyLimit control_abc.
Proof.
  apply (history_never_exceeds_the_limit
           [HPush; HPush; HUndo; HRedo; HUndo; HPush] control_abc).
  unfold history_bounded. vm_compute. discriminate.
Defined.

(** ** ensureCaretVisible *)

Section CaretVisible.

Variable measure : jsstring -> jsstring -> Z.

(** What [ensureCaretVisible()] leaves. *)
Lemma ensureCaretVisible_spec (fuel : nat)
  (c : TextControl) :
  styleAwareLayout (options c) = false -> cache_ok c ->
  (length (text (textModel c)) < fuel)%nat ->
  0 <= lineHeight (textLayout c) <= innerHeight c ->
  exists c' k li,
    ensureCaretVisible measure fuel c = Ok c'
    /\ edit_state c' = edit_state c
    /\ _cache (textLayout c') = Some k
    /\ lineIndexOf measure fuel (head (selection c')) c' = Ok (c', li)
    /\ _scrollY c' <= li * lineHeight (textLayout c')
    /\ (li + 1) * lineHeight (textLayout c')
       <= _scrollY c' + innerHeight c'
    /\ 0 <= _scrollY c'
       <= Z.max 0 (len (c_lines k) * lineHeight (textLayout c')
                   - innerHeight c').
Proof.
  intros Hplain Hcache Hfuel Hview. unfold ensureCaretVisible.
  destruct (ensure_ok measure fuel c Hplain Hcache Hfuel)
    as (c1 & k & He & Hne & Hc1).
  destruct (ensure_cached measure fuel c c1 k He) as [Hk Hhit].
  pose proof (ensure_edit measure fuel c c1 k He) as [Hedit Hgeo].
  rewrite He. cbn [mbind res_bind].
  destruct (Z.eqb_spec (len (c_lines k)) 0) as [Hz | _].
  { by apply len_nil_inv in Hz. }
  rewrite (lineIndexOf_hit_eq measure fuel _ c1 k Hk Hhit Hne).
  cbn [mbind res_bind].
  set (li := line_index_loop _ _ _ _ _).
  assert (Hli : 0 <= li < len (c_lines k)).
  { apply line_index_loop_range; [lia | lia |].
    destruct (c_lines k); [done |]. unfold len. simpl. lia. }
  assert (Hlh : lineHeight (textLayout c1) = lineHeight (textLayout c)).
  { destruct Hc1 as [-> | ->]; done. }
  assert (Hih : innerHeight c1 = innerHeight c).
  { unfold innerHeight. rewrite Hgeo.
    destruct Hc1 as [-> | ->]; done. }
  set (h := lineHeight (textLayout c1)) in *.
  set (H := innerHeight c1) in *.
  assert (Hh : 0 <= h <= H) by lia.
  assert (Htop : 0 <= li * h) by (apply Z.mul_nonneg_nonneg; lia).
  assert (Hbot : (li + 1) * h <= len (c_lines k) * h).
  { apply Z.mul_le_mono_nonneg_r; lia. }
  assert (Hbot' : (li + 1) * h = li * h + h) by lia.
  set (top := li * h) in *. set (content := len (c_lines k) * h) in *.
  set (c3 := if top <? _scrollY c1 then _ else _).
  assert (H3 : textModel c3 = textModel c1 /\ selection c3 = selection c1
               /\ textLayout c3 = textLayout c1
               /\ geometry c3 = geometry c1
               /\ edit_state c3 = edit_state c1).
  { subst c3. destruct (_ <? _); [done |]. by destruct (_ >? _). }
  destruct H3 as (Hm3 & Hs3 & Hl3 & Hg3 & He3).
  assert (Hih3 : innerHeight c3 = H).
  { unfold innerHeight. by rewrite Hg3, Hl3. }
  assert (Hs : _scrollY c3 <= top /\ top + h <= _scrollY c3 + H
               \/ _scrollY c3 = top \/ _scrollY c3 = top + h - H).
  { subst c3. rewrite Z.max_r by lia.
    destruct (Z.ltb_spec top (_scrollY c1)); [by right; left |].
    destruct (Z.gtb_spec (top + h) (_scrollY c1 + H)); [by right; right |].
    left. simpl. lia. }
  rewrite Hih3, Hl3. fold h. fold content.
  rewrite (Z.max_r 0 H) by lia.
  set (y := Z.max 0 (Z.min (_scrollY c3) (Z.max 0 (content - H)))).
  assert (Hy : y <= top /\ top + h <= y + H
               /\ 0 <= y <= Z.max 0 (content - H)).
  { subst y. lia. }
  exists (set_scrollY y c3), k, li. split; [done |].
  assert (Hk' : _cache (textLayout (set_scrollY y c3)) = Some k).
  { cbn [textLayout set_scrollY]. by rewrite Hl3. }
  assert (Hhit' : cache_hit (set_scrollY y c3) k).
  { destruct Hhit as [Hv Hw]. split.
    - cbn [textModel set_scrollY]. by rewrite Hm3.
    - unfold innerWidth in *. cbn [textLayout geometry set_scrollY].
      by rewrite Hg3, Hl3. }
  split_and!.
  - transitivity (edit_state c3); [done |]. by rewrite He3.
  - done.
  - rewrite (lineIndexOf_hit_eq measure fuel _ _ k Hk' Hhit' Hne).
    cbn [textModel selection set_scrollY]. by rewrite Hm3, Hs3.
  - cbn [_scrollY textLayout set_scrollY]. rewrite Hl3. fold h. fold top. lia.
  - cbn [_scrollY textLayout set_scrollY]. rewrite Hl3. fold h.
    unfold innerHeight. cbn [geometry textLayout set_scrollY].
    rewrite Hg3, Hl3. fold (innerHeight c1). fold H. lia.
  - cbn [_scrollY set_scrollY]. lia.
  - cbn [_scrollY textLayout set_scrollY]. rewrite Hl3. fold h. fold content.
    unfold innerHeight. cbn [geometry textLayout set_scrollY].
    rewrite Hg3, Hl3. fold (innerHeight c1). fold H. lia.
Qed.

(** X17. [ensureCaretVisible()] on the plain path, the cached line table, if
    any, holding a line, the viewport at least one line high: it returns
    once the fuel exceeds the length of the text, changes nothing of the
    buffer, the selection and the history, and leaves the line of the caret
    (the one [lineIndexOf(head)] names) entirely inside the viewport, with
    the scroll offset between 0 and the height of the content beyond the
    viewport. *)
Theorem ensureCaretVisible_shows_the_caret_line (fuel : nat)
  (c : TextControl) :
  styleAwareLayout (options c) = false -> cache_ok c ->
  (length (text (textModel c)) < fuel)%nat ->
  0 <= lineHeight (textLayout c) <= innerHeight c ->
  exists c' k li,
    ensureCaretVisible measure fuel c = Ok c'
    /\ edit_state c' = edit_state c
    /\ _cache (textLayout c') = Some k
    /\ lineIndexOf measure fuel (head (selection c')) c' = Ok (c', li)
    /\ _scrollY c' <= li * lineHeight (textLayout c')
    /\ (li + 1) * lineHeight (textLayout c')
       <= _scrollY c' + innerHeight c'
    /\ 0 <= _scrollY c'
       <= Z.max 0 (len (c_lines k) * lineHeight (textLayout c')
                   - innerHeight c').
Proof. apply ensureCaretVisible_spec. Qed.

End CaretVisible.

Lemma ensureCaretVisible_shows_the_caret_line_witness :
  exists c' k li,
    ensureCaretVisible (fixed_pitch 10) 20
      (set_scrollY 64 (set_selection (mkSel 9 9) scenario_C_control)) = Ok c'
    /\ edit_state c'
       = edit_state
           (set_scrollY 64 (set_selection (mkSel 9 9) scenario_C_control))
    /\ _cache (textLayout c') = Some k
    /\ lineIndexOf (fixed_pitch 10) 20 (head (selection c')) c' = Ok (c', li)
    /\ _scrollY c' <= li * lineHeight (textLayout c')
    /\ (li + 1) * lineHeight (textLayout c')
       <= _scrollY c' + innerHeight c'
    /\ 0 <= _scrollY c'
       <= Z.max 0 (len (c_lines k) * lineHeight (textLayout c')
                   - innerHeight c').
Proof.
  apply (ensureCaretVisible_shows_the_caret_line (fixed_pitch 10) 20
           (set_scrollY 64 (set_selection (mkSel 9 9) scenario_C_control))).
  - reflexivity.
  - exact I.
  - vm_compute. lia.
  - vm_compute. split; discriminate.
Defined.

(** ** Typing, Backspace and Delete *)

Lemma sel_start_le_end s : sel_start s <= sel_end s.
Proof. unfold sel_start, sel_end. lia. Qed.

Lemma sel_empty_start_end s :
  sel_empty s = true -> sel_start s = head s /\ sel_end s = head s.
Proof. unfold sel_empty, sel_start, sel_end. intros ?%Z.eqb_eq. lia. Qed.

Lemma sel_collapsed pos s :
  sel_start (collapseTo pos s) = pos /\ sel_end (collapseTo pos s) = pos
  /\ sel_empty (collapseTo pos s) = true.
Proof.
  unfold sel_start, sel_end, sel_empty. simpl.
  rewrite Z.eqb_refl. lia.
Qed.

(** Text and styled characters after the removal of [a, b) and the insertion
    of [s] at [a], for offsets inside the text. *)
Lemma replace_range a b s style m :
  text_cached m -> 0 <= a <= b -> b <= len (text m) ->
  let m' := insertAt a s style (deleteRange a b m) in
  text m' = take (Z.to_nat a) (text m) ++ s ++ drop (Z.to_nat b) (text m)
  /\ chars (runs m')
     = take (Z.to_nat a) (chars (runs m)) ++ run_chars (styled_run s style)
       ++ drop (Z.to_nat b) (chars (runs m))
  /\ text_cached m'.
Proof.
  intros Hc Hab Hb m'. subst m'.
  pose proof (deleteRange_cached a b m Hc) as Hc1.
  destruct (deleteRange_spec a b m Hc) as [Ht1 _].
  pose proof (deleteRange_chars a b m Hc) as Hch1.
  rewrite Z.min_l, Z.max_r, !clamp_id in Ht1, Hch1 by lia.
  assert (Hlen1 : len (text (deleteRange a b m)) = len (text m) - (b - a)).
  { rewrite Ht1, len_app. unfold len.
    rewrite length_take, length_drop. unfold len in *. lia. }
  split_and!; [| | by apply insertAt_cached].
  - rewrite insertAt_text by done. rewrite clamp_id by lia. rewrite Ht1.
    rewrite take_app_length' by (rewrite length_take; unfold len in *; lia).
    rewrite drop_app_length' by (rewrite length_take; unfold len in *; lia).
    done.
  - rewrite insertAt_chars by done. rewrite clamp_id by lia. rewrite Hch1.
    assert (length (take (Z.to_nat a) (chars (runs m))) = Z.to_nat a).
    { rewrite length_take, chars_length, <- Hc. unfold len in *. lia. }
    rewrite take_app_length' by done. by rewrite drop_app_length' by done.
Qed.

Section Typing.

Variable measure : jsstring -> jsstring -> Z.

(** The buffer [typeText(s)] leaves, for a selection inside the text. *)
Lemma typed_model_replaces s c :
  text_cached (textModel c) ->
  0 <= sel_start (selection c) ->
  sel_end (selection c) <= len (text (textModel c)) ->
  let a := Z.to_nat (sel_start (selection c)) in
  let b := Z.to_nat (sel_end (selection c)) in
  text (typed_model s c)
  = take a (text (textModel c)) ++ s ++ drop b (text (textModel c))
  /\ chars (runs (typed_model s c))
     = take a (chars (runs (textModel c)))
       ++ run_chars (styled_run s (Some (currentStyle c)))
       ++ drop b (chars (runs (textModel c)))
  /\ text_cached (typed_model s c).
Proof.
  intros Hc Ha Hb a b. subst a b. unfold typed_model.
  pose proof (sel_start_le_end (selection c)) as Hle.
  destruct (sel_empty (selection c)) eqn:Hsel.
  - destruct (sel_empty_start_end _ Hsel) as [E1 E2]. rewrite E1, E2 in *.
    split_and!; [| | by apply insertAt_cached].
    + rewrite insertAt_text by done. by rewrite clamp_id by lia.
    + rewrite insertAt_chars by done. by rewrite clamp_id by lia.
  - by apply replace_range.
Qed.

(** X18. [typeText(s)] on a buffer whose text is the cache of its runs, the
    selection inside the text. On the plain path, the cached line table, if
    any, holding a line, it returns once the fuel exceeds the length of the
    text after the edit. On either layout path, when it returns, the
    selected characters are replaced by those of [s] in the typing style,
    every other character keeps its place and style, and the selection is
    collapsed just after the inserted text. *)
Theorem typeText_replaces_the_selection (fuel : nat) (now : Z)
  (s : jsstring) (c : TextControl) :
  text_cached (textModel c) ->
  0 <= sel_start (selection c) ->
  sel_end (selection c) <= len (text (textModel c)) ->
  let a := Z.to_nat (sel_start (selection c)) in
  let b := Z.to_nat (sel_end (selection c)) in
  (styleAwareLayout (options c) = false -> cache_ok c ->
   (length (text (textModel c)) + length s < fuel)%nat ->
   exists c', typeText measure fuel now s c = Ok c')
  /\ forall c',
       typeText measure fuel now s c = Ok c' ->
       text (textModel c')
       = take a (text (textModel c)) ++ s ++ drop b (text (textModel c))
       /\ chars (runs (textModel c'))
          = take a (chars (runs (textModel c)))
            ++ run_chars (styled_run s (Some (currentStyle c)))
            ++ drop b (chars (runs (textModel c)))
       /\ anchor (selection c') = sel_start (selection c) + len s
       /\ head (selection c') = sel_start (selection c) + len s.
Proof.
  intros Hc Ha Hb a b. split.
  - intros Hplain Hcache Hfuel.
    destruct (typeText_returns measure fuel now s c) as (c' & Hc' & _);
      [done | done |]. by exists c'.
  - intros c' Ht.
    apply typeText_edit in Ht as (Hm & Hs & _).
    destruct (typed_model_replaces s c Hc Ha Hb) as (Htext & Hch & _).
    rewrite Hm, Hs. by split_and!.
Qed.

(** What the Backspace key does to buffer, selection and history. *)
Lemma backspace_effect c :
  text_cached (textModel c) ->
  0 <= sel_start (selection c) ->
  sel_end (selection c) <= len (text (textModel c)) ->
  let a := sel_start (selection c) in
  let b := sel_end (selection c) in
  let lo := Z.to_nat (if sel_empty (selection c) then a - 1 else a) in
  let c' := onKeyDown_Backspace c in
  text (textModel c')
  = take lo (text (textModel c)) ++ drop (Z.to_nat b) (text (textModel c))
  /\ chars (runs (textModel c'))
     = take lo (chars (runs (textModel c)))
       ++ drop (Z.to_nat b) (chars (runs (textModel c)))
  /\ selection c' = (if sel_empty (selection c) && (a <=? 0)
                     then selection c
                     else mkSel (Z.of_nat lo) (Z.of_nat lo))
  /\ _history c' = _history (pushHistory c) /\ _redo c' = []
  /\ text_cached (textModel c').
Proof.
  intros Hc Ha Hb a b lo c'. subst a b lo c'. unfold onKeyDown_Backspace.
  change (selection (pushHistory c)) with (selection c).
  change (textModel (pushHistory c)) with (textModel c).
  pose proof (sel_start_le_end (selection c)) as Hle.
  set (m := textModel c) in *. set (a := sel_start (selection c)) in *.
  set (b := sel_end (selection c)) in *.
  destruct (sel_empty (selection c)) eqn:Hsel; cbn [negb andb].
  - destruct (sel_empty_start_end _ Hsel) as [E1 E2]. fold a in E1. fold b in E2.
    assert (b = a) as Hba by lia. rewrite Hba in *.
    destruct (Z.gtb_spec a 0) as [Hpos | Hzero].
    + destruct (Z.leb_spec a 0) as [? | _]; [lia |].
      cbn [textModel selection _history _redo invalidate set_dirty
           set_selection set_textModel].
      destruct (deleteRange_spec (a - 1) a m Hc) as [Ht _].
      pose proof (deleteRange_chars (a - 1) a m Hc) as Hch.
      rewrite Z.min_l, Z.max_r, !clamp_id in Ht, Hch by lia.
      split_and!; try done.
      * unfold collapseTo. f_equal; lia.
      * by apply deleteRange_cached.
    + destruct (Z.leb_spec a 0) as [_ | ?]; [| lia].
      assert (a = 0) as -> by lia. simpl. rewrite !drop_0.
      by split_and!.
  - cbn [textModel selection _history _redo invalidate set_dirty
         set_selection set_textModel].
    destruct (deleteRange_spec a b m Hc) as [Ht _].
    pose proof (deleteRange_chars a b m Hc) as Hch.
    rewrite Z.min_l, Z.max_r, !clamp_id in Ht, Hch by lia.
    split_and!; try done.
    + unfold collapseTo. f_equal; lia.
    + by apply deleteRange_cached.
Qed.

(** X19. The Backspace key on a buffer whose text is the cache of its runs,
    the selection inside the text: the selected characters are removed, or,
    the selection being empty, the character before the caret, if there is
    one; the other characters keep place and style, and the selection is
    collapsed where the removed text began. Whether or not anything was
    removed (caret at offset 0), a snapshot is recorded first and the redo
    stack is emptied. *)
Theorem backspace_deletes_before_the_caret (c : TextControl) :
  text_cached (textModel c) ->
  0 <= sel_start (selection c) ->
  sel_end (selection c) <= len (text (textModel c)) ->
  let a := sel_start (selection c) in
  let b := sel_end (selection c) in
  let lo := Z.to_nat (if sel_empty (selection c) then a - 1 else a) in
  let c' := onKeyDown_Backspace c in
  text (textModel c')
  = take lo (text (textModel c)) ++ drop (Z.to_nat b) (text (textModel c))
  /\ chars (runs (textModel c'))
     = take lo (chars (runs (textModel c)))
       ++ drop (Z.to_nat b) (chars (runs (textModel c)))
  /\ selection c' = (if sel_empty (selection c) && (a <=? 0)
                     then selection c
                     else mkSel (Z.of_nat lo) (Z.of_nat lo))
  /\ _history c' = _history (pushHistory c) /\ _redo c' = [].
Proof.
  intros Hc Ha Hb a b lo c'.
  destruct (backspace_effect c Hc Ha Hb) as (H1 & H2 & H3 & H4 & H5 & _).
  by split_and!.
Qed.

(** What the Delete key does to buffer, selection and history. *)
Lemma delete_effect c :
  text_cached (textModel c) ->
  0 <= sel_start (selection c) ->
  sel_end (selection c) <= len (text (textModel c)) ->
  let a := sel_start (selection c) in
  let b := sel_end (selection c) in
  let hi := Z.to_nat (if sel_empty (selection c) then b + 1 else b) in
  let c' := onKeyDown_Delete c in
  text (textModel c')
  = take (Z.to_nat a) (text (textModel c)) ++ drop hi (text (textModel c))
  /\ chars (runs (textModel c'))
     = take (Z.to_nat a) (chars (runs (textModel c)))
       ++ drop hi (chars (runs (textModel c)))
  /\ selection c' = (if sel_empty (selection c) then selection c
                     else mkSel a a)
  /\ _history c' = _history (pushHistory c) /\ _redo c' = [].
Proof.
  intros Hc Ha Hb a b hi c'. subst a b hi c'. unfold onKeyDown_Delete.
  change (selection (pushHistory c)) with (selection c).
  change (textModel (pushHistory c)) with (textModel c).
  pose proof (sel_start_le_end (selection c)) as Hle.
  set (m := textModel c) in *. set (a := sel_start (selection c)) in *.
  set (b := sel_end (selection c)) in *.
  pose proof (len_nonneg (text m)) as Hn.
  destruct (sel_empty (selection c)) eqn:Hsel; cbn [negb].
  - destruct (sel_empty_start_end _ Hsel) as [E1 E2]. fold a in E1. fold b in E2.
    assert (b = a) as Hba by lia. rewrite Hba in *.
    destruct (Z.ltb_spec a (len (text m))) as [Hin | Hend].
    + cbn [textModel selection _history _redo invalidate set_dirty
           set_selection set_textModel].
      destruct (deleteRange_spec a (a + 1) m Hc) as [Ht _].
      pose proof (deleteRange_chars a (a + 1) m Hc) as Hch.
      rewrite Z.min_l, Z.max_r, !clamp_id in Ht, Hch by lia.
      by split_and!.
    + assert (a = len (text m)) as Ha' by lia.
      assert (Hd : forall {A} (l : list A), length l = length (text m) ->
                take (Z.to_nat a) l ++ drop (Z.to_nat (a + 1)) l = l).
      { intros A l Hl. rewrite take_ge, drop_ge by (unfold len in *; lia).
        apply app_nil_r. }
      cbn [textModel selection _history _redo invalidate set_dirty
           set_selection set_textModel].
      rewrite !Hd; [by split_and! | | done].
      fold m. by rewrite chars_length, <- Hc.
  - cbn [textModel selection _history _redo invalidate set_dirty
         set_selection set_textModel].
    destruct (deleteRange_spec a b m Hc) as [Ht _].
    pose proof (deleteRange_chars a b m Hc) as Hch.
    rewrite Z.min_l, Z.max_r, !clamp_id in Ht, Hch by lia.
    by split_and!.
Qed.

(** X20. The Delete key on a buffer whose text is the cache of its runs, the
    selection inside the text: the selected characters are removed, or, the
    selection being empty, the character after the caret, if there is one;
    the other characters keep place and style, and the selection is
    collapsed where the removed text began. Whether or not anything was
    removed (caret at the end of the text), a snapshot is recorded first
    and the redo stack is emptied. *)
Theorem delete_key_deletes_after_the_caret (c : TextControl) :
  text_cached (textModel c) ->
  0 <= sel_start (selection c) ->
  sel_end (selection c) <= len (text (textModel c)) ->
  let a := sel_start (selection c) in
  let b := sel_end (selection c) in
  let hi := Z.to_nat (if sel_empty (selection c) then b + 1 else b) in
  let c' := onKeyDown_Delete c in
  text (textModel c')
  = take (Z.to_nat a) (text (textModel c)) ++ drop hi (text (textModel c))
  /\ chars (runs (textModel c'))
     = take (Z.to_nat a) (chars (runs (textModel c)))
       ++ drop hi (chars (runs (textModel c)))
  /\ selection c' = (if sel_empty (selection c) then selection c
                     else mkSel a a)
  /\ _history c' = _history (pushHistory c) /\ _redo c' = [].
Proof. apply delete_effect. Qed.

(** X21. Typing one character at the caret (empty selection, inside the
    text, the text being the cache of the runs) and pressing Backspace.
    On the plain path, the cached line table, if any, holding a line, the
    typing returns once the fuel exceeds the length of the text by more
    than one. On either layout path, when it returns, Backspace gives back
    the text, every character's style, and the selection. *)
Theorem backspace_undoes_typing_a_character (fuel : nat) (now : Z) (ch : N)
  (c : TextControl) :
  text_cached (textModel c) ->
  sel_empty (selection c) = true ->
  0 <= head (selection c) <= len (text (textModel c)) ->
  (styleAwareLayout (options c) = false -> cache_ok c ->
   (length (text (textModel c)) + 1 < fuel)%nat ->
   exists c1, typeText measure fuel now [ch] c = Ok c1)
  /\ forall c1,
       typeText measure fuel now [ch] c = Ok c1 ->
       text (textModel (onKeyDown_Backspace c1)) = text (textModel c)
       /\ chars (runs (textModel (onKeyDown_Backspace c1)))
          = chars (runs (textModel c))
       /\ selection (onKeyDown_Backspace c1) = selection c.
Proof.
  intros Hc Hsel Hhead. split.
  { intros Hplain Hcache Hfuel.
    destruct (typeText_returns measure fuel now [ch] c) as (c1 & Hc1 & _);
      [done | done |]. by exists c1. }
  intros c1 Ht.
  destruct (sel_empty_start_end _ Hsel) as [E1 E2].
  pose proof Ht as Hedit. apply typeText_edit in Hedit as (Hm & Hs & _).
  destruct (typed_model_replaces [ch] c Hc) as (Htext & Hch & Hc1);
    [lia | lia |].
  rewrite <- Hm in Htext, Hch, Hc1. rewrite E1, E2 in *.
  change (len [ch]) with 1 in Hs.
  set (p := head (selection c)) in *.
  assert (Hsel1 : sel_start (selection c1) = p + 1
                  /\ sel_end (selection c1) = p + 1
                  /\ sel_empty (selection c1) = true).
  { rewrite Hs. apply (sel_collapsed (p + 1) (selection c)). }
  destruct Hsel1 as (Hs1 & He1 & Hem1).
  assert (Hlen1 : len (text (textModel c1)) = len (text (textModel c)) + 1).
  { rewrite Htext. unfold len in *.
    rewrite !length_app, length_take, length_drop. simpl. lia. }
  destruct (backspace_effect c1 Hc1) as (Hbt & Hbc & Hbs & _); [lia | lia |].
  rewrite Hem1, Hs1 in Hbt, Hbc, Hbs. rewrite He1 in Hbt, Hbc.
  replace (p + 1 - 1) with p in * by lia.
  destruct (Z.leb_spec (p + 1) 0) as [? | _]; [lia |].
  cbn [andb] in Hbs.
  assert (Hcut : forall {A} (l : list A) (x : list A),
            length x = 1%nat -> (Z.to_nat p <= length l)%nat ->
            take (Z.to_nat p) (take (Z.to_nat p) l ++ x ++ drop (Z.to_nat p) l)
            ++ drop (Z.to_nat (p + 1))
                 (take (Z.to_nat p) l ++ x ++ drop (Z.to_nat p) l) = l).
  { intros A l x Hx Hl.
    rewrite take_app_length' by (rewrite length_take; lia).
    rewrite app_assoc, drop_app_length'.
    - apply take_drop.
    - rewrite length_app, length_take. lia. }
  split_and!.
  - rewrite Hbt, Htext. apply (Hcut _ _ [ch]); [done |]. unfold len in *. lia.
  - rewrite Hbc, Hch. apply Hcut; [done |].
    rewrite chars_length, <- Hc. unfold len in *. lia.
  - rewrite Hbs, Z2Nat.id by lia. unfold sel_empty in Hsel.
    apply Z.eqb_eq in Hsel. destruct (selection c) as [an hd].
    simpl in *. subst p. by rewrite Hsel.
Qed.

End Typing.

Lemma typeText_replaces_the_selection_witness :
  exists c',
    typeText (fixed_pitch 8) 20 1 (js "xy") control_ab_selected = Ok c'
    /\ text (textModel c')
       = take (Z.to_nat (sel_start (selection control_ab_selected)))
           (text (textModel control_ab_selected))
         ++ js "xy"
         ++ drop (Z.to_nat (sel_end (selection control_ab_selected)))
              (text (textModel control_ab_selected))
    /\ chars (runs (textModel c'))
       = take (Z.to_nat (sel_start (selection control_ab_selected)))
           (chars (runs (textModel control_ab_selected)))
         ++ run_chars (styled_run (js "xy")
                         (Some (currentStyle control_ab_selected)))
         ++ drop (Z.to_nat (sel_end (selection control_ab_selected)))
              (chars (runs (textModel control_ab_selected)))
    /\ anchor (selection c')
       = sel_start (selection control_ab_selected) + len (js "xy")
    /\ head (selection c')
       = sel_start (selection control_ab_selected) + len (js "xy").
Proof.
  destruct (typeText_replaces_the_selection (fixed_pitch 8) 20 1 (js "xy")
              control_ab_selected) as [Hret Hspec].
  - reflexivity.
  - vm_compute. discriminate.
  - vm_compute. discriminate.
  - destruct Hret as [c' Hc'].
    + reflexivity.
    + exact I.
    + vm_compute. lia.
    + exists c'. split; [exact Hc' | exact (Hspec c' Hc')].
Defined.

Lemma backspace_deletes_before_the_caret_witness :
  let c := control_ab_selected in
  let a := sel_start (selection c) in
  let b := sel_end (selection c) in
  let lo := Z.to_nat (if sel_empty (selection c) then a - 1 else a) in
  let c' := onKeyDown_Backspace c in
  text (textModel c')
  = take lo (text (textModel c)) ++ drop (Z.to_nat b) (text (textModel c))
  /\ chars (runs (textModel c'))
     = take lo (chars (runs (textModel c)))
       ++ drop (Z.to_nat b) (chars (runs (textModel c)))
  /\ selection c' = (if sel_empty (selection c) && (a <=? 0)
                     then selection c
                     else mkSel (Z.of_nat lo) (Z.of_nat lo))
  /\ _history c' = _history (pushHistory c) /\ _redo c' = [].
Proof.
  apply (backspace_deletes_before_the_caret control_ab_selected).
  - reflexivity.
  - vm_compute. discriminate.
  - vm_compute. discriminate.
Defined.

Lemma delete_key_deletes_after_the_caret_witness :
  let c := control_abc in
  let a := sel_start (selection c) in
  let b := sel_end (selection c) in
  let hi := Z.to_nat (if sel_empty (selection c) then b + 1 else b) in
  let c' := onKeyDown_Delete c in
  text (textModel c')
  = take (Z.to_nat a) (text (textModel c)) ++ drop hi (text (textModel c))
  /\ chars (runs (textModel c'))
     = take (Z.to_nat a) (chars (runs (textModel c)))
       ++ drop hi (chars (runs (textModel c)))
  /\ selection c' = (if sel_empty (selection c) then selection c
                     else mkSel a a)
  /\ _history c' = _history (pushHistory c) /\ _redo c' = [].
Proof.
  apply (delete_key_deletes_after_the_caret control_abc).
  - reflexivity.
  - vm_compute. discriminate.
  - vm_compute. discriminate.
Defined.

Lemma backspace_undoes_typing_a_character_witness :
  exists c1,
    typeText (fixed_pitch 8) 20 1 [120%N] control_abc = Ok c1
    /\ text (textModel (onKeyDown_Backspace c1)) = text (textModel control_abc)
    /\ chars (runs (textModel (onKeyDown_Backspace c1)))
       = chars (runs (textModel control_abc))
    /\ selection (onKeyDown_Backspace c1) = selection control_abc.
Proof.
  destruct (backspace_undoes_typing_a_character (fixed_pitch 8) 20 1 120%N
              control_abc) as [Hret Hspec].
  - reflexivity.
  - reflexivity.
  - vm_compute. split; discriminate.
  - destruct Hret as [c1 Hc1].
    + reflexivity.
    + exact I.
    + vm_compute. lia.
    + exists c1. split; [exact Hc1 | exact (Hspec c1 Hc1)].
Defined.

(** ** From an offset to its x position and back *)

Lemma covers_bounds lines t off :
  covers lines t off ->
  Forall (fun L => off <= l_start L /\ l_start L <= l_end L
                   /\ l_end L <= off + len t) lines.
Proof.
  revert t off. induction lines as [| L lines IH]; intros t off; [done |].
  simpl. intros (Hs & He & t' & -> & Hc).
  pose proof (len_nonneg (line_source L)). pose proof (len_nonneg t').
  rewrite len_app. constructor; [lia |].
  eapply Forall_impl; [apply (IH _ _ Hc) |]. intros L'. simpl. lia.
Qed.

Lemma nthZ_Forall {A} (P : A -> Prop) l i x :
  Forall P l -> nthZ l i = Some x -> P x.
Proof.
  intros Hall [_ Hx]%nthZ_Some. by apply (Forall_lookup_1 P l _ _ Hall Hx).
Qed.

Section RoundTrip.

Variable measure : jsstring -> jsstring -> Z.

Hypothesis measure_strict :
  forall font (s : jsstring) i j,
    (i < j <= length s)%nat ->
    measure font (take i s) < measure font (take j s).

(** The loop of [indexForX] stops at the first offset whose x position
    reaches [x]. *)
Lemma index_for_x_loop_finds p t start endNoNL left j n i :
  0 <= start -> 0 <= i <= j -> start + j <= endNoNL -> endNoNL <= len t ->
  (Z.to_nat (endNoNL - start - i + 1) <= n)%nat ->
  index_for_x_loop measure p t start endNoNL left
    (left + measureText measure p (slice t start (start + j))) n i
  = start + j.
Proof.
  intros Hs. revert i. induction n as [| n IH]; intros i Hi Hj He Hn; [lia |].
  cbn [index_for_x_loop].
  assert (Hslice : forall k, 0 <= k -> start + k <= len t ->
            slice t start (start + k)
            = take (Z.to_nat k) (drop (Z.to_nat start) t)).
  { intros k Hk Hk'. rewrite slice_take_drop by lia. do 2 f_equal. lia. }
  destruct (Z.eq_dec i j) as [-> | Hne].
  - destruct (Z.geb_spec
      (left + measureText measure p (slice t start (start + j)))
      (left + measureText measure p (slice t start (start + j))));
      [done | lia].
  - assert (Hlt : measureText measure p (slice t start (start + i))
                  < measureText measure p (slice t start (start + j))).
    { rewrite !Hslice by lia. apply measure_strict.
      rewrite length_drop. unfold len in *. lia. }
    destruct (Z.geb_spec
      (left + measureText measure p (slice t start (start + i)))
      (left + measureText measure p (slice t start (start + j))));
      [lia |].
    destruct (Z.eqb_spec i (endNoNL - start)); [lia |].
    apply IH; lia.
Qed.

(** X22. When a longer prefix of a string always measures more than a
    shorter one, [indexForX] inverts [xForIndex] on the line [lineIndexOf]
    names: on a control whose cached line table answers the present version
    and width and is well formed, for every offset inside the text, the
    three calls return, leave the control as it was, and the x position of
    the offset leads back to the offset. *)
Theorem indexForX_inverts_xForIndex (fuel : nat) (index : Z)
  (c : TextControl) (k : Cache) :
  _cache (textLayout c) = Some k -> cache_hit c k ->
  well_formed_lines (c_lines k) (text (textModel c)) ->
  0 <= index <= len (text (textModel c)) ->
  exists li x,
    lineIndexOf measure fuel index c = Ok (c, li)
    /\ xForIndex measure fuel index c = Ok (c, x)
    /\ indexForX measure fuel li x c = Ok (c, index).
Proof.
  intros Hk Hhit Hwf Hidx.
  pose proof (well_formed_nonempty _ _ Hwf) as Hne.
  destruct (line_index_wf _ _ index Hwf Hidx) as (L & HL & Hc & Hn).
  set (li := line_index_loop _ _ _ _ _) in *.
  pose proof (nthZ_Some _ _ _ HL) as [Hli _].
  destruct Hwf as (Hcov & Hnl & Llast & Hlast & Hx).
  pose proof (nthZ_Forall _ _ _ _ (covers_bounds _ _ _ Hcov) HL)
    as (Hs0 & Hse & Het).
  rewrite Z.add_0_l in Het.
  set (t := text (textModel c)) in *.
  set (endNoNL := if bool_decide (nthZ t (l_end L - 1) = Some newline)
                  then l_end L - 1 else l_end L).
  assert (Hpaint : forall c0 : TextControl,
            set_paint (paint_restore
              (paint (set_paint (paint_set_font (l_font (textLayout c0))
                                   (paint_save (paint c0))) c0)))
              (set_paint (paint_set_font (l_font (textLayout c0))
                            (paint_save (paint c0))) c0) = c0).
  { intros c0. cbn [paint set_paint]. rewrite paint_restore_save_font.
    by destruct c0. }
  set (c2 := set_paint (paint_set_font (l_font (textLayout c))
                          (paint_save (paint c))) c).
  assert (Hk2 : _cache (textLayout c2) = Some k) by done.
  assert (Hhit2 : cache_hit c2 k) by done.
  (* the offset [xForIndex] measures up to, and the offset found *)
  assert (Hcase : index <= endNoNL \/ (index = l_start L /\ endNoNL < l_start L)).
  { subst endNoNL. case_bool_decide as Hnlc; [| left; lia].
    destruct (Z.eq_dec index (l_end L)) as [Heq | Hneq]; [| left; lia].
    right. rewrite <- Heq in Hnlc. specialize (Hn Hnlc). lia. }
  exists li, (inside_x (geometry c) + g_x (geometry c)
              + border_left (geometry c) + paddingLeft (textLayout c)
              + measureText measure (paint c2)
                  (slice t (l_start L) (Z.min index endNoNL))).
  split_and!.
  - by apply lineIndexOf_hit_eq.
  - unfold xForIndex.
    rewrite (ensure_hit measure fuel c k Hk Hhit). cbn [mbind res_bind].
    fold c2.
    rewrite (lineIndexOf_hit_eq measure fuel index c2 k Hk2 Hhit2 Hne).
    cbn [mbind res_bind]. change (text (textModel c2)) with t. fold li.
    rewrite HL. cbn [defined mbind res_bind]. fold endNoNL.
    subst c2. by rewrite Hpaint.
  - unfold indexForX.
    rewrite (ensure_hit measure fuel c k Hk Hhit). cbn [mbind res_bind].
    fold c2.
    rewrite (Z.min_l li) by lia. rewrite (Z.max_r 0 li) by lia.
    rewrite HL. cbn [defined mbind res_bind].
    change (text (textModel c2)) with t. fold endNoNL.
    subst c2. rewrite Hpaint. do 2 f_equal.
    destruct Hcase as [Hle | [Heq Hlt]].
    + rewrite Z.min_l by lia.
      assert (He : endNoNL <= len t).
      { subst endNoNL. case_bool_decide; lia. }
      pose proof (index_for_x_loop_finds
                    (paint_set_font (l_font (textLayout c))
                       (paint_save (paint c)))
                    t (l_start L) endNoNL
                    (inside_x (geometry c) + g_x (geometry c)
                     + border_left (geometry c) + paddingLeft (textLayout c))
                    (index - l_start L)
                    (Z.to_nat (endNoNL - l_start L + 1)) 0) as Hf.
      replace (l_start L + (index - l_start L)) with index in Hf by lia.
      apply Hf; lia.
    + replace (Z.to_nat (endNoNL - l_start L + 1)) with O by lia.
      cbn [index_for_x_loop]. lia.
Qed.

End RoundTrip.

(** ** Caret movements *)

Section Moves.

Variable measure : jsstring -> jsstring -> Z.

(** What the layout queries leave alone: the scroll offset, the line height
    and the height of the viewport. *)
Lemma ensure_view fuel c c' k :
  ensure measure fuel c = Ok (c', k) ->
  _scrollY c' = _scrollY c
  /\ lineHeight (textLayout c') = lineHeight (textLayout c)
  /\ innerHeight c' = innerHeight c.
Proof.
  unfold ensure. intros He.
  assert (Hr : c' = c
               \/ exists p', c' = set_cache (Some k) (set_paint p' c)).
  { destruct (_cache (textLayout c)) as [k0 |].
    - destruct (_ && _).
      + left. by injection He as <- _.
      + right. apply relayout_inv in He as (p' & -> & _). eauto.
    - right. apply relayout_inv in He as (p' & -> & _). eauto. }
  destruct Hr as [-> | [p' ->]]; done.
Qed.

Lemma lineIndexOf_view fuel index c c' li :
  lineIndexOf measure fuel index c = Ok (c', li) ->
  _scrollY c' = _scrollY c
  /\ lineHeight (textLayout c') = lineHeight (textLayout c)
  /\ innerHeight c' = innerHeight c.
Proof.
  unfold lineIndexOf.
  destruct (ensure measure fuel c) as [[c1 k] | |] eqn:He; try done.
  apply ensure_view in He. cbn [mbind res_bind].
  destruct (_ =? _); by intros [= <- <-].
Qed.

Lemma xForIndex_view fuel index c c' x :
  xForIndex measure fuel index c = Ok (c', x) ->
  _scrollY c' = _scrollY c
  /\ lineHeight (textLayout c') = lineHeight (textLayout c)
  /\ innerHeight c' = innerHeight c.
Proof.
  unfold xForIndex.
  destruct (ensure measure fuel c) as [[c1 k] | |] eqn:He; try done.
  apply ensure_view in He as (E1 & E2 & E3). cbn [mbind res_bind].
  destruct (lineIndexOf measure fuel index _) as [[c3 li] | |] eqn:Hl;
    try done.
  apply lineIndexOf_view in Hl as (F1 & F2 & F3). cbn [mbind res_bind].
  destruct (defined _) as [L | |]; try done.
  cbn [mbind res_bind]. intros [= <- <-].
  unfold innerHeight in *. cbn [_scrollY textLayout geometry set_paint] in *.
  split_and!; congruence.
Qed.

(** The steps every caret movement ends with: the preferred column is
    recorded, the caret shown, the caret line brought into view when
    [keepCaretVisible] is set, the control marked for a new layout. On the
    plain path they return, and change nothing of the buffer, the selection
    and the history. *)
Lemma caret_epilogue fuel now c1 :
  styleAwareLayout (options c1) = false -> cache_ok c1 ->
  (length (text (textModel c1)) < fuel)%nat ->
  exists c',
    caret_moved measure fuel now c1 = Ok c'
    /\ edit_state c' = edit_state c1
    /\ (keepCaretVisible (options c1) = false -> _scrollY c' = _scrollY c1)
    /\ (0 <= lineHeight (textLayout c1) <= innerHeight c1 ->
        keepCaretVisible (options c1) = true ->
        exists k,
          _cache (textLayout c') = Some k /\ cache_hit c' k
          /\ c_lines k <> []
          /\ let li := line_index_loop (text (textModel c1))
                         (head (selection c1)) (c_lines k) 0
                         (len (c_lines k)) in
             _scrollY c' <= li * lineHeight (textLayout c1)
             /\ 0 <= _scrollY c'
                <= Z.max 0 (len (c_lines k) * lineHeight (textLayout c1)
                            - innerHeight c1)).
Proof.
  intros Hplain Hcache Hfuel. unfold caret_moved.
  destruct (xForIndex_ok measure fuel (head (selection c1)) c1)
    as (c2 & x & k & Hx & Hk & Hhit & Hne); try done.
  pose proof (xForIndex_edit measure _ _ _ _ _ Hx) as He2.
  pose proof (xForIndex_view _ _ _ _ _ Hx) as (Hs2 & Hh2 & Hi2).
  rewrite Hx. cbn [mbind res_bind].
  set (c3 := resetCaretBlink now _).
  assert (He3 : edit_state c3 = edit_state c1) by exact He2.
  destruct (edit_state_proj _ _ He3) as [Hm3 Ho3].
  assert (Hsel3 : selection c3 = selection c1).
  { unfold edit_state in He3. by injection He3. }
  rewrite Ho3.
  destruct (keepCaretVisible (options c1)) eqn:Hkeep.
  - assert (Hok3 : cache_ok c3).
    { unfold cache_ok. change (_cache (textLayout c3)) with
        (_cache (textLayout c2)). by rewrite Hk. }
    destruct (ensureCaretVisible_hit measure fuel c3 k) as (c4 & H4 & Hk4);
      try done.
    pose proof (ensureCaretVisible_edit measure _ _ _ H4) as He4.
    rewrite H4. cbn [mbind res_bind].
    eexists. split; [done |]. split_and!.
    + transitivity (edit_state c4); [done | by rewrite He4].
    + done.
    + intros Hview _.
      destruct (ensureCaretVisible_spec measure fuel c3)
        as (c4' & k' & li & H4' & _ & Hk' & Hli & Htop & _ & Hrange).
      { by rewrite Ho3. }
      { done. }
      { by rewrite Hm3. }
      { change (lineHeight (textLayout c3)) with (lineHeight (textLayout c2)).
        change (innerHeight c3) with (innerHeight c2). lia. }
      rewrite H4 in H4'. injection H4' as <-.
      rewrite Hk4 in Hk'. injection Hk' as <-.
      assert (Hhit4 : cache_hit c4 k).
      { unfold ensureCaretVisible in H4.
        rewrite (ensure_hit measure fuel c3 k) in H4 by done.
        cbn [mbind res_bind] in H4.
        destruct (_ =? 0); [by injection H4 as <- |].
        rewrite (lineIndexOf_hit_eq measure fuel _ c3 k) in H4 by done.
        cbn [mbind res_bind] in H4. injection H4 as <-.
        destruct (_ <? _); [done |]. by destruct (_ >? _). }
      rewrite (lineIndexOf_hit_eq measure fuel _ c4 k Hk4 Hhit4 Hne) in Hli.
      injection Hli as Hli.
      destruct (edit_state_proj _ _ He4) as [Hm4 _].
      assert (Hsel4 : selection c4 = selection c3).
      { unfold edit_state in He4. by injection He4. }
      rewrite Hm4, Hsel4, Hm3, Hsel3 in Hli.
      assert (Hv4 : lineHeight (textLayout c4) = lineHeight (textLayout c1)
                    /\ innerHeight c4 = innerHeight c1).
      { unfold ensureCaretVisible in H4.
        rewrite (ensure_hit measure fuel c3 k) in H4 by done.
        cbn [mbind res_bind] in H4.
        destruct (_ =? 0); [injection H4 as <-; by split |].
        rewrite (lineIndexOf_hit_eq measure fuel _ c3 k) in H4 by done.
        cbn [mbind res_bind] in H4. injection H4 as <-.
        destruct (_ <? _); [by split |]. destruct (_ >? _); by split. }
      destruct Hv4 as [Hh4 Hi4].
      exists k. cbn [invalidate set_dirty textLayout _scrollY]. cbv zeta.
      rewrite Hli, <- Hh4, <- Hi4.
      split; [done |]. split; [done |]. split; [done |].
      split; [exact Htop | exact Hrange].
  - cbn [mbind res_bind]. eexists. split; [done |]. split_and!.
    + exact He3.
    + intros _. exact Hs2.
    + done.
Qed.

(** X23. [moveCaretHoriz(dir, extend)] on the plain path, the cached line
    table, if any, holding a line: it returns once the fuel exceeds the
    length of the text; the buffer and the history are left as they were;
    the head goes [dir] away from the head when the selection is extended,
    from the end of the selection otherwise (also when moving left), and is
    kept inside the text; the anchor stays when the selection is extended
    and joins the head otherwise. *)
Theorem moveCaretHoriz_steps_inside_the_text (fuel : nat) (now dir : Z)
  (extend : bool) (c : TextControl) :
  styleAwareLayout (options c) = false -> cache_ok c ->
  (length (text (textModel c)) < fuel)%nat ->
  exists c',
    moveCaretHoriz measure fuel now dir extend c = Ok c'
    /\ textModel c' = textModel c
    /\ _history c' = _history c /\ _redo c' = _redo c
    /\ head (selection c')
       = clamp ((if extend then head (selection c)
                 else sel_end (selection c)) + dir)
           (len (text (textModel c)))
    /\ anchor (selection c')
       = (if extend then anchor (selection c) else head (selection c'))
    /\ 0 <= head (selection c') <= len (text (textModel c)).
Proof.
  intros Hplain Hcache Hfuel.
  set (pos := Z.max 0 (Z.min (len (text (textModel c)))
                         ((if extend then head (selection c)
                           else sel_end (selection c)) + dir))).
  set (c1 := set_selection (if extend then set_head pos (selection c)
                            else collapseTo pos (selection c)) c).
  change (moveCaretHoriz measure fuel now dir extend c)
    with (caret_moved measure fuel now c1).
  destruct (caret_epilogue fuel now c1) as (c' & -> & He & _); try done.
  exists c'. split; [done |].
  unfold edit_state in He. injection He as E1 E2 E3 E4 _ _ _.
  rewrite E1, E2, E3, E4. subst c1. cbn [selection set_selection textModel
    _history _redo].
  assert (Hpos : pos = clamp ((if extend then head (selection c)
                               else sel_end (selection c)) + dir)
                         (len (text (textModel c)))).
  { subst pos. unfold clamp. by rewrite Z.min_comm. }
  pose proof (clamp_range ((if extend then head (selection c)
                            else sel_end (selection c)) + dir)
                _ (len_nonneg (text (textModel c)))) as Hr.
  rewrite <- Hpos in Hr.
  destruct extend; cbn [head anchor set_head collapseTo];
    (split; [done |]); (split; [done |]); (split; [done |]);
    (split; [done |]); (split; [done |]); exact Hr.
Qed.

Lemma line_of_head_spec ls t' off h i :
  covers ls t' off -> ls <> [] -> off <= h <= off + len t' -> 0 <= i ->
  exists L,
    nthZ ls (line_of_head h ls i - i) = Some L
    /\ l_start L <= h <= l_end L.
Proof.
  revert t' off i. induction ls as [| L ls IH]; intros t' off i Hcov Hne Hh Hi;
    [done |].
  destruct Hcov as (Hs & He & t'' & -> & Hcov).
  pose proof (len_nonneg (line_source L)).
  cbn [line_of_head].
  destruct (Z.geb_spec h (l_start L)) as [_ | ?]; [| lia].
  destruct (Z.leb_spec h (l_end L)) as [Hin | Hout]; cbn [andb].
  - exists L. rewrite Z.sub_diag. split; [done | lia].
  - assert (Hne' : ls <> []).
    { intros ->. simpl in Hcov. subst t''. rewrite app_nil_r in Hh. lia. }
    destruct (IH t'' (l_end L) (i + 1) Hcov Hne') as (L0 & HL0 & Hc0).
    { rewrite len_app in Hh. lia. }
    { lia. }
    exists L0. split; [| done].
    pose proof (nthZ_Some _ _ _ HL0) as [Hr _].
    rewrite nthZ_cons by lia. rewrite <- HL0. f_equal. lia.
Qed.

(** X24. [moveLineBoundary(toStart, extend)] (the Home and End keys) on the
    plain path, in a configuration that inserts no hyphen, the cached line
    table well formed if it answers, the head inside the text: it returns
    once the fuel exceeds the length of the text, raising no error; the
    buffer and the history are left as they were; and the head goes to the
    start, or to the end before the newline, of a line of the table
    [ensure()] returns, one that held the head between its start and its
    end. The new head is inside the text. *)
Theorem moveLineBoundary_goes_to_a_line_boundary (fuel : nat) (now : Z)
  (toStart extend : bool) (c : TextControl) :
  styleAwareLayout (options c) = false -> no_hyphen (options c) ->
  layout_wf c -> (length (text (textModel c)) < fuel)%nat ->
  0 <= head (selection c) <= len (text (textModel c)) ->
  exists c' c1 k L,
    moveLineBoundary measure fuel now toStart extend c = Ok c'
    /\ textModel c' = textModel c
    /\ _history c' = _history c /\ _redo c' = _redo c
    /\ ensure measure fuel c = Ok (c1, k) /\ L ∈ c_lines k
    /\ l_start L <= head (selection c) <= l_end L
    /\ head (selection c')
       = (if toStart then l_start L
          else if bool_decide (nthZ (text (textModel c)) (l_end L - 1)
                               = Some newline)
               then l_end L - 1 else l_end L)
    /\ anchor (selection c')
       = (if extend then anchor (selection c) else head (selection c'))
    /\ 0 <= head (selection c') <= len (text (textModel c)).
Proof.
  intros Hplain Hno Hwf Hfuel Hhead.
  destruct (ensure_total measure fuel c Hplain Hfuel) as (c1 & k & He).
  destruct (ensure_wf measure fuel c c1 k Hno Hwf He)
    as (Hw & Hm & Hk & Hhit & _).
  pose proof (ensure_edit measure fuel c c1 k He) as [Hedit _].
  assert (Hsel : selection c1 = selection c).
  { unfold edit_state in Hedit. by injection Hedit. }
  assert (Hopt : options c1 = options c).
  { unfold edit_state in Hedit. by injection Hedit. }
  pose proof (well_formed_nonempty _ _ Hw) as Hne.
  destruct Hw as (Hcov & _).
  destruct (line_of_head_spec (c_lines k) (text (textModel c)) 0
              (head (selection c)) 0 Hcov Hne) as (L & HL & Hc);
    [lia | lia |].
  rewrite Z.sub_0_r in HL.
  pose proof (nthZ_Forall _ _ _ _ (covers_bounds _ _ _ Hcov) HL)
    as (Hs0 & Hse & Het).
  rewrite Z.add_0_l in Het.
  set (endNoNL := if bool_decide (nthZ (text (textModel c)) (l_end L - 1)
                                  = Some newline)
                  then l_end L - 1 else l_end L).
  assert (Hend : 0 <= endNoNL <= len (text (textModel c))).
  { subst endNoNL. case_bool_decide as Hnl; [| lia].
    apply nthZ_Some in Hnl as [Hr _]. lia. }
  set (pos := if toStart then l_start L else endNoNL).
  assert (Hpos : 0 <= pos <= len (text (textModel c))).
  { subst pos. destruct toStart; lia. }
  set (c2 := set_selection (if extend then set_head pos (selection c1)
                            else collapseTo pos (selection c1)) c1).
  assert (Hmove : moveLineBoundary measure fuel now toStart extend c
                  = caret_moved measure fuel now c2).
  { unfold moveLineBoundary. rewrite He. cbn [mbind res_bind].
    assert (HL' : nthZ (c_lines k)
                    (line_of_head (head (selection c1)) (c_lines k) 0)
                  = Some L) by (by rewrite Hsel).
    rewrite HL'. cbn [defined mbind res_bind]. by rewrite Hm. }
  destruct (caret_epilogue fuel now c2) as (c' & Hc' & He' & _).
  { subst c2. cbn [options set_selection]. by rewrite Hopt. }
  { subst c2. unfold cache_ok. cbn [textLayout set_selection]. by rewrite Hk. }
  { subst c2. cbn [textModel set_selection]. by rewrite Hm. }
  exists c', c1, k, L. rewrite Hmove. split; [done |].
  unfold edit_state in He', Hedit.
  injection He' as E1 E2 E3 E4 _ _ _. injection Hedit as F1 _ F3 F4 _ _ _.
  rewrite E1, E2, E3, E4. subst c2.
  cbn [selection set_selection textModel _history _redo].
  split; [done |]. split; [done |]. split; [done |]. split; [done |].
  split; [by apply nthZ_elem_of in HL |]. split; [done |].
  rewrite Hsel.
  destruct extend; cbn [head anchor set_head collapseTo];
    (split; [done |]); (split; [done |]); exact Hpos.
Qed.

End Moves.

(** ** Up and down *)

Section Vertical.

Variable measure : jsstring -> jsstring -> Z.

Lemma paint_balanced (c0 : TextControl) :
  set_paint (paint_restore
    (paint (set_paint (paint_set_font (l_font (textLayout c0))
                         (paint_save (paint c0))) c0)))
    (set_paint (paint_set_font (l_font (textLayout c0))
                  (paint_save (paint c0))) c0) = c0.
Proof.
  cbn [paint set_paint]. rewrite paint_restore_save_font. by destruct c0.
Qed.

(** With a table that answers, [xForIndex] leaves the control as it is. *)
Lemma xForIndex_hit fuel index c k :
  _cache (textLayout c) = Some k -> cache_hit c k -> c_lines k <> [] ->
  exists x, xForIndex measure fuel index c = Ok (c, x).
Proof.
  intros Hk Hhit Hne. unfold xForIndex.
  rewrite (ensure_hit measure fuel c k Hk Hhit). cbn [mbind res_bind].
  set (c2 := set_paint _ c).
  destruct (lineIndexOf_hit measure fuel index c2 k) as (li & -> & Hli);
    try done.
  cbn [mbind res_bind].
  destruct (nthZ_lt (c_lines k) li Hli) as [L ->].
  cbn [defined mbind res_bind]. subst c2. rewrite paint_balanced. eauto.
Qed.

(** The loop of [indexForX] answers an offset of the line. *)
Lemma index_for_x_loop_range p t start endNoNL left x n i :
  0 <= i -> Z.of_nat n <= endNoNL - start - i + 1 ->
  let r := index_for_x_loop measure p t start endNoNL left x n i in
  r = start \/ start <= r <= endNoNL.
Proof.
  revert i. induction n as [| n IH]; intros i Hi Hn; [by left |].
  cbn [index_for_x_loop]. cbv zeta.
  destruct (_ >=? _); [right; lia |].
  destruct (Z.eqb_spec i (endNoNL - start)); [right; lia |].
  apply IH; lia.
Qed.

(** With a table that answers, [indexForX] leaves the control as it is and
    answers an offset of the line it is asked about, the last line when
    asked beyond it, the first when asked before it. *)
Lemma indexForX_hit fuel lineIdx x c k :
  _cache (textLayout c) = Some k -> cache_hit c k -> c_lines k <> [] ->
  exists L idx,
    indexForX measure fuel lineIdx x c = Ok (c, idx)
    /\ nthZ (c_lines k) (clamp lineIdx (len (c_lines k) - 1)) = Some L
    /\ (idx = l_start L \/ l_start L <= idx <= l_end L).
Proof.
  intros Hk Hhit Hne. unfold indexForX.
  rewrite (ensure_hit measure fuel c k Hk Hhit). cbn [mbind res_bind].
  fold (clamp lineIdx (len (c_lines k) - 1)).
  assert (Hpos : 0 < len (c_lines k)).
  { destruct (c_lines k); [done |]. unfold len. simpl. lia. }
  destruct (nthZ_lt (c_lines k) (clamp lineIdx (len (c_lines k) - 1)))
    as [L HL].
  { pose proof (clamp_range lineIdx (len (c_lines k) - 1)). lia. }
  rewrite HL. cbn [defined mbind res_bind]. rewrite paint_balanced.
  eexists L, _. split; [done |]. split; [done |].
  set (endNoNL := if bool_decide _ then l_end L - 1 else l_end L).
  destruct (Z.le_gt_cases (l_start L) (endNoNL + 1)) as [Hle | Hgt].
  - destruct (index_for_x_loop_range
                (paint_set_font (l_font (textLayout c)) (paint_save (paint c)))
                (text (textModel c)) (l_start L) endNoNL
                (inside_x (geometry c) + g_x (geometry c)
                 + border_left (geometry c) + paddingLeft (textLayout c)) x
                (Z.to_nat (endNoNL - l_start L + 1)) 0) as [E | E];
      [lia | lia | by left | right].
    cbn [paint set_paint textModel geometry textLayout].
    subst endNoNL. destruct (bool_decide _); lia.
  - left. replace (Z.to_nat (endNoNL - l_start L + 1)) with O by lia. done.
Qed.

(** X25. [moveCaretVertical(dir, extend)] (the up and down arrows) on the
    plain path, in a configuration that inserts no hyphen, the cached line
    table well formed if it answers, the head inside the text: it returns
    once the fuel exceeds the length of the text, raising no error; the
    buffer and the history are left as they were; and the head lands
    between the start and the end of the target line, the one [dir] lines
    from the line [lineIndexOf(head)] names, kept inside the table. The new
    head is inside the text. *)
Theorem moveCaretVertical_lands_on_the_target_line (fuel : nat)
  (now dir : Z) (extend : bool) (c : TextControl) :
  styleAwareLayout (options c) = false -> no_hyphen (options c) ->
  layout_wf c -> (length (text (textModel c)) < fuel)%nat ->
  exists c' c1 k cur L,
    moveCaretVertical measure fuel now dir extend c = Ok c'
    /\ textModel c' = textModel c
    /\ _history c' = _history c /\ _redo c' = _redo c
    /\ lineIndexOf measure fuel (head (selection c)) c = Ok (c1, cur)
    /\ _cache (textLayout c1) = Some k
    /\ nthZ (c_lines k) (clamp (cur + dir) (len (c_lines k) - 1)) = Some L
    /\ l_start L <= head (selection c') <= l_end L
    /\ anchor (selection c')
       = (if extend then anchor (selection c) else head (selection c'))
    /\ 0 <= head (selection c') <= len (text (textModel c)).
Proof.
  intros Hplain Hno Hwf Hfuel.
  destruct (ensure_total measure fuel c Hplain Hfuel) as (c1 & k & He).
  destruct (ensure_wf measure fuel c c1 k Hno Hwf He)
    as (Hw & Hm & Hk & Hhit & _).
  pose proof (ensure_edit measure fuel c c1 k He) as [Hedit _].
  assert (Hsel : selection c1 = selection c).
  { unfold edit_state in Hedit. by injection Hedit. }
  assert (Hopt : options c1 = options c).
  { unfold edit_state in Hedit. by injection Hedit. }
  pose proof (well_formed_nonempty _ _ Hw) as Hne.
  destruct Hw as (Hcov & _).
  set (cur := line_index_loop (text (textModel c1)) (head (selection c))
                (c_lines k) 0 (len (c_lines k))).
  assert (Hcur : lineIndexOf measure fuel (head (selection c)) c
                 = Ok (c1, cur)).
  { unfold lineIndexOf. rewrite He. cbn [mbind res_bind].
    destruct (Z.eqb_spec (len (c_lines k)) 0) as [Hz | _]; [| done].
    by apply len_nil_inv in Hz. }
  (* the preferred column *)
  assert (Hpx : exists c3 px,
    match _preferredX c1 with
    | Some x => Ok (c1, x)
    | None =>
        '(c', x) ← xForIndex measure fuel (head (selection c)) c1;
        Ok (set_preferredX (Some x) c', x)
    end = Ok (c3, px)
    /\ edit_state c3 = edit_state c1 /\ textLayout c3 = textLayout c1
    /\ geometry c3 = geometry c1).
  { destruct (_preferredX c1) as [x |]; [by exists c1, x |].
    destruct (xForIndex_hit fuel (head (selection c)) c1 k Hk Hhit Hne)
      as [x ->].
    cbn [mbind res_bind]. by eexists _, x. }
  destruct Hpx as (c3 & px & Hpx & He3 & Hl3 & Hg3).
  assert (Hk3 : _cache (textLayout c3) = Some k) by by rewrite Hl3.
  assert (Hm3 : textModel c3 = textModel c1).
  { unfold edit_state in He3. by injection He3. }
  assert (Hsel3 : selection c3 = selection c1).
  { unfold edit_state in He3. by injection He3. }
  assert (Hopt3 : options c3 = options c1).
  { unfold edit_state in He3. by injection He3. }
  assert (Hhit3 : cache_hit c3 k).
  { destruct Hhit as [Hv Hwd]. split; [by rewrite Hm3 |].
    unfold innerWidth in *. by rewrite Hg3, Hl3. }
  destruct (indexForX_hit fuel (clamp (cur + dir) (len (c_lines k) - 1)) px
              c3 k Hk3 Hhit3 Hne) as (L & idx & Hidx & HL & Hrange).
  assert (Hcl : clamp (clamp (cur + dir) (len (c_lines k) - 1))
                  (len (c_lines k) - 1)
                = clamp (cur + dir) (len (c_lines k) - 1)).
  { apply clamp_idem.
    destruct (c_lines k); [done |]. unfold len. simpl. lia. }
  rewrite Hcl in HL.
  pose proof (nthZ_Forall _ _ _ _ (covers_bounds _ _ _ Hcov) HL)
    as (Hs0 & Hse & Het).
  rewrite Z.add_0_l in Het.
  assert (Hin : l_start L <= idx <= l_end L) by lia.
  set (c5 := set_selection (if extend then set_head idx (selection c3)
                            else collapseTo idx (selection c3)) c3).
  assert (Hmove : moveCaretVertical measure fuel now dir extend c
                  = caret_moved measure fuel now c5).
  { unfold moveCaretVertical. rewrite Hcur. cbn [mbind res_bind].
    rewrite (ensure_hit measure fuel c1 k Hk Hhit). cbn [mbind res_bind].
    fold (clamp (cur + dir) (len (c_lines k) - 1)).
    rewrite Hpx. cbn [mbind res_bind]. rewrite Hidx. done. }
  destruct (caret_epilogue measure fuel now c5) as (c' & Hc' & He' & _).
  { subst c5. cbn [options set_selection]. by rewrite Hopt3, Hopt. }
  { subst c5. unfold cache_ok. cbn [textLayout set_selection]. by rewrite Hk3. }
  { subst c5. cbn [textModel set_selection]. by rewrite Hm3, Hm. }
  exists c', c1, k, cur, L. rewrite Hmove. split; [done |].
  unfold edit_state in He', Hedit, He3.
  injection He' as E1 E2 E3 E4 _ _ _. injection Hedit as F1 _ F3 F4 _ _ _.
  injection He3 as G1 G2 G3 G4 _ _ _.
  rewrite E1, E2, E3, E4. subst c5.
  cbn [selection set_selection textModel _history _redo].
  split; [congruence |]. split; [congruence |]. split; [congruence |].
  split; [done |]. split; [done |]. split; [done |].
  rewrite Hsel3, Hsel.
  destruct extend; cbn [head anchor set_head collapseTo];
    (split; [done |]); (split; [done |]); lia.
Qed.

End Vertical.

(** ** To the start and to the end of the document *)

Section Document.

Variable measure : jsstring -> jsstring -> Z.

(** [xForIndex] leaves a well-formed table that answers. *)
Lemma xForIndex_wf fuel index c c' x :
  no_hyphen (options c) -> layout_wf c ->
  xForIndex measure fuel index c = Ok (c', x) ->
  exists k,
    _cache (textLayout c') = Some k /\ cache_hit c' k
    /\ well_formed_lines (c_lines k) (text (textModel c)).
Proof.
  intros Hno Hwf. unfold xForIndex.
  destruct (ensure measure fuel c) as [[c1 k] | |] eqn:He; try done.
  destruct (ensure_wf measure fuel c c1 k Hno Hwf He)
    as (Hw & Hm & Hk & Hhit & _).
  cbn [mbind res_bind]. set (c2 := set_paint _ c1).
  rewrite (lineIndexOf_hit_eq measure fuel index c2 k Hk Hhit
             (well_formed_nonempty _ _ Hw)).
  cbn [mbind res_bind]. destruct (defined _) as [L | |]; try done.
  cbn [mbind res_bind]. intros [= <- <-]. by exists k.
Qed.

(** The line of offset 0 is the first line. *)
Lemma line_index_zero t lines :
  well_formed_lines lines t ->
  line_index_loop t 0 lines 0 (len lines) = 0.
Proof.
  intros Hw. pose proof (well_formed_nonempty _ _ Hw) as Hne.
  destruct Hw as (Hcov & _). destruct lines as [| L ls]; [done |].
  destruct Hcov as (Hs & He & _).
  pose proof (len_nonneg (line_source L)).
  cbn [line_index_loop]. rewrite Hs. cbn [Z.ltb Z.compare].
  destruct (Z.ltb_spec 0 (l_end L)); [done |].
  destruct (Z.eqb_spec 0 (l_end L)) as [<- | ?]; [| lia].
  by rewrite bool_decide_false.
Qed.

(** X26. [moveDocumentBoundary(toStart, extend)] (Ctrl+Home and Ctrl+End)
    on the plain path, in a configuration that inserts no hyphen, the
    cached line table holding a line, and well formed if it answers: it
    returns once the fuel exceeds the length of the text; the buffer and the
    history are left as they were; the head goes to offset 0 or to the
    length of the text; and after Ctrl+Home, the viewport being at least
    one line high, the view is scrolled to the top. *)
Theorem moveDocumentBoundary_goes_to_an_end_of_the_text (fuel : nat)
  (now : Z) (toStart extend : bool) (c : TextControl) :
  styleAwareLayout (options c) = false -> no_hyphen (options c) ->
  cache_ok c -> layout_wf c ->
  (length (text (textModel c)) < fuel)%nat ->
  0 <= lineHeight (textLayout c) <= innerHeight c ->
  exists c',
    moveDocumentBoundary measure fuel now toStart extend c = Ok c'
    /\ textModel c' = textModel c
    /\ _history c' = _history c /\ _redo c' = _redo c
    /\ head (selection c')
       = (if toStart then 0 else len (text (textModel c)))
    /\ anchor (selection c')
       = (if extend then anchor (selection c) else head (selection c'))
    /\ (toStart = true -> _scrollY c' = 0).
Proof.
  intros Hplain Hno Hcache Hwf Hfuel Hview.
  set (pos := if toStart then 0 else len (text (textModel c))).
  set (c1 := set_selection (if extend then set_head pos (selection c)
                            else collapseTo pos (selection c)) c).
  assert (Hc2 : exists c2,
    (if toStart then Ok (set_scrollY 0 c1)
     else
       '(c', k) ← ensure measure fuel c1;
       let contentH := len (c_lines k) * lineHeight (textLayout c') in
       let maxY := Z.max 0 (contentH - Z.max 0 (innerHeight c')) in
       Ok (set_scrollY (Z.max 0 maxY) c')) = Ok c2
    /\ edit_state c2 = edit_state c1 /\ cache_ok c2 /\ layout_wf c2
    /\ lineHeight (textLayout c2) = lineHeight (textLayout c)
    /\ innerHeight c2 = innerHeight c
    /\ (toStart = true -> _scrollY c2 = 0)).
  { destruct toStart.
    - exists (set_scrollY 0 c1). by split_and!.
    - destruct (ensure_ok measure fuel c1) as (c' & k & He & Hne & _);
        try done.
      destruct (ensure_wf measure fuel c1 c' k Hno Hwf He)
        as (_ & Hm & Hk & Hhit & Hwf').
      pose proof (ensure_edit measure fuel c1 c' k He) as [Hedit _].
      pose proof (ensure_view _ _ _ _ _ He) as (_ & Hh & Hi).
      rewrite He. cbn [mbind res_bind]. eexists. split; [done |].
      split_and!; try done.
      unfold cache_ok. cbn [textLayout set_scrollY]. by rewrite Hk. }
  destruct Hc2 as (c2 & Hc2 & He2 & Hok2 & Hwf2 & Hh2 & Hi2 & Hs2).
  assert (Hmove : moveDocumentBoundary measure fuel now toStart extend c
                  = caret_moved measure fuel now c2).
  { subst c1 pos. cbv zeta in Hc2. unfold moveDocumentBoundary. cbv zeta.
    by rewrite Hc2. }
  destruct (edit_state_proj _ _ He2) as [Hm2 Ho2].
  assert (Hsel2 : selection c2 = selection c1).
  { unfold edit_state in He2. by injection He2. }
  destruct (caret_epilogue measure fuel now c2)
    as (c' & Hc' & He' & Hoff & Hon).
  { by rewrite Ho2. }
  { done. }
  { by rewrite Hm2. }
  exists c'. rewrite Hmove. split; [done |].
  pose proof He' as He''.
  unfold edit_state in He', He2.
  injection He' as E1 E2 E3 E4 _ _ _. injection He2 as F1 F2 F3 F4 _ _ _.
  rewrite E1, E2, E3, E4, F1, F2, F3, F4. subst c1.
  cbn [selection set_selection textModel _history _redo].
  split; [done |]. split; [done |]. split; [done |].
  split; [by destruct extend |]. split; [by destruct extend |].
  intros ->. specialize (Hs2 eq_refl).
  destruct (keepCaretVisible (options c2)) eqn:Hkeep.
  - destruct Hon as (k & Hk & Hhit & Hne & Htop & Hrange); [lia | done |].
    rewrite Hsel2 in Htop. cbn [selection set_selection] in Htop.
    assert (Hw : well_formed_lines (c_lines k) (text (textModel c2))).
    { unfold caret_moved in Hc'.
      destruct (xForIndex measure fuel (head (selection c2)) c2)
        as [[c3 x] | |] eqn:Hx; try done.
      destruct (xForIndex_wf fuel (head (selection c2)) c2 c3 x)
        as (k3 & Hk3 & Hhit3 & Hw3); try done.
      { by rewrite Ho2. }
      cbn [mbind res_bind] in Hc'.
      set (c4 := resetCaretBlink now _) in Hc'.
      assert (Hk4 : _cache (textLayout c4) = Some k3) by exact Hk3.
      destruct (if keepCaretVisible (options c4)
                then ensureCaretVisible measure fuel c4 else Ok c4)
        as [c5 | |] eqn:H5; try done.
      cbn [mbind res_bind] in Hc'. injection Hc' as <-.
      assert (Hk5 : _cache (textLayout c5) = Some k3).
      { destruct (keepCaretVisible (options c4)).
        - unfold ensureCaretVisible in H5.
          destruct (ensure measure fuel c4) as [[c6 k6] | |] eqn:He6;
            try done.
          assert (Hhit4 : cache_hit c4 k3) by exact Hhit3.
          rewrite (ensure_hit measure fuel c4 k3 Hk4 Hhit4) in He6.
          injection He6 as <- <-. cbn [mbind res_bind] in H5.
          destruct (_ =? 0); [by injection H5 as <- |].
          rewrite (lineIndexOf_hit_eq measure fuel _ c4 k3 Hk4 Hhit4)
            in H5 by (by apply (well_formed_nonempty _ _ Hw3)).
          cbn [mbind res_bind] in H5. injection H5 as <-.
          cbn [textLayout set_scrollY].
          destruct (_ <? _); [done |]. by destruct (_ >? _).
        - by injection H5 as <-. }
      cbn [invalidate set_dirty textLayout] in Hk. rewrite Hk5 in Hk.
      by injection Hk as <-. }
    subst pos. cbv iota in Htop.
    assert (Hh0 : head (if extend then set_head 0 (selection c)
                        else collapseTo 0 (selection c)) = 0)
      by by destruct extend.
    rewrite Hh0, (line_index_zero _ _ Hw) in Htop. lia.
  - rewrite Hoff by done. exact Hs2.
Qed.

End Document.

(** ** toggleStyle *)

Section ToggleStyle.

Variable measure : jsstring -> jsstring -> Z.

(** On the plain path [ensureCaretVisible()] returns. *)
Lemma ensureCaretVisible_total fuel c :
  styleAwareLayout (options c) = false -> cache_ok c ->
  (length (text (textModel c)) < fuel)%nat ->
  exists c', ensureCaretVisible measure fuel c = Ok c'.
Proof.
  intros Hplain Hcache Hfuel. unfold ensureCaretVisible.
  destruct (ensure_ok measure fuel c Hplain Hcache Hfuel)
    as (c1 & k & He & Hne & _).
  destruct (ensure_cached measure fuel c c1 k He) as [Hk Hhit].
  rewrite He. cbn [mbind res_bind].
  destruct (_ =? 0); [by eexists |].
  rewrite (lineIndexOf_hit_eq measure fuel _ c1 k Hk Hhit Hne).
  cbn [mbind res_bind]. by eexists.
Qed.

(** What [toggleStyle] does with a selection that is not empty. *)
Lemma toggleStyle_edit fuel p c c' :
  sel_empty (selection c) = false ->
  toggleStyle measure fuel p c = Ok c' ->
  exists m,
    applyStyle (sel_start (selection c)) (sel_end (selection c)) p true
      (VBool true) (textModel c) = Ok m
    /\ textModel c' = m /\ selection c' = selection c
    /\ _history c' = _history (pushHistory c) /\ _redo c' = []
    /\ _historyLimit c' = _historyLimit c
    /\ currentStyle c' = currentStyle c.
Proof.
  intros Hsel. unfold toggleStyle. rewrite Hsel. cbn [negb].
  change (textModel (pushHistory c)) with (textModel c).
  destruct (applyStyle _ _ p true (VBool true) (textModel c)) as [m | |];
    try done.
  cbn [mbind res_bind]. set (c2 := set_textModel m (pushHistory c)).
  destruct (if keepCaretVisible (options c2)
            then ensureCaretVisible measure fuel c2 else Ok c2)
    as [c3 | |] eqn:H3; try done.
  cbn [mbind res_bind]. intros [= <-].
  assert (He3 : edit_state c3 = edit_state c2).
  { destruct (keepCaretVisible (options c2)).
    - by apply ensureCaretVisible_edit in H3.
    - by injection H3 as <-. }
  unfold edit_state in He3. injection He3 as E1 E2 E3 E4 E5 E6 _.
  exists m. cbn [invalidate set_dirty textModel selection _history _redo
    _historyLimit currentStyle].
  rewrite E1, E2, E3, E4, E5, E6. by split_and!.
Qed.

(** On the plain path, the text being the cache of the runs, [toggleStyle]
    returns when the selection is not empty. *)
Lemma toggleStyle_returns fuel p c :
  sel_empty (selection c) = false -> editor_ok c ->
  (length (text (textModel c)) < fuel)%nat ->
  exists c', toggleStyle measure fuel p c = Ok c'.
Proof.
  intros Hsel (Hplain & Hc & Hcache) Hfuel.
  destruct (applyStyle_spec (sel_start (selection c))
              (sel_end (selection c)) p true (VBool true) (textModel c) Hc)
    as (m & Hm & Ht & _).
  unfold toggleStyle. rewrite Hsel. cbn [negb].
  change (textModel (pushHistory c)) with (textModel c).
  rewrite Hm. cbn [mbind res_bind].
  set (c2 := set_textModel m (pushHistory c)).
  destruct (keepCaretVisible (options c2)); [| by eexists].
  destruct (ensureCaretVisible_total fuel c2) as [c3 ->]; try done.
  - subst c2. cbn [textModel set_textModel]. rewrite Ht. exact Hfuel.
  - by eexists.
Qed.

(** X27. [toggleStyle(prop)]. With an empty selection it flips the property
    in the typing style, to the negation of its truthiness, and touches
    nothing else: no other property, neither buffer nor selection nor
    history. With a selection that is not empty, on the plain path, the
    text being the cache of the runs and the cached line table, if any,
    holding a line, it returns once the fuel exceeds the length of the
    text; a snapshot is recorded and the redo stack emptied; and the
    property is toggled on the characters of the selection, clamped to the
    text, and on no other; text, selection and typing style are kept. *)
Theorem toggleStyle_toggles_selection_or_typing_style (fuel : nat)
  (p : Prop_) (c : TextControl) :
  (sel_empty (selection c) = true ->
   exists c',
     toggleStyle measure fuel p c = Ok c'
     /\ style_prop p (currentStyle c')
        = VBool (negb (truthy (style_prop p (currentStyle c))))
     /\ (forall q, q <> p ->
                   style_prop q (currentStyle c')
                   = style_prop q (currentStyle c))
     /\ textModel c' = textModel c /\ selection c' = selection c
     /\ _history c' = _history c /\ _redo c' = _redo c)
  /\ (sel_empty (selection c) = false -> editor_ok c ->
      (length (text (textModel c)) < fuel)%nat ->
      let lo := Z.to_nat (clamp (sel_start (selection c))
                            (len (text (textModel c)))) in
      let hi := Z.to_nat (clamp (sel_end (selection c))
                            (len (text (textModel c)))) in
      exists c',
        toggleStyle measure fuel p c = Ok c'
        /\ chars (runs (textModel c'))
           = take lo (chars (runs (textModel c)))
             ++ map (restyle p true (VBool true))
                  (take (hi - lo) (drop lo (chars (runs (textModel c)))))
             ++ drop hi (chars (runs (textModel c)))
        /\ text (textModel c') = text (textModel c)
        /\ selection c' = selection c
        /\ currentStyle c' = currentStyle c
        /\ _history c' = _history (pushHistory c) /\ _redo c' = []).
Proof.
  split.
  - intros Hsel. unfold toggleStyle. rewrite Hsel. cbn [negb].
    eexists. split; [done |].
    cbn [currentStyle set_currentStyle textModel selection _history _redo].
    split_and!; try done.
    + by destruct p.
    + intros q Hq. by destruct p, q.
  - intros Hsel Hok Hfuel lo hi. pose proof Hok as (Hplain & Hc & Hcache).
    pose proof (sel_start_le_end (selection c)) as Hle.
    destruct (applyStyle_chars (sel_start (selection c))
                (sel_end (selection c)) p true (VBool true) (textModel c) Hc)
      as (m & Hm & Hch & Ht & _).
    rewrite Z.min_l, Z.max_r in Hch by lia.
    assert (Hret : exists c', toggleStyle measure fuel p c = Ok c').
    { by apply toggleStyle_returns. }
    destruct Hret as [c' Hc']. exists c'. split; [done |].
    destruct (toggleStyle_edit fuel p c c' Hsel Hc')
      as (m' & Hm' & E1 & E2 & E3 & E4 & _ & E6).
    rewrite Hm in Hm'. injection Hm' as <-.
    rewrite E1. by split_and!.
Qed.

(** X28. [toggleStyle(prop)] on a selection that is not empty, on the plain
    path, the text being the cache of the runs, the cached line table, if
    any, holding a line, and the history limit positive: it returns once
    the fuel exceeds the length of the text, and a following [undo()] gives
    back the text and the selection but no style: the buffer holds a single
    run in the default style, whatever the styles were before the toggle.
    A [redo()] after that does not bring the toggled style back either. *)
Theorem undo_after_toggleStyle_restores_no_style (fuel : nat) (p : Prop_)
  (c : TextControl) :
  editor_ok c -> sel_empty (selection c) = false ->
  0 < _historyLimit c ->
  (length (text (textModel c)) < fuel)%nat ->
  exists c',
    toggleStyle measure fuel p c = Ok c'
    /\ runs (textModel (undo c')) = [plain_run (text (textModel c))]
    /\ selection (undo c') = selection c
    /\ runs (textModel (redo (undo c'))) = [plain_run (text (textModel c))]
    /\ selection (redo (undo c')) = selection c.
Proof.
  intros Hok Hsel Hlim Hfuel. pose proof Hok as (_ & Hc & _).
  destruct (toggleStyle_returns fuel p c Hsel Hok Hfuel) as [c' Ht].
  exists c'. split; [exact Ht |].
  destruct (toggleStyle_edit fuel p c c' Hsel Ht)
    as (m & Hm & E1 & E2 & E3 & E4 & _).
  destruct (applyStyle_spec (sel_start (selection c))
              (sel_end (selection c)) p true (VBool true) (textModel c) Hc)
    as (m' & Hm' & Htext & _).
  rewrite Hm in Hm'. injection Hm' as <-.
  assert (Htop : last (_history c') = Some (snapshot c)).
  { rewrite E3. by apply pushHistory_top. }
  assert (Hsnap : snapshot c' = snapshot c).
  { unfold snapshot. by rewrite E1, E2, Htext. }
  assert (Hu : undo c'
               = restore (snapshot c)
                   (set_stacks (removelast (_history c'))
                      (_redo c' ++ [snapshot c']) c')).
  { unfold undo. by rewrite Htop. }
  assert (Hr : redo (undo c')
               = restore (snapshot c)
                   (set_stacks (_history (undo c') ++ [snapshot (undo c')])
                      (removelast (_redo (undo c'))) (undo c'))).
  { unfold redo at 1.
    assert (Hl : last (_redo (undo c')) = Some (snapshot c)).
    { rewrite Hu. cbn [_redo restore invalidate set_dirty set_selection
        set_textModel set_stacks]. by rewrite last_snoc, Hsnap. }
    by rewrite Hl. }
  rewrite Hr, Hu. cbn [restore invalidate set_dirty set_selection
    set_textModel set_stacks textModel selection runs setText
    _rebuildText snap_text snap_a snap_h snapshot default].
  by rewrite selection_eta.
Qed.

End ToggleStyle.

Lemma undo_after_toggleStyle_restores_no_style_witness :
  exists c',
    toggleStyle (fixed_pitch 8) 20 PBold control_ab_selected = Ok c'
    /\ runs (textModel (undo c'))
       = [plain_run (text (textModel control_ab_selected))]
    /\ selection (undo c') = selection control_ab_selected
    /\ runs (textModel (redo (undo c')))
       = [plain_run (text (textModel control_ab_selected))]
    /\ selection (redo (undo c')) = selection control_ab_selected.
Proof.
  apply (undo_after_toggleStyle_restores_no_style (fixed_pitch 8) 20 PBold
           control_ab_selected).
  - split; [reflexivity | split; [reflexivity | exact I]].
  - reflexivity.
  - reflexivity.
  - vm_compute. lia.
Defined.

(** ** getWordRangeAt *)

Lemma word_left_spec t n start :
  0 <= start <= Z.of_nat n ->
  let r := word_left t n start in
  0 <= r <= start
  /\ (forall j, r <= j < start -> isSep (nthZ t j) = false)
  /\ (r = 0 \/ isSep (nthZ t (r - 1)) = true).
Proof.
  revert start. induction n as [| n IH]; intros start Hs; cbn [word_left].
  - split; [lia |]. split; [intros j; lia | left; lia].
  - destruct (Z.gtb_spec start 0) as [Hpos | Hzero]; cbn [andb].
    + destruct (isSep (nthZ t (start - 1))) eqn:Hsep; cbn [negb].
      * split; [lia |]. split; [intros j; lia | by right].
      * destruct (IH (start - 1)) as (Hr & Hin & Hmax); [lia |].
        split; [lia |]. split; [| done].
        intros j Hj. destruct (Z.eq_dec j (start - 1)) as [-> | Hne];
          [done | apply Hin; lia].
    + split; [lia |]. split; [intros j; lia | left; lia].
Qed.

Lemma word_right_spec t n e :
  0 <= e <= len t -> len t - e <= Z.of_nat n ->
  let r := word_right t n e in
  e <= r <= len t
  /\ (forall j, e <= j < r -> isSep (nthZ t j) = false)
  /\ (r = len t \/ isSep (nthZ t r) = true).
Proof.
  revert e. induction n as [| n IH]; intros e He Hn; cbn [word_right].
  - split; [lia |]. split; [intros j; lia | left; lia].
  - destruct (Z.ltb_spec e (len t)) as [Hin | Hend]; cbn [andb].
    + destruct (isSep (nthZ t e)) eqn:Hsep; cbn [negb].
      * split; [lia |]. split; [intros j; lia | by right].
      * destruct (IH (e + 1)) as (Hr & Hin' & Hmax); [lia | lia |].
        split; [lia |]. split; [| done].
        intros j Hj. destruct (Z.eq_dec j e) as [-> | Hne];
          [done | apply Hin'; lia].
    + split; [lia |]. split; [intros j; lia | left; lia].
Qed.

(** X29. [getWordRangeAt(index)] returns the word around the offset: a range
    inside the text that holds the offset, clamped to the text, between its
    start and its end, holds no separator (whitespace or one of the
    punctuation marks of [isSep]), and cannot be extended on either side:
    it starts at offset 0 or just after a separator, and ends at the end of
    the text or just before a separator. *)
Theorem getWordRangeAt_is_the_word_around (index : Z) (c : TextControl) :
  let t := text (textModel c) in
  let i := clamp index (len t) in
  let s := fst (getWordRangeAt index c) in
  let e := snd (getWordRangeAt index c) in
  0 <= s <= i /\ i <= e <= len t
  /\ (forall j, s <= j < e -> isSep (nthZ t j) = false)
  /\ (s = 0 \/ isSep (nthZ t (s - 1)) = true)
  /\ (e = len t \/ isSep (nthZ t e) = true).
Proof.
  intros t i s e. subst s e. unfold getWordRangeAt. fold t.
  pose proof (len_nonneg t) as Hn.
  pose proof (clamp_range index (len t) Hn) as Hi. fold i in Hi.
  change (Z.max 0 (Z.min index (len t))) with i.
  destruct (Z.eqb_spec (len t) 0) as [Hz | Hnz]; cbn [fst snd].
  { rewrite Hz in *. split; [lia |]. split; [lia |].
    split; [intros j; lia |]. split; by left. }
  set (i0 := if (i >? 0) && (i <? len t) && isSep (nthZ t i)
                && negb (isSep (nthZ t (i - 1)))
             then i - 1 else i).
  assert (Hi0 : (i0 = i)
                \/ (i0 = i - 1 /\ 0 < i < len t
                    /\ isSep (nthZ t (i - 1)) = false)).
  { subst i0.
    destruct (Z.gtb_spec i 0); cbn [andb]; [| by left].
    destruct (Z.ltb_spec i (len t)); cbn [andb]; [| by left].
    destruct (isSep (nthZ t i)); cbn [andb]; [| by left].
    destruct (isSep (nthZ t (i - 1))) eqn:Hs; cbn [negb]; [by left |].
    right. by split_and!. }
  assert (Hr0 : 0 <= i0 <= len t) by (destruct Hi0 as [-> | (-> & ? & _)]; lia).
  destruct (word_left_spec t (Z.to_nat i0) i0) as (Hl & Hlin & Hlmax);
    [lia |].
  destruct (word_right_spec t (Z.to_nat (len t - i0)) i0)
    as (Hr & Hrin & Hrmax); [lia | lia |].
  set (s := word_left t (Z.to_nat i0) i0) in *.
  set (e := word_right t (Z.to_nat (len t - i0)) i0) in *.
  assert (Hie : i <= e).
  { destruct Hi0 as [-> | (E & Hrange & Hsep)]; [lia |].
    destruct (Z.eq_dec e i0) as [Heq | Hne]; [| lia].
    rewrite Heq, E in Hrmax. destruct Hrmax as [? | Hrm]; [lia |].
    congruence. }
  split; [destruct Hi0 as [-> | (-> & _)]; lia |].
  split; [lia |]. split; [| by split].
  intros j Hj. destruct (Z.lt_ge_cases j i0); [apply Hlin | apply Hrin]; lia.
Qed.

(** ** The movements on the sample control *)

Lemma fixed_pitch_strict font (s : jsstring) i j :
  (i < j <= length s)%nat ->
  fixed_pitch 10 font (take i s) < fixed_pitch 10 font (take j s).
Proof.
  intros Hij. unfold fixed_pitch, len. rewrite !length_take. lia.
Qed.

Lemma two_lines_relayout :
  relayout (fixed_pitch 10) 20 two_lines_control
  = Ok (two_lines_laid_out, two_lines_cache).
Proof. vm_compute. reflexivity. Qed.

Lemma two_lines_wf :
  well_formed_lines (c_lines two_lines_cache)
    (text (textModel two_lines_laid_out)).
Proof.
  apply (relayout_wf (fixed_pitch 10) 20 two_lines_control two_lines_laid_out
           two_lines_cache); [| apply two_lines_relayout].
  right. right. reflexivity.
Qed.

Lemma indexForX_inverts_xForIndex_witness :
  exists li x,
    lineIndexOf (fixed_pitch 10) 20 4 two_lines_laid_out
    = Ok (two_lines_laid_out, li)
    /\ xForIndex (fixed_pitch 10) 20 4 two_lines_laid_out
       = Ok (two_lines_laid_out, x)
    /\ indexForX (fixed_pitch 10) 20 li x two_lines_laid_out
       = Ok (two_lines_laid_out, 4).
Proof.
  apply (indexForX_inverts_xForIndex (fixed_pitch 10) fixed_pitch_strict 20 4
           two_lines_laid_out two_lines_cache).
  - reflexivity.
  - split; reflexivity.
  - apply two_lines_wf.
  - vm_compute. split; discriminate.
Defined.

Lemma moveCaretHoriz_steps_inside_the_text_witness :
  exists c',
    moveCaretHoriz (fixed_pitch 10) 20 1 (-1) false
      (set_selection (mkSel 1 4) two_lines_control) = Ok c'
    /\ textModel c'
       = textModel (set_selection (mkSel 1 4) two_lines_control)
    /\ _history c' = _history (set_selection (mkSel 1 4) two_lines_control)
    /\ _redo c' = _redo (set_selection (mkSel 1 4) two_lines_control)
    /\ head (selection c')
       = clamp ((if false
                 then head (selection
                              (set_selection (mkSel 1 4) two_lines_control))
                 else sel_end (selection
                                 (set_selection (mkSel 1 4)
                                    two_lines_control))) + -1)
           (len (text (textModel
                         (set_selection (mkSel 1 4) two_lines_control))))
    /\ anchor (selection c')
       = (if false
          then anchor (selection
                         (set_selection (mkSel 1 4) two_lines_control))
          else head (selection c'))
    /\ 0 <= head (selection c')
       <= len (text (textModel
                       (set_selection (mkSel 1 4) two_lines_control))).
Proof.
  apply (moveCaretHoriz_steps_inside_the_text (fixed_pitch 10) 20 1 (-1)
           false (set_selection (mkSel 1 4) two_lines_control)).
  - reflexivity.
  - exact I.
  - vm_compute. lia.
Defined.

Lemma moveLineBoundary_goes_to_a_line_boundary_witness :
  exists c' c1 k L,
    moveLineBoundary (fixed_pitch 10) 20 1 true false
      (set_selection (mkSel 4 4) two_lines_control) = Ok c'
    /\ textModel c'
       = textModel (set_selection (mkSel 4 4) two_lines_control)
    /\ _history c' = _history (set_selection (mkSel 4 4) two_lines_control)
    /\ _redo c' = _redo (set_selection (mkSel 4 4) two_lines_control)
    /\ ensure (fixed_pitch 10) 20
         (set_selection (mkSel 4 4) two_lines_control) = Ok (c1, k)
    /\ L ∈ c_lines k
    /\ l_start L
       <= head (selection (set_selection (mkSel 4 4) two_lines_control))
       <= l_end L
    /\ head (selection c')
       = (if true then l_start L
          else if bool_decide
                    (nthZ (text (textModel
                                   (set_selection (mkSel 4 4)
                                      two_lines_control)))
                       (l_end L - 1) = Some newline)
               then l_end L - 1 else l_end L)
    /\ anchor (selection c')
       = (if false
          then anchor (selection
                         (set_selection (mkSel 4 4) two_lines_control))
          else head (selection c'))
    /\ 0 <= head (selection c')
       <= len (text (textModel
                       (set_selection (mkSel 4 4) two_lines_control))).
Proof.
  apply (moveLineBoundary_goes_to_a_line_boundary (fixed_pitch 10) 20 1 true
           false (set_selection (mkSel 4 4) two_lines_control)).
  - reflexivity.
  - right. right. reflexivity.
  - intros k Hk. discriminate Hk.
  - vm_compute. lia.
  - vm_compute. split; discriminate.
Defined.

Lemma moveCaretVertical_lands_on_the_target_line_witness :
  exists c' c1 k cur L,
    moveCaretVertical (fixed_pitch 10) 20 1 1 false
      (set_selection (mkSel 1 1) two_lines_control) = Ok c'
    /\ textModel c'
       = textModel (set_selection (mkSel 1 1) two_lines_control)
    /\ _history c' = _history (set_selection (mkSel 1 1) two_lines_control)
    /\ _redo c' = _redo (set_selection (mkSel 1 1) two_lines_control)
    /\ lineIndexOf (fixed_pitch 10) 20
         (head (selection (set_selection (mkSel 1 1) two_lines_control)))
         (set_selection (mkSel 1 1) two_lines_control) = Ok (c1, cur)
    /\ _cache (textLayout c1) = Some k
    /\ nthZ (c_lines k) (clamp (cur + 1) (len (c_lines k) - 1)) = Some L
    /\ l_start L <= head (selection c') <= l_end L
    /\ anchor (selection c')
       = (if false
          then anchor (selection
                         (set_selection (mkSel 1 1) two_lines_control))
          else head (selection c'))
    /\ 0 <= head (selection c')
       <= len (text (textModel
                       (set_selection (mkSel 1 1) two_lines_control))).
Proof.
  apply (moveCaretVertical_lands_on_the_target_line (fixed_pitch 10) 20 1 1
           false (set_selection (mkSel 1 1) two_lines_control)).
  - reflexivity.
  - right. right. reflexivity.
  - intros k Hk. discriminate Hk.
  - vm_compute. lia.
Defined.

Lemma moveDocumentBoundary_goes_to_an_end_of_the_text_witness :
  exists c',
    moveDocumentBoundary (fixed_pitch 10) 20 1 true false
      (set_scrollY 16 (set_selection (mkSel 4 4) two_lines_control)) = Ok c'
    /\ textModel c' = textModel two_lines_control
    /\ head (selection c') = 0
    /\ anchor (selection c') = head (selection c')
    /\ _scrollY c' = 0.
Proof.
  destruct (moveDocumentBoundary_goes_to_an_end_of_the_text (fixed_pitch 10)
              20 1 true false
              (set_scrollY 16 (set_selection (mkSel 4 4) two_lines_control)))
    as (c' & Hc' & Hm & _ & _ & Hh & Ha & Hs).
  - reflexivity.
  - right. right. reflexivity.
  - exact I.
  - intros k Hk. discriminate Hk.
  - vm_compute. lia.
  - vm_compute. split; discriminate.
  - exists c'.
    split; [exact Hc' | split; [exact Hm | split; [exact Hh |]]].
    split; [exact Ha | exact (Hs eq_refl)].
Defined.

(** ** Select all, then delete *)

(** What [undo()] gives back after a key that recorded a snapshot of
    [c1]. *)
Lemma undo_of_recorded c1 c2 :
  0 < _historyLimit c1 ->
  _history c2 = _history (pushHistory c1) ->
  text (textModel (undo c2)) = text (textModel c1)
  /\ selection (undo c2) = selection c1.
Proof.
  intros Hlim Hh.
  assert (Htop : last (_history c2) = Some (snapshot c1)).
  { rewrite Hh. by apply pushHistory_top. }
  unfold undo. rewrite Htop.
  cbn [restore invalidate set_dirty set_selection set_textModel set_stacks
       textModel selection setText _rebuildText text snapshot snap_text
       snap_a snap_h default].
  split; [| by rewrite selection_eta].
  unfold join_runs. simpl. apply app_nil_r.
Qed.

(** X30. Ctrl+A followed by the Delete key or by Backspace, on a buffer
    whose text is the cache of its runs: no character is left, the caret
    is at offset 0, and, the history limit being positive, [undo()] gives
    back the whole text with everything selected. *)
Theorem select_all_then_delete_empties_the_text (c c2 : TextControl) :
  text_cached (textModel c) ->
  c2 = onKeyDown_Delete (onKeyDown_selectAll c)
  \/ c2 = onKeyDown_Backspace (onKeyDown_selectAll c) ->
  text (textModel c2) = []
  /\ chars (runs (textModel c2)) = []
  /\ selection c2 = mkSel 0 0
  /\ (0 < _historyLimit c ->
      text (textModel (undo c2)) = text (textModel c)
      /\ selection (undo c2) = mkSel 0 (len (text (textModel c)))).
Proof.
  intros Hc Hc2.
  set (c1 := onKeyDown_selectAll c) in *.
  set (n := len (text (textModel c))).
  pose proof (len_nonneg (text (textModel c))) as Hn. fold n in Hn.
  assert (Hm1 : textModel c1 = textModel c) by done.
  assert (Hs1 : selection c1 = mkSel 0 n) by done.
  assert (Hl1 : _historyLimit c1 = _historyLimit c) by done.
  assert (Hst : sel_start (selection c1) = 0).
  { rewrite Hs1. unfold sel_start. simpl. lia. }
  assert (Hen : sel_end (selection c1) = n).
  { rewrite Hs1. unfold sel_end. simpl. lia. }
  assert (Hem : sel_empty (selection c1) = (0 =? n)).
  { rewrite Hs1. done. }
  assert (Hlen : length (chars (runs (textModel c))) = Z.to_nat n).
  { rewrite chars_length, <- Hc. unfold n, len. lia. }
  assert (Hlen' : length (text (textModel c)) = Z.to_nat n).
  { unfold n, len. lia. }
  assert (Hundo : _history c2 = _history (pushHistory c1) ->
                  0 < _historyLimit c ->
                  text (textModel (undo c2)) = text (textModel c)
                  /\ selection (undo c2) = mkSel 0 n).
  { intros Hh Hlim. rewrite <- Hm1, <- Hs1.
    apply undo_of_recorded; [by rewrite Hl1 | done]. }
  destruct Hc2 as [-> | ->].
  - destruct (delete_effect c1) as (Ht & Hch & Hs & Hh & _).
    + by rewrite Hm1.
    + lia.
    + rewrite Hm1, Hen. fold n. lia.
    + rewrite Hst, Hen, Hem, Hm1 in *.
      split_and!; [| | | by apply Hundo].
      * rewrite Ht. change (Z.to_nat 0) with 0%nat.
        rewrite take_0, app_nil_l. apply drop_ge. destruct (0 =? n); lia.
      * rewrite Hch. change (Z.to_nat 0) with 0%nat.
        rewrite take_0, app_nil_l. apply drop_ge. destruct (0 =? n); lia.
      * rewrite Hs. destruct (Z.eqb_spec 0 n) as [<- |]; [| done].
        by rewrite Hs1.
  - destruct (backspace_effect c1) as (Ht & Hch & Hs & Hh & _).
    + by rewrite Hm1.
    + lia.
    + rewrite Hm1, Hen. fold n. lia.
    + rewrite Hst, Hen, Hem, Hm1 in *.
      assert (Hlo : Z.to_nat (if 0 =? n then 0 - 1 else 0) = 0%nat)
        by (destruct (0 =? n); lia).
      rewrite Hlo in *.
      split_and!; [| | | by apply Hundo].
      * rewrite Ht. change (Z.to_nat 0) with 0%nat.
        rewrite take_0, app_nil_l. apply drop_ge. lia.
      * rewrite Hch. change (Z.to_nat 0) with 0%nat.
        rewrite take_0, app_nil_l. apply drop_ge. lia.
      * rewrite Hs. destruct (Z.eqb_spec 0 n) as [<- |]; [| done].
        by rewrite Hs1.
Qed.

Lemma select_all_then_delete_empties_the_text_witness :
  text (textModel (onKeyDown_Delete (onKeyDown_selectAll control_abc))) = []
  /\ selection (onKeyDown_Delete (onKeyDown_selectAll control_abc))
     = mkSel 0 0
  /\ text (textModel
             (undo (onKeyDown_Delete (onKeyDown_selectAll control_abc))))
     = text (textModel control_abc)
  /\ selection (undo (onKeyDown_Delete (onKeyDown_selectAll control_abc)))
     = mkSel 0 (len (text (textModel control_abc))).
Proof.
  destruct (select_all_then_delete_empties_the_text control_abc
              (onKeyDown_Delete (onKeyDown_selectAll control_abc)))
    as (Ht & _ & Hs & Hu).
  - reflexivity.
  - left. reflexivity.
  - destruct Hu as [Hut Hus]; [vm_compute; reflexivity |].
    split; [exact Ht | split; [exact Hs | split; [exact Hut | exact Hus]]].
Defined.

(** ** The two-sided statements on the sample controls *)

Lemma mergeAdjacent_is_idempotent_witness :
  _mergeAdjacent (_mergeAdjacent buffer_abc) = _mergeAdjacent buffer_abc
  /\ _mergeAdjacent buffer_abc = buffer_abc.
Proof.
  destruct (mergeAdjacent_is_idempotent buffer_abc) as [Hi Hf].
  split; [exact Hi |]. apply Hf. apply new_TextModel_distinct.
Defined.

Lemma undo_and_redo_are_inverse_witness :
  (text (textModel (redo (undo (pushHistory control_abc))))
   = text (textModel (pushHistory control_abc))
   /\ _history (redo (undo (pushHistory control_abc)))
      = _history (pushHistory control_abc))
  /\ (text (textModel (undo (redo (undo (pushHistory control_abc)))))
      = text (textModel (undo (pushHistory control_abc)))
      /\ _redo (undo (redo (undo (pushHistory control_abc))))
         = _redo (undo (pushHistory control_abc))).
Proof.
  split.
  - destruct (undo_and_redo_are_inverse (pushHistory control_abc))
      as [Hu _].
    destruct Hu as (Ht & _ & Hh & _); [vm_compute; discriminate |].
    split; [exact Ht | exact Hh].
  - destruct (undo_and_redo_are_inverse (undo (pushHistory control_abc)))
      as [_ Hr].
    destruct Hr as (Ht & _ & _ & Hr & _); [vm_compute; discriminate |].
    split; [exact Ht | exact Hr].
Defined.

Lemma toggleStyle_toggles_selection_or_typing_style_witness :
  (exists c',
     toggleStyle (fixed_pitch 8) 20 PBold control_abc = Ok c'
     /\ style_prop PBold (currentStyle c')
        = VBool (negb (truthy (style_prop PBold
                                 (currentStyle control_abc))))
     /\ textModel c' = textModel control_abc)
  /\ (exists c',
        toggleStyle (fixed_pitch 8) 20 PBold control_ab_selected = Ok c'
        /\ text (textModel c') = text (textModel control_ab_selected)
        /\ _history c' = _history (pushHistory control_ab_selected)).
Proof.
  split.
  - destruct (toggleStyle_toggles_selection_or_typing_style
                (fixed_pitch 8) 20 PBold control_abc) as [He _].
    destruct He as (c' & Hc' & Hs & _ & Hm & _); [reflexivity |].
    exists c'. split; [exact Hc' | split; [exact Hs | exact Hm]].
  - destruct (toggleStyle_toggles_selection_or_typing_style
                (fixed_pitch 8) 20 PBold control_ab_selected) as [_ Hn].
    destruct Hn as (c' & Hc' & _ & Ht & _ & _ & Hh & _).
    + reflexivity.
    + split; [reflexivity | split; [reflexivity | exact I]].
    + vm_compute. lia.
    + exists c'. split; [exact Hc' | split; [exact Ht | exact Hh]].
Defined.
